(** * admaren-app: grid model, selection, route rendering, weather provider
      and particle engine

    A shallow embedding of
      - [GridMapComponent]       (grid-map.component.ts)
      - [MapComponent]           (map.component.ts)
      - [WindyWeatherService]    (windy-weather.service.ts)

    JavaScript numbers are taken as finite exact numbers: rationals [Q]
    wherever the program only adds, multiplies, divides, rounds and compares
    (the grid, the route geometry, the colour thresholds), and reals [R] where
    it calls [Math.sin], [Math.cos], [Math.sqrt] or [Math.atan2] (the weather
    service and the particle engine).  NaN, infinities and binary64 rounding
    are outside the model. *)

From Stdlib Require Import List String ZArith QArith Qround Qminmax Lia Bool Arith.
From Stdlib Require Import Reals Qreals Lqa Lra DecimalString.
Import ListNotations.

Set Implicit Arguments.

(* ------------------------------------------------------------------ *)
(** ** JavaScript numbers *)

(** What the colour step functions need from a number: integer literals,
    the strict comparison [<] and division. *)
Class JsNumber (T : Type) : Type := {
  lit : Z -> T;
  js_lt : T -> T -> bool;
  js_div : T -> T -> T
}.

Declare Scope js_scope.
Delimit Scope js_scope with js.
Infix "<?" := js_lt (at level 70, no associativity) : js_scope.

Module QNum.
Open Scope Q_scope.

Definition ltb (x y : Q) : bool := negb (Qle_bool y x).
Definition leb (x y : Q) : bool := Qle_bool x y.
Definition geb (x y : Q) : bool := Qle_bool y x.

(** [Math.round]: the nearest integer, halves going up. *)
Definition Math_round (x : Q) : Q := inject_Z (Qfloor (x + (1 # 2))).

(** [Math.min] and [Math.max] on two finite numbers. *)
Definition Math_min (x y : Q) : Q := Qmin x y.
Definition Math_max (x y : Q) : Q := Qmax x y.

Definition ofNat (n : nat) : Q := inject_Z (Z.of_nat n).
End QNum.

#[export] Instance JsNumber_Q : JsNumber Q :=
  {| lit := inject_Z; js_lt := QNum.ltb; js_div := Qdiv |}.

(* ------------------------------------------------------------------ *)
(** ** Shared interfaces *)

Record GridCell : Type := mkGridCell {
  id : nat;
  lat : Q;
  lon : Q;
  row : nat;
  col : nat
}.

Record SelectedCoordinates : Type := mkSelected {
  source : option GridCell;
  destination : option GridCell
}.

Inductive SelectionMode : Type := SourceMode | DestinationMode.

Inductive MapMode : Type := WindyMode | WorldMode.

Inductive WeatherLayer : Type :=
  LWind | LTemperature | LPressure | LHumidity | LCape.

(** A counted [for (let i = 0; i < n; i++)] loop threading the mutable
    locals [S] through its body. *)
Definition for_loop {S : Type} (n : nat) (body : nat -> S -> S) (s : S) : S :=
  fold_left (fun acc i => body i acc) (seq 0 n) s.

(* ------------------------------------------------------------------ *)
(** ** Grid generation (identical in both components) *)

Module Grid.
Import QNum.
Open Scope Q_scope.

Definition gridRows : nat := 18.
Definition gridCols : nat := 36.
Definition latStep : Q := 10.
Definition lonStep : Q := 10.

(** The cell pushed at [(row, col)] when the running counter is [i]. *)
Definition cellAt (latStep lonStep : Q) (i row col : nat) : GridCell :=
  let lat := 90 - (ofNat row * latStep + latStep / 2) in
  let lon := -(180) + (ofNat col * lonStep + lonStep / 2) in
  {| id := i;
     lat := Math_round (lat * 100) / 100;
     lon := Math_round (lon * 100) / 100;
     row := row;
     col := col |}.

(** Body of the inner loop: [cells.push({...}); id++]. *)
Definition pushCell (latStep lonStep : Q) (row col : nat)
    (st : list GridCell * nat) : list GridCell * nat :=
  let '(cells, i) := st in
  (cells ++ [cellAt latStep lonStep i row col], S i).

Definition generateGridWith (rows cols : nat) (latStep lonStep : Q)
    : list GridCell :=
  fst (for_loop rows
         (fun row => for_loop cols (fun col => pushCell latStep lonStep row col))
         ([], 1%nat)).

Definition generateGrid : list GridCell :=
  generateGridWith gridRows gridCols latStep lonStep.
End Grid.

(* ------------------------------------------------------------------ *)
(** ** GridMapComponent: the grid-only selection policy *)

Module GridMapComponent.

Record State : Type := mkState {
  selectedCoordinates : SelectedCoordinates;
  selectionMode : SelectionMode
}.

Definition initial : State :=
  {| selectedCoordinates := {| source := None; destination := None |};
     selectionMode := SourceMode |}.

(** [selectCell] returns the next state together with the values passed to
    [coordinatesSelected.emit], in order. *)
Definition selectCell (cell : GridCell) (st : State)
    : State * list SelectedCoordinates :=
  let mode := selectionMode st in
  let current := selectedCoordinates st in
  match mode with
  | SourceMode =>
      ({| selectedCoordinates :=
            {| source := Some cell; destination := destination current |};
          selectionMode := DestinationMode |}, [])
  | DestinationMode =>
      let picked := {| source := source current; destination := Some cell |} in
      ({| selectedCoordinates := {| source := None; destination := None |};
          selectionMode := SourceMode |}, [picked])
  end.

Definition resetSelection (st : State) : State :=
  {| selectedCoordinates := {| source := None; destination := None |};
     selectionMode := SourceMode |}.

Definition idIs (o : option GridCell) (cell : GridCell) : bool :=
  match o with
  | Some c => Nat.eqb (id c) (id cell)
  | None => false
  end.

Definition isDestinationMode (m : SelectionMode) : bool :=
  match m with DestinationMode => true | SourceMode => false end.

Definition isCellSelected (st : State) (cell : GridCell) : bool :=
  let selected := selectedCoordinates st in
  (idIs (source selected) cell && isDestinationMode (selectionMode st))
  || (idIs (destination selected) cell
      && negb (isDestinationMode (selectionMode st))).

Definition isCellHighlighted (st : State) (cell : GridCell) : bool :=
  let selected := selectedCoordinates st in
  idIs (source selected) cell || idIs (destination selected) cell.
End GridMapComponent.

(* ------------------------------------------------------------------ *)
(** ** Real-valued numbers and the [Math] functions used on them *)

Module RNum.
Open Scope R_scope.

Definition ltb (x y : R) : bool := if Rlt_dec x y then true else false.

(** [Math.round]: the nearest integer, halves going up. *)
Definition Math_round (x : R) : R := IZR (Zfloor (x + 0.5)).

Definition Math_min (x y : R) : R := Rmin x y.
Definition Math_max (x y : R) : R := Rmax x y.

(** [Math.atan2(y, x)] by quadrant. *)
Definition Math_atan2 (y x : R) : R :=
  if Rlt_dec 0 x then atan (y / x)
  else if Rlt_dec x 0 then
    (if Rle_dec 0 y then atan (y / x) + PI else atan (y / x) - PI)
  else if Rlt_dec 0 y then PI / 2
  else if Rlt_dec y 0 then - (PI / 2)
  else 0.

(** Truncation towards zero and the remainder operator [a % n]. *)
Definition trunc (x : R) : Z :=
  if Rle_dec 0 x then Zfloor x else (- Zfloor (- x))%Z.

Definition rem (a n : R) : R := a - n * IZR (trunc (a / n)).

(** [x || d] on an optional number: [undefined] and [0] are falsy. *)
Definition orDefault (o : option R) (d : R) : R :=
  match o with
  | Some x => if Req_dec_T x 0 then d else x
  | None => d
  end.
End RNum.

#[export] Instance JsNumber_R : JsNumber R :=
  {| lit := IZR; js_lt := RNum.ltb; js_div := Rdiv |}.

(* ------------------------------------------------------------------ *)
(** ** Effects: [Math.random] and the console

    [Math.random()] reads the next value of a stream of draws; the world
    keeps the position in the stream and what was written to the console. *)

Inductive HttpError : Type := HttpFailure (status : nat) (message : string).

Inductive LogEntry : Type :=
  Warn (message : string) (error : HttpError).

Record World : Type := mkWorld {
  cursor : nat;
  console : list LogEntry
}.

Definition M (A : Type) : Type := World -> A * World.

Definition ret {A : Type} (a : A) : M A := fun w => (a, w).

Definition bind {A B : Type} (m : M A) (k : A -> M B) : M B :=
  fun w => let '(a, w') := m w in k a w'.

Notation "x <- m ;; k" := (bind m (fun x => k))
  (at level 61, m at next level, right associativity).
Notation "m ;;; k" := (bind m (fun _ => k))
  (at level 61, right associativity).

Definition console_warn (message : string) (error : HttpError) : M unit :=
  fun w => (tt, {| cursor := cursor w;
                   console := console w ++ [Warn message error] |}).

Fixpoint mapM {A B : Type} (f : A -> M B) (l : list A) : M (list B) :=
  match l with
  | [] => ret []
  | a :: l' => b <- f a ;; bs <- mapM f l' ;; ret (b :: bs)
  end.

(** [n] successive runs of [body], results in order. *)
Fixpoint replicateM {A : Type} (n : nat) (body : M A) : M (list A) :=
  match n with
  | O => ret []
  | S n' => a <- body ;; rest <- replicateM n' body ;; ret (a :: rest)
  end.

(** What a subscriber of a one-shot observable receives. *)
Inductive Notification (A : Type) : Type :=
| Next (value : A)
| Failed (error : HttpError).
Arguments Failed {A} error.

(* ------------------------------------------------------------------ *)
(** ** Colour step functions (WindyWeatherService and MapComponent) *)

Section Colours.
Context {T : Type} `{JsNumber T}.
Open Scope string_scope.
Open Scope js_scope.

Definition getWindSpeedColor (speedMs : T) : string :=
  if speedMs <? lit 2 then "#0066CC"
  else if speedMs <? lit 5 then "#00CCFF"
  else if speedMs <? lit 10 then "#00FF00"
  else if speedMs <? lit 15 then "#FFFF00"
  else if speedMs <? lit 20 then "#FF8800"
  else if speedMs <? lit 25 then "#FF4400"
  else "#FF0000".

Definition getTemperatureColor (tempC : T) : string :=
  if tempC <? lit (-10) then "#0000FF"
  else if tempC <? lit 0 then "#00BFFF"
  else if tempC <? lit 10 then "#00FF00"
  else if tempC <? lit 20 then "#FFFF00"
  else if tempC <? lit 30 then "#FF8C00"
  else "#FF0000".

Definition getPressureColor (pressurePa : T) : string :=
  let pressureHpa := js_div pressurePa (lit 100) in
  if pressureHpa <? lit 980 then "#FF0000"
  else if pressureHpa <? lit 1000 then "#FF8800"
  else if pressureHpa <? lit 1013 then "#FFFF00"
  else if pressureHpa <? lit 1027 then "#00FF00"
  else "#00BFFF".

Definition getSpeedBasedColor (speed : T) : string :=
  if speed <? lit 1 then "#0000FF"
  else if speed <? lit 3 then "#00BFFF"
  else if speed <? lit 5 then "#00FF00"
  else if speed <? lit 7 then "#FFFF00"
  else if speed <? lit 10 then "#FF8C00"
  else "#FF0000".

Definition getHumidityColor (humidity : T) : string :=
  if humidity <? lit 30 then "#FF6B6B"
  else if humidity <? lit 50 then "#FFA500"
  else if humidity <? lit 70 then "#90EE90"
  else "#0047AB".

Definition getCapeColor (cape : T) : string :=
  if cape <? lit 500 then "#00FF00"
  else if cape <? lit 1500 then "#FFD700"
  else if cape <? lit 2500 then "#FF8C00"
  else "#FF0000".
End Colours.

(** The wind palette from calm to storm; a colour's bucket is its position. *)
Definition windPalette : list string :=
  ["#0066CC"; "#00CCFF"; "#00FF00"; "#FFFF00"; "#FF8800"; "#FF4400"; "#FF0000"]%string.

Fixpoint indexOf (c : string) (palette : list string) : nat :=
  match palette with
  | [] => O
  | p :: rest => if String.eqb c p then O else S (indexOf c rest)
  end.

Definition windBucket (c : string) : nat := indexOf c windPalette.

(* ------------------------------------------------------------------ *)
(** ** WindyWeatherService *)

Module WindyWeatherService.
Import RNum.
Open Scope R_scope.

Record WindData : Type := mkWind {
  speed : R;
  direction : R;
  u : R;
  v : R
}.

Record WindyWeatherData : Type := mkWeather {
  wind : WindData;
  temp : R;
  rh : R;
  pressure : R;
  gust : option R;
  cape : option R;
  visibility : option R
}.

(** Every member may be missing from the JSON body, which is why the
    parser reads them through [?.]. *)
Record WindyApiResponse : Type := mkResponse {
  ts : option R;
  resp_wind : option (list (list R));
  resp_temp : option (list (list R));
  resp_rh : option (list (list R));
  resp_pressure : option (list (list R));
  resp_gust : option (list (list R))
}.

(** The GET request [`${apiBaseUrl}?lat=${lat}&lon=${lon}&key=${apiKey}`]. *)
Record Request : Type := mkRequest {
  req_base : string;
  req_lat : R;
  req_lon : R;
  req_key : string
}.

(** The service's fields; [http_get] is what a subscriber of
    [http.get(url)] receives: the decoded body or an error. *)
Record Service : Type := mkService {
  apiKey : string;
  apiBaseUrl : string;
  http_get : Request -> Notification WindyApiResponse
}.

Definition placeholderKey : string := "YOUR_WINDY_API_KEY".

Definition warnMessage : string :=
  "Failed to fetch from Windy API, using simulated data:".

(** [a?.[0]] on an optional array. *)
Definition first {A : Type} (a : option (list A)) : option A :=
  match a with
  | Some l => nth_error l 0
  | None => None
  end.

Definition parseWindyResponse (response : WindyApiResponse) (lat lon : R)
    : WindyWeatherData :=
  let windData :=
    match first (resp_wind response) with
    | Some a => a
    | None => [0; 0]
    end in
  let tempValue := orDefault (first (first (resp_temp response))) 15 in
  let rhValue := orDefault (first (first (resp_rh response))) 50 in
  let pressureValue :=
    orDefault (first (first (resp_pressure response))) 101325 in
  let gustValue := orDefault (first (first (resp_gust response))) 0 in
  let u := orDefault (nth_error windData 0) 0 in
  let v := orDefault (nth_error windData 1) 0 in
  let speed := sqrt (u * u + v * v) in
  let direction := rem (Math_atan2 u v * 180 / PI + 180) 360 in
  {| wind := {| speed := speed; direction := direction; u := u; v := v |};
     temp := tempValue;
     rh := rhValue;
     pressure := pressureValue;
     gust := Some gustValue;
     cape := None;
     visibility := None |}.

(** The body of [generateSimulatedWeatherData] with its six
    [Math.random()] results named in call order. *)
Definition simulatedFrom (lat lon r1 r2 r3 r4 r5 r6 : R) : WindyWeatherData :=
  let baseTemp := 20 - Rabs lat * 0.5 in
  let temp := baseTemp + (sin (lon * 0.1) * 8) + (r1 - 0.5) * 5 in
  let baseWindSpeed := Rabs (sin (lat * PI / 180)) * 15 + 3 in
  let windSpeed := baseWindSpeed + (r2 - 0.5) * 5 in
  let windDirection := rem (lon * 2 + lat + r3 * 360) 360 in
  let angleRad := windDirection * PI / 180 in
  let u := windSpeed * sin angleRad in
  let v := windSpeed * cos angleRad in
  let baseRH := 60 - Rabs lat * 0.3 in
  let rh := Math_max 30 (Math_min 95 (baseRH + (r4 - 0.5) * 20)) in
  let basePressure := 101325 + (sin (lat * PI / 180) * 1000) in
  let pressure := basePressure + (r5 - 0.5) * 500 in
  let gust := windSpeed * (1.5 + r6 * 0.5) in
  {| wind := {| speed := windSpeed; direction := windDirection;
                u := u; v := v |};
     temp := Math_round (temp * 10) / 10;
     rh := Math_round rh;
     pressure := Math_round pressure;
     gust := Some (Math_round (gust * 10) / 10);
     cape := None;
     visibility := None |}.

Section WithRandom.
(** The stream of values [Math.random()] returns. *)
Variable random : nat -> R.

Definition Math_random : M R :=
  fun w => (random (cursor w),
            {| cursor := S (cursor w); console := console w |}).

Definition generateSimulatedWeatherData (lat lon : R) : M WindyWeatherData :=
  r1 <- Math_random ;;
  r2 <- Math_random ;;
  r3 <- Math_random ;;
  r4 <- Math_random ;;
  r5 <- Math_random ;;
  r6 <- Math_random ;;
  ret (simulatedFrom lat lon r1 r2 r3 r4 r5 r6).

(** [of(x)] *)
Definition rx_of {A : Type} (x : A) : Notification A := Next x.

(** [map(f)] *)
Definition mapObs {A B : Type} (f : A -> B) (o : Notification A)
    : Notification B :=
  match o with
  | Next a => Next (f a)
  | Failed e => Failed e
  end.

(** [catchError(handler)] *)
Definition catchError {A : Type} (handler : HttpError -> M (Notification A))
    (o : Notification A) : M (Notification A) :=
  match o with
  | Next a => ret (Next a)
  | Failed e => handler e
  end.

(** [getWeatherData(lat, lon)] together with the subscription its callers
    make at once: the result is what the subscriber receives. *)
Definition getWeatherData (svc : Service) (lat lon : R)
    : M (Notification WindyWeatherData) :=
  if String.eqb (apiKey svc) placeholderKey then
    d <- generateSimulatedWeatherData lat lon ;;
    ret (rx_of d)
  else
    catchError
      (fun error =>
         console_warn warnMessage error ;;;
         d <- generateSimulatedWeatherData lat lon ;;
         ret (rx_of d))
      (mapObs (fun response => parseWindyResponse response lat lon)
         (http_get svc {| req_base := apiBaseUrl svc; req_lat := lat;
                          req_lon := lon; req_key := apiKey svc |})).
End WithRandom.

(** The service as the repository configures it. *)
Definition shipped (http : Request -> Notification WindyApiResponse) : Service :=
  {| apiKey := "YOUR_WINDY_API_KEY";
     apiBaseUrl := "https://api.windy.com/api/point-forecast/v2";
     http_get := http |}.
End WindyWeatherService.

(* ------------------------------------------------------------------ *)
(** ** MapComponent: selection, route rendering, on-route test *)

Module MapComponent.
Import WindyWeatherService.

Record Waypoint : Type := mkWaypoint {
  wp_lat : Q;
  wp_lon : Q
}.

Record RoutingData : Type := mkRoutingData {
  resultCode : Z;
  resultText : string;
  totalDistance : Q;
  secaDistance : Q;
  waypoints : option (list Waypoint);
  metadata : option string;
  arrived_flag : bool
}.

Record WindParticle : Type := mkParticle {
  x : R;
  y : R;
  vx : R;
  vy : R;
  age : nat;
  life : R;
  brightness : R
}.

Definition LatLng : Type := (Q * Q)%type.

(** The Leaflet layers [displayRoute] creates.  A polyline's popup is kept
    as the three numbers it prints. *)
Inductive Layer : Type :=
| CircleMarker (latlng : LatLng) (radius : nat) (fillColor : string)
    (popup : option string)
| Polyline (latlngs : list LatLng) (segmentNumber : nat)
    (distance seca : Q).

Record Bounds : Type := mkBounds {
  south : Q; west : Q; north : Q; east : Q
}.

(** Calls made on the route layer group and on the map. *)
Inductive LeafletCall : Type :=
| ClearLayers
| AddTo (layer : Layer)
| FitBounds (bounds : Bounds) (padding : nat * nat).

(** A draw call puts something on the map or moves the viewport. *)
Definition isDrawCall (c : LeafletCall) : bool :=
  match c with
  | ClearLayers => false
  | AddTo _ => true
  | FitBounds _ _ => true
  end.

(** Calls [selectCell] makes besides its state updates. *)
Inductive Effect : Type :=
| Emit (coordinates : SelectedCoordinates)
| UpdateMapVisualization (mode : MapMode).

Record MapView : Type := mkView {
  center_lat : R;
  center_lng : R
}.

(** The component's fields.  [leafletMap] is the field [map];
    [routeLayerGroup] holds the layers of the group, [None] before
    [initializeMap] has created it. *)
Record State : Type := mkState {
  mapMode : MapMode;
  currentWeatherLayer : WeatherLayer;
  leafletMap : option MapView;
  routeLayerGroup : option (list Layer);
  selectedCoordinates : SelectedCoordinates;
  selectionMode : SelectionMode;
  showingRoute : bool;
  particleSystem : list WindParticle;
  currentWeatherData : option WindyWeatherData
}.

Definition initial : State :=
  {| mapMode := WindyMode;
     currentWeatherLayer := LWind;
     leafletMap := None;
     routeLayerGroup := None;
     selectedCoordinates := {| source := None; destination := None |};
     selectionMode := SourceMode;
     showingRoute := false;
     particleSystem := [];
     currentWeatherData := None |}.

Definition setSelection (sel : SelectedCoordinates) (m : SelectionMode)
    (showing : bool) (st : State) : State :=
  {| mapMode := mapMode st;
     currentWeatherLayer := currentWeatherLayer st;
     leafletMap := leafletMap st;
     routeLayerGroup := routeLayerGroup st;
     selectedCoordinates := sel;
     selectionMode := m;
     showingRoute := showing;
     particleSystem := particleSystem st;
     currentWeatherData := currentWeatherData st |}.

Definition setRouteLayers (layers : option (list Layer)) (st : State) : State :=
  {| mapMode := mapMode st;
     currentWeatherLayer := currentWeatherLayer st;
     leafletMap := leafletMap st;
     routeLayerGroup := layers;
     selectedCoordinates := selectedCoordinates st;
     selectionMode := selectionMode st;
     showingRoute := showingRoute st;
     particleSystem := particleSystem st;
     currentWeatherData := currentWeatherData st |}.

Definition setParticles (ps : list WindParticle)
    (wd : option WindyWeatherData) (st : State) : State :=
  {| mapMode := mapMode st;
     currentWeatherLayer := currentWeatherLayer st;
     leafletMap := leafletMap st;
     routeLayerGroup := routeLayerGroup st;
     selectedCoordinates := selectedCoordinates st;
     selectionMode := selectionMode st;
     showingRoute := showingRoute st;
     particleSystem := ps;
     currentWeatherData := wd |}.

(** *** Selection (the map-embedded policy) *)

Definition selectCell (cell : GridCell) (st : State) : State * list Effect :=
  let mode := selectionMode st in
  let current := selectedCoordinates st in
  match mode with
  | SourceMode =>
      let st1 :=
        setSelection {| source := Some cell; destination := destination current |}
          DestinationMode (showingRoute st) st in
      (st1, [UpdateMapVisualization (mapMode st1)])
  | DestinationMode =>
      let st1 :=
        setSelection {| source := source current; destination := Some cell |}
          DestinationMode true st in
      (st1, [Emit (selectedCoordinates st1);
             UpdateMapVisualization (mapMode st1)])
  end.

Definition resetSelection (st : State) : State :=
  let st1 :=
    setSelection {| source := None; destination := None |} SourceMode false st in
  match routeLayerGroup st1 with
  | Some _ => setRouteLayers (Some []) st1
  | None => st1
  end.

(** *** The on-route test *)

Definition isCellOnRoute (cell : GridCell)
    (source destination : option GridCell) : bool :=
  match source, destination with
  | Some source, Some destination =>
      let minLat := QNum.Math_min (lat source) (lat destination) in
      let maxLat := QNum.Math_max (lat source) (lat destination) in
      let minLon := QNum.Math_min (lon source) (lon destination) in
      let maxLon := QNum.Math_max (lon source) (lon destination) in
      QNum.geb (lat cell) minLat && QNum.leb (lat cell) maxLat
      && QNum.geb (lon cell) minLon && QNum.leb (lon cell) maxLon
  | _, _ => false
  end.

(** *** Route rendering

    A result of [None] stands for a thrown exception. *)

Definition sourceMarker (c : LatLng) : Layer :=
  CircleMarker c 10 "#667eea" (Some "<b>Source Port</b><br>Start of Route"%string).

Definition destinationMarker (c : LatLng) : Layer :=
  CircleMarker c 10 "#764ba2"
    (Some "<b>Destination Port</b><br>End of Route"%string).

Definition waypointMarker (c : LatLng) : Layer :=
  CircleMarker c 4 "#FFD700" None.

(** [for (let i = 1; i < coordinates.length - 1; i += 5)]; the loop runs at
    most [coordinates.length] times, which is the fuel it is given. *)
Fixpoint intermediateMarkers (fuel i : nat) (coordinates : list LatLng)
    : option (list Layer) :=
  match fuel with
  | O => Some []
  | S fuel' =>
      if Nat.ltb i (List.length coordinates - 1) then
        match nth_error coordinates i with
        | Some c =>
            option_map (cons (waypointMarker c))
              (intermediateMarkers fuel' (i + 5) coordinates)
        | None => None
        end
      else Some []
  end.

(** One call of the [forEach] callback: the layers it adds, in order. *)
Definition drawSegment (count segmentIndex : nat) (routingData : RoutingData)
    : option (list Layer) :=
  match waypoints routingData with
  | None => Some []
  | Some [] => Some []
  | Some wps =>
      let coordinates := map (fun wp => (wp_lat wp, wp_lon wp)) wps in
      let sourcePart :=
        if Nat.eqb segmentIndex 0 then
          option_map (fun c => [sourceMarker c]) (nth_error coordinates 0)
        else Some [] in
      let destPart :=
        if Nat.eqb segmentIndex (count - 1) then
          option_map (fun c => [destinationMarker c])
            (nth_error coordinates (List.length coordinates - 1))
        else Some [] in
      let polyline :=
        Polyline coordinates (segmentIndex + 1)
          (totalDistance routingData) (secaDistance routingData) in
      match sourcePart, destPart,
            intermediateMarkers (List.length coordinates) 1 coordinates with
      | Some s, Some d, Some ms => Some (s ++ d ++ [polyline] ++ ms)
      | _, _, _ => None
      end
  end.

Fixpoint forEachSegment (count index : nat) (segments : list RoutingData)
    : option (list Layer) :=
  match segments with
  | [] => Some []
  | routingData :: rest =>
      match drawSegment count index routingData with
      | Some added => option_map (app added) (forEachSegment count (S index) rest)
      | None => None
      end
  end.

Definition layerPoints (l : Layer) : list LatLng :=
  match l with
  | CircleMarker c _ _ _ => [c]
  | Polyline cs _ _ _ => cs
  end.

Definition extend (b : option Bounds) (p : LatLng) : option Bounds :=
  match b with
  | None => Some {| south := fst p; west := snd p; north := fst p; east := snd p |}
  | Some b =>
      Some {| south := Qmin (south b) (fst p); west := Qmin (west b) (snd p);
              north := Qmax (north b) (fst p); east := Qmax (east b) (snd p) |}
  end.

(** [layerGroup.getBounds()]; [None] is a bounds object whose [isValid()]
    is false. *)
Definition getBounds (layers : list Layer) : option Bounds :=
  fold_left extend (flat_map layerPoints layers) None.

Definition displayRoute (routingDataArray : option (list RoutingData))
    (st : State) : option (State * list LeafletCall) :=
  match leafletMap st, routeLayerGroup st with
  | Some _, Some _ =>
      match routingDataArray with
      | None => Some (setRouteLayers (Some []) st, [ClearLayers])
      | Some [] => Some (setRouteLayers (Some []) st, [ClearLayers])
      | Some segments =>
          match forEachSegment (List.length segments) 0 segments with
          | Some layers =>
              let fit :=
                match getBounds layers with
                | Some b => [FitBounds b (50, 50)%nat]
                | None => []
                end in
              Some (setRouteLayers (Some layers) st,
                    ClearLayers :: map AddTo layers ++ fit)
          | None => None
          end
      end
  | _, _ => Some (st, [])
  end.

(** *** Particle engine

    Of a frame, the model keeps what reads or writes the particle pool and
    what calls [Math.random]: the particle update with the stroke it draws,
    and the CAPE overlay.  The pixel decay, the streamlines and the other
    overlays only paint the canvas. *)

Record Canvas : Type := mkCanvas {
  width : nat;
  height : nat
}.

Record Stroke : Type := mkStroke {
  strokeStyle : string;
  globalAlpha : R;
  lineWidth : R;
  moveTo : R * R;
  lineTo : R * R
}.

Record Frame : Type := mkFrame {
  strokes : list Stroke;
  stormCells : list (nat * nat)
}.

Definition particleCount : nat := 2500.

Definition getLayerColor (layer : WeatherLayer)
    (weatherData : WindyWeatherData) (speed : R) : string :=
  match layer with
  | LWind => getWindSpeedColor (WindyWeatherService.speed (wind weatherData))
  | LTemperature => getTemperatureColor (temp weatherData)
  | LPressure => getPressureColor (pressure weatherData)
  | LHumidity => getHumidityColor (rh weatherData)
  | LCape => getCapeColor (RNum.orDefault (cape weatherData) 0%R)
  end.

Section Engine.
Variable random : nat -> R.
Open Scope R_scope.

Definition Math_random : M R := WindyWeatherService.Math_random random.

(** The body of the seeding loop. *)
Definition newParticle (windSpeedMs windAngleRad : R) : M WindParticle :=
  r1 <- Math_random ;;
  let speedVariation := 0.8 + r1 * 0.4 in
  r2 <- Math_random ;;
  let vx := cos windAngleRad * (windSpeedMs / 4) * speedVariation
            + (r2 - 0.5) * 1 in
  r3 <- Math_random ;;
  let vy := sin windAngleRad * (windSpeedMs / 4) * speedVariation
            + (r3 - 0.5) * 1 in
  r4 <- Math_random ;;
  r5 <- Math_random ;;
  r6 <- Math_random ;;
  r7 <- Math_random ;;
  ret {| x := r4 * 1000;
         y := r5 * 600;
         vx := vx;
         vy := vy;
         age := 0;
         life := r6 * 150 + 100;
         brightness := r7 * 0.5 + 0.5 |}.

Definition initializeParticleSystem (svc : Service) (st : State) : M State :=
  let st0 := setParticles [] (currentWeatherData st) st in
  match leafletMap st0 with
  | None => ret st0
  | Some center =>
      n <- getWeatherData random svc (center_lat center) (center_lng center) ;;
      match n with
      | Next weatherData =>
          let windSpeedMs := speed (wind weatherData) in
          let windDirectionDeg := direction (wind weatherData) in
          let windAngleRad := windDirectionDeg * PI / 180 in
          ps <- replicateM particleCount
                  (newParticle windSpeedMs windAngleRad) ;;
          ret (setParticles (particleSystem st0 ++ ps) (Some weatherData) st0)
      | Failed _ => ret st0
      end
  end.

(** The [forEach] callback of a frame, on one particle. *)
Definition stepParticle (canvas : Canvas) (layer : WeatherLayer)
    (realWeatherData : option WindyWeatherData) (particle : WindParticle)
    : M (WindParticle * Stroke) :=
  let w := INR (width canvas) in
  let h := INR (height canvas) in
  let x1 := x particle + vx particle in
  let y1 := y particle + vy particle in
  let age1 := S (age particle) in
  let gustFactor := sin (INR age1 * 0.02) * 0.5 in
  r1 <- Math_random ;;
  let vx1 := vx particle + ((r1 - 0.5) * 0.4 + gustFactor * 0.2) in
  r2 <- Math_random ;;
  let vy1 := vy particle + ((r2 - 0.5) * 0.4 + gustFactor * 0.2) in
  let x2 := if RNum.ltb x1 (-50) then w + 50 else x1 in
  let x3 := if RNum.ltb (w + 50) x2 then -50 else x2 in
  let y2 := if RNum.ltb y1 (-50) then h + 50 else y1 in
  let y3 := if RNum.ltb (h + 50) y2 then -50 else y2 in
  let ageRatio := INR age1 / life particle in
  let opacity := brightness particle * (1 - ageRatio * ageRatio) * 0.9 in
  let speed := sqrt (vx1 ^ 2 + vy1 ^ 2) in
  let color :=
    match realWeatherData with
    | Some data => getLayerColor layer data speed
    | None => getSpeedBasedColor speed
    end in
  let stroke :=
    {| strokeStyle := color;
       globalAlpha := opacity;
       lineWidth := 0.8 + speed * 0.25;
       moveTo := (x3 - vx1 * 0.8, y3 - vy1 * 0.8);
       lineTo := (x3, y3) |} in
  if RNum.ltb (life particle) (INR age1) then
    r3 <- Math_random ;;
    r4 <- Math_random ;;
    r5 <- Math_random ;;
    r6 <- Math_random ;;
    ret ({| x := r3 * w;
            y := r4 * h;
            vx := vx1;
            vy := vy1;
            age := 0;
            life := r5 * 150 + 100;
            brightness := r6 * 0.5 + 0.5 |}, stroke)
  else
    ret ({| x := x3;
            y := y3;
            vx := vx1;
            vy := vy1;
            age := age1;
            life := life particle;
            brightness := brightness particle |}, stroke).

(** [for (let x = 0; x < limit; x += 50)] *)
Definition steps50 (limit : nat) : list nat :=
  map (fun k => (50 * k)%nat) (seq 0 ((limit + 49) / 50)).

Definition drawCapeOverlay (canvas : Canvas) (weatherData : WindyWeatherData)
    : M (list (nat * nat)) :=
  let cape := RNum.orDefault (cape weatherData) 0 in
  let capeNormalized := RNum.Math_min (cape / 3000) 1 in
  hits <- mapM (fun xy =>
                  r <- Math_random ;;
                  ret (if RNum.ltb r capeNormalized then [xy] else []))
            (list_prod (steps50 (width canvas)) (steps50 (height canvas))) ;;
  ret (List.concat hits).

Definition drawLayerOverlay (canvas : Canvas) (layer : WeatherLayer)
    (weatherData : option WindyWeatherData) : M (list (nat * nat)) :=
  match weatherData with
  | None => ret []
  | Some data =>
      match layer with
      | LCape => drawCapeOverlay canvas data
      | _ => ret []
      end
  end.

(** One run of [animate]. *)
Definition animate (canvas : Canvas)
    (realWeatherData : option WindyWeatherData) (st : State)
    : M (State * Frame) :=
  drawn <- mapM (stepParticle canvas (currentWeatherLayer st) realWeatherData)
             (particleSystem st) ;;
  cells <- drawLayerOverlay canvas (currentWeatherLayer st) realWeatherData ;;
  ret (setParticles (map fst drawn) (currentWeatherData st) st,
       {| strokes := map snd drawn; stormCells := cells |}).

(** The first [frames] runs of the self-rescheduling [animate]. *)
Fixpoint animateFrames (frames : nat) (canvas : Canvas)
    (realWeatherData : option WindyWeatherData) (st : State)
    : M (State * list Frame) :=
  match frames with
  | O => ret (st, [])
  | S frames' =>
      r <- animate canvas realWeatherData st ;;
      rest <- animateFrames frames' canvas realWeatherData (fst r) ;;
      ret (fst rest, snd r :: snd rest)
  end.

Definition animateWeatherVisualization (svc : Service) (view : MapView)
    (canvas : Canvas) (frames : nat) (st : State) : M (State * list Frame) :=
  n <- getWeatherData random svc (center_lat view) (center_lng view) ;;
  match n with
  | Next data =>
      animateFrames frames canvas (Some data)
        (setParticles (particleSystem st) (Some data) st)
  | Failed _ => animateFrames frames canvas None st
  end.

(** [onAdd] of the weather layer: seed the pool, then animate. *)
Definition onAdd (svc : Service) (view : MapView) (canvas : Canvas)
    (frames : nat) (st : State) : M (State * list Frame) :=
  st1 <- initializeParticleSystem svc st ;;
  animateWeatherVisualization svc view canvas frames st1.
End Engine.
End MapComponent.

(* ------------------------------------------------------------------ *)
(** ** Vocabulary of the statements *)

(** Row [row] of the grid when the counter starts at [i]. *)
Definition rowCells (latStep lonStep : Q) (cols i row : nat) : list GridCell :=
  map (fun col => Grid.cellAt latStep lonStep (i + row * cols + col) row col)
    (seq 0 cols).

(** The first and the last cell of the grid. *)
Definition cell1 : GridCell := Grid.cellAt Grid.latStep Grid.lonStep 1 0 0.
Definition cell648 : GridCell := Grid.cellAt Grid.latStep Grid.lonStep 648 17 35.

(** The map component after one click on cell 1. *)
Definition afterFirstClick : MapComponent.State :=
  fst (MapComponent.selectCell cell1 MapComponent.initial).

(** The public methods of [MapComponent] and what a call does to its state;
    [None] stands for a thrown exception. *)
Inductive Call : Type :=
| CallSelectCell (cell : GridCell)
| CallResetSelection
| CallDisplayRoute (routingDataArray : option (list MapComponent.RoutingData)).

Definition perform (call : Call) (st : MapComponent.State)
    : option MapComponent.State :=
  match call with
  | CallSelectCell cell => Some (fst (MapComponent.selectCell cell st))
  | CallResetSelection => Some (MapComponent.resetSelection st)
  | CallDisplayRoute route => option_map fst (MapComponent.displayRoute route st)
  end.

(** The selection is [{source: null, destination: null}] in source mode. *)
Definition selectionCleared (st : MapComponent.State) : Prop :=
  MapComponent.selectedCoordinates st = mkSelected None None
  /\ MapComponent.selectionMode st = SourceMode.

(** A segment whose waypoint sequence is missing or empty. *)
Definition hasNoWaypoints (routingData : MapComponent.RoutingData) : bool :=
  match MapComponent.waypoints routingData with
  | None => true
  | Some [] => true
  | Some (_ :: _) => false
  end.

(** A route with nothing to draw: no array, an empty array, or only segments
    without waypoints. *)
Definition isEmptyRoute (routingDataArray : option (list MapComponent.RoutingData))
    : bool :=
  match routingDataArray with
  | None => true
  | Some segments => forallb hasNoWaypoints segments
  end.

(** A response none of whose members is present. *)
Definition absentResponse : WindyWeatherService.WindyApiResponse :=
  {| WindyWeatherService.ts := None;
     WindyWeatherService.resp_wind := None;
     WindyWeatherService.resp_temp := None;
     WindyWeatherService.resp_rh := None;
     WindyWeatherService.resp_pressure := None;
     WindyWeatherService.resp_gust := None |}.

(** Nothing drawn from [Math.random] yet, nothing on the console. *)
Definition freshWorld : World := {| cursor := 0; console := [] |}.

Definition serviceUnavailable : HttpError :=
  HttpFailure 503 "Service Unavailable".

(** A network on which every request fails. *)
Definition unreachable (_ : WindyWeatherService.Request)
    : Notification WindyWeatherService.WindyApiResponse :=
  Failed serviceUnavailable.

(** A service configured with a real key. *)
Definition keyedService
    (http : WindyWeatherService.Request
            -> Notification WindyWeatherService.WindyApiResponse)
    : WindyWeatherService.Service :=
  {| WindyWeatherService.apiKey := "k3y";
     WindyWeatherService.apiBaseUrl := "https://api.windy.com/api/point-forecast/v2";
     WindyWeatherService.http_get := http |}.

(** The simulator's sample at the current position of the stream. *)
Definition simulatedAt (random : nat -> R) (lat lon : R) (w : World)
    : WindyWeatherService.WindyWeatherData :=
  fst (WindyWeatherService.generateSimulatedWeatherData random lat lon w).

(** The request [getWeatherData] sends for a coordinate. *)
Definition requestOf (svc : WindyWeatherService.Service) (lat lon : R)
    : WindyWeatherService.Request :=
  {| WindyWeatherService.req_base := WindyWeatherService.apiBaseUrl svc;
     WindyWeatherService.req_lat := lat;
     WindyWeatherService.req_lon := lon;
     WindyWeatherService.req_key := WindyWeatherService.apiKey svc |}.

(** The respawn invariant of a particle: [0 <= age <= life]. *)
Definition alive (p : MapComponent.WindParticle) : Prop :=
  (0 <= INR (MapComponent.age p) <= MapComponent.life p)%R.

(** A particle as seeding and respawning leave it: age 0, life in
    [[100, 250)], brightness in [[0.5, 1)]. *)
Definition freshlySpawned (p : MapComponent.WindParticle) : Prop :=
  MapComponent.age p = 0%nat
  /\ (100 <= MapComponent.life p < 250)%R
  /\ (0.5 <= MapComponent.brightness p < 1)%R.

(** The map centred on latitude 0, longitude 0. *)
Definition equator : MapComponent.MapView :=
  {| MapComponent.center_lat := 0%R; MapComponent.center_lng := 0%R |}.

(** The component once [initializeMap] has run: the map and an empty route
    layer group exist. *)
Definition mountedState : MapComponent.State :=
  {| MapComponent.mapMode := WindyMode;
     MapComponent.currentWeatherLayer := LWind;
     MapComponent.leafletMap := Some equator;
     MapComponent.routeLayerGroup := Some [];
     MapComponent.selectedCoordinates := {| source := None; destination := None |};
     MapComponent.selectionMode := SourceMode;
     MapComponent.showingRoute := false;
     MapComponent.particleSystem := [];
     MapComponent.currentWeatherData := None |}.

(** The mounted component with a source marker left by an earlier route. *)
Definition routeShown : MapComponent.State :=
  MapComponent.setRouteLayers
    (Some [MapComponent.sourceMarker (85, -175)]) mountedState.

(** A segment that carries metadata but no waypoints. *)
Definition emptySegment : MapComponent.RoutingData :=
  {| MapComponent.resultCode := 0;
     MapComponent.resultText := "OK";
     MapComponent.totalDistance := 0;
     MapComponent.secaDistance := 0;
     MapComponent.waypoints := Some [];
     MapComponent.metadata := None;
     MapComponent.arrived_flag := false |}.

(** A segment of eight waypoints (k, 10 k). *)
Definition demoSegment : MapComponent.RoutingData :=
  {| MapComponent.resultCode := 0;
     MapComponent.resultText := "OK";
     MapComponent.totalDistance := 1200;
     MapComponent.secaDistance := 0;
     MapComponent.waypoints :=
       Some (map (fun k => MapComponent.mkWaypoint (QNum.ofNat k) (10 * QNum.ofNat k))
               (seq 0 8));
     MapComponent.metadata := None;
     MapComponent.arrived_flag := true |}.

(* ------------------------------------------------------------------ *)
(** ** MapComponent: the grid layer, the world map and the heat map *)

Module MapLayers.
Import MapComponent.

(** The component's own temperature palette (the heat map's). *)
Section HeatColours.
Context {T : Type} `{JsNumber T}.
Open Scope string_scope.
Open Scope js_scope.

Definition getTemperatureColor (temp : T) : string :=
  if temp <? lit 0 then "#0000FF"
  else if temp <? lit 10 then "#00BFFF"
  else if temp <? lit 20 then "#00FF00"
  else if temp <? lit 25 then "#FFFF00"
  else if temp <? lit 30 then "#FF8C00"
  else "#FF0000".
End HeatColours.

(** [L.rectangle(bounds, options)] with its click target. *)
Record Rectangle : Type := mkRectangle {
  bounds : Bounds;
  color : string;
  weight : Q;
  opacity : Q;
  fillColor : string;
  fillOpacity : Q;
  onClick : GridCell
}.

(** The numbered marker put at a cell's centre. *)
Record LabelMarker : Type := mkLabel {
  position : LatLng;
  label : nat;
  markerClick : GridCell
}.

(** The two layer groups besides the route's; [None] before
    [initializeMap]. *)
Record Groups : Type := mkGroups {
  gridLayerGroup : option (list (Rectangle * LabelMarker));
  weatherLayerGroup : option (list Rectangle)
}.

(** [[[latMin, lonMin], [latMax, lonMax]]] of a cell. *)
Definition cellBounds (cell : GridCell) : Bounds :=
  let latMin := (lat cell - Grid.latStep / 2)%Q in
  let latMax := (lat cell + Grid.latStep / 2)%Q in
  let lonMin := (lon cell - Grid.lonStep / 2)%Q in
  let lonMax := (lon cell + Grid.lonStep / 2)%Q in
  {| south := latMin; west := lonMin; north := latMax; east := lonMax |}.

(** What [addGridToMap] adds for one cell. *)
Definition gridLayersOf (cell : GridCell) : Rectangle * LabelMarker :=
  ({| bounds := cellBounds cell;
      color := "#667eea";
      weight := 1;
      opacity := 1 # 2;
      fillColor := "#667eea";
      fillOpacity := 1 # 10;
      onClick := cell |},
   {| position := (lat cell, lon cell); label := id cell; markerClick := cell |}).

(** [addGridToMap]: the grid layer group afterwards and the entries put in
    [gridMarkers] (key, marker), in order. *)
Definition addGridToMap (cells : list GridCell) (st : State) (groups : Groups)
    : Groups * list (nat * LabelMarker) :=
  match leafletMap st, gridLayerGroup groups with
  | Some _, Some layers =>
      ({| gridLayerGroup := Some (layers ++ map gridLayersOf cells);
          weatherLayerGroup := weatherLayerGroup groups |},
       map (fun cell => (id cell, snd (gridLayersOf cell))) cells)
  | _, _ => (groups, [])
  end.

(** The rectangle [showWorldMap] draws for a cell. *)
Definition worldRectangle (routeSource routeDest : option GridCell)
    (cell : GridCell) : Rectangle :=
  let isOnRoute := isCellOnRoute cell routeSource routeDest in
  {| bounds := cellBounds cell;
     color := if isOnRoute then "#FF6B6B" else "#4169E1";
     weight := if isOnRoute then 3 else 1;
     opacity := if isOnRoute then 1 else 1 # 2;
     fillColor := if isOnRoute then "#FF6B6B" else "#4169E1";
     fillOpacity := if isOnRoute then 1 # 2 else 1 # 10;
     onClick := cell |}.

Definition showWorldMap (cells : list GridCell) (st : State) (groups : Groups)
    : Groups :=
  match gridLayerGroup groups, weatherLayerGroup groups with
  | Some _, Some _ =>
      let selectedCoords := selectedCoordinates st in
      let routeSource := source selectedCoords in
      let routeDest := destination selectedCoords in
      {| gridLayerGroup := gridLayerGroup groups;
         weatherLayerGroup := Some (map (worldRectangle routeSource routeDest) cells) |}
  | _, _ => groups
  end.

(** A heat-map rectangle: the bounds, the border colour and the fill. *)
Record HeatRectangle : Type := mkHeat {
  heatBounds : Bounds;
  heatColor : string;
  heatFill : string;
  heatOnRoute : bool;
  heatClick : GridCell
}.

Section Heat.
Variable random : nat -> R.
Open Scope R_scope.

(** The callback of [addTemperatureHeatmap] on one cell. *)
Definition heatRectangle (routeSource routeDest : option GridCell)
    (cell : GridCell) : M HeatRectangle :=
  r <- WindyWeatherService.Math_random random ;;
  let temperature := 15 + cos (Q2R (lat cell) * PI / 180) * 20 + r * 10 in
  let color := getTemperatureColor temperature in
  let isOnRoute := isCellOnRoute cell routeSource routeDest in
  ret {| heatBounds := cellBounds cell;
         heatColor := if isOnRoute then "#FFD700"%string else color;
         heatFill := color;
         heatOnRoute := isOnRoute;
         heatClick := cell |}.

(** [addTemperatureHeatmap]: the rectangles added to the weather layer
    group, none when the group does not exist. *)
Definition addTemperatureHeatmap (cells : list GridCell) (st : State)
    (groups : Groups) : M (list HeatRectangle) :=
  match weatherLayerGroup groups with
  | None => ret []
  | Some _ =>
      let selectedCoords := selectedCoordinates st in
      mapM (heatRectangle (source selectedCoords) (destination selectedCoords)) cells
  end.
End Heat.
End MapLayers.

(* ------------------------------------------------------------------ *)
(** ** WindyWeatherService: the Beaufort scale and unit conversions *)

Module WindyWeatherUnits.
Open Scope Q_scope.

Record Beaufort : Type := mkBeaufort {
  scale : nat;
  name : string;
  description : string
}.

Definition scales : list Beaufort :=
  [ mkBeaufort 0 "Calm" "Smoke rises vertically";
    mkBeaufort 1 "Light Air" "Smoke drifts slightly";
    mkBeaufort 2 "Light Breeze" "Leaves rustle";
    mkBeaufort 3 "Gentle Breeze" "Leaves and twigs move";
    mkBeaufort 4 "Moderate Breeze" "Small branches move";
    mkBeaufort 5 "Fresh Breeze" "Small trees sway";
    mkBeaufort 6 "Strong Breeze" "Large branches move";
    mkBeaufort 7 "Gale" "Whole trees sway";
    mkBeaufort 8 "Strong Gale" "Twigs break from trees";
    mkBeaufort 9 "Storm" "Slight structural damage";
    mkBeaufort 10 "Violent Storm" "Trees uprooted";
    mkBeaufort 11 "Hurricane Force" "Widespread damage";
    mkBeaufort 12 "Hurricane Force" "Devastating damage" ].

(** Wind speed thresholds of the scale, in m/s. *)
Definition thresholds : list Q :=
  [0; 1; 2; 3; 5.5; 8; 10.8; 13.9; 17.2; 20.8; 24.4; 28.5; 32.7].

(** [thresholds[i] || 0] *)
Definition thresholdAt (i : nat) : Q :=
  match nth_error thresholds i with
  | Some t => if Qeq_bool t 0 then 0 else t
  | None => 0
  end.

(** [scales[i]] for an index inside the table. *)
Definition scaleAt (i : nat) : Beaufort :=
  nth i scales (mkBeaufort 0 "Calm" "Smoke rises vertically").

(** The loop [for (let i = ...; i >= 0; i--)] from index [i] down: the entry
    returned from inside the loop, if any. *)
Fixpoint scanDown (windSpeed : Q) (i : nat) : option Beaufort :=
  if QNum.geb windSpeed (thresholdAt i) then Some (scaleAt i)
  else match i with
       | O => None
       | S j => scanDown windSpeed j
       end.

Definition getBeaufortScale (windSpeed : Q) : Beaufort :=
  match scanDown windSpeed (List.length scales - 1) with
  | Some entry => entry
  | None => scaleAt 0
  end.

Definition msToKnots (ms : Q) : Q := ms * 1.94384.

Definition msToKmh (ms : Q) : Q := ms * 3.6.
End WindyWeatherUnits.

(* ------------------------------------------------------------------ *)
(** ** GridMapComponent: the instruction line *)

Module GridMapInstruction.
Import GridMapComponent.

Section WithNumberToString.
(** How a number prints inside a template literal. *)
Variable numberToString : Q -> string.

Definition getCurrentInstruction (st : State) : string :=
  let selected := selectedCoordinates st in
  match source selected with
  | None => "Click on source location"%string
  | Some src =>
      match destination selected with
      | None =>
          ("Source: (" ++ numberToString (lat src) ++ ", "
             ++ numberToString (lon src)
             ++ ") - Click on destination location")%string
      | Some _ => ""%string
      end
  end.
End WithNumberToString.
End GridMapInstruction.

(* ------------------------------------------------------------------ *)
(** ** RouteInputComponent *)

Module RouteInputComponent.

Record RouteInput : Type := mkRouteInput {
  ri_source : string;
  ri_destination : string
}.

(** The two signals of the component. *)
Record State : Type := mkState {
  source : string;
  destination : string
}.

Definition initial : State := {| source := ""; destination := "" |}.

Section WithWhiteSpace.
(** Whether a character counts as white space for [String.prototype.trim]. *)
Variable isWhiteSpace : Ascii.ascii -> bool.

Fixpoint trimStart (s : string) : string :=
  match s with
  | EmptyString => EmptyString
  | String c rest => if isWhiteSpace c then trimStart rest else s
  end.

Definition reverse (s : string) : string :=
  string_of_list_ascii (rev (list_ascii_of_string s)).

Definition trimEnd (s : string) : string := reverse (trimStart (reverse s)).

Definition trim (s : string) : string := trimEnd (trimStart s).

(** A string is truthy unless it is empty. *)
Definition truthy (s : string) : bool :=
  match s with
  | EmptyString => false
  | String _ _ => true
  end.

(** [submitRoute] returns the values passed to [routeSubmitted.emit]. *)
Definition submitRoute (st : State) : list RouteInput :=
  if truthy (trim (source st)) && truthy (trim (destination st)) then
    [{| ri_source := source st; ri_destination := destination st |}]
  else [].
End WithWhiteSpace.

Definition populateFromCoordinates (sourceName destName : string) (st : State)
    : State :=
  {| source := sourceName; destination := destName |}.

Definition clear (st : State) : State :=
  {| source := ""; destination := "" |}.

(** White space among the characters below 256: tab, line feed, vertical
    tab, form feed, carriage return, space and no-break space. *)
Definition latin1WhiteSpace (c : Ascii.ascii) : bool :=
  let n := Ascii.nat_of_ascii c in
  ((9 <=? n) && (n <=? 13))%nat || Nat.eqb n 32 || Nat.eqb n 160.
End RouteInputComponent.

(* ------------------------------------------------------------------ *)
(** ** Runs of calls *)

(** The public methods of [GridMapComponent]. *)
Inductive GridCall : Type :=
| GridSelectCell (cell : GridCell)
| GridResetSelection.

Definition gridPerform (call : GridCall) (st : GridMapComponent.State)
    : GridMapComponent.State * list SelectedCoordinates :=
  match call with
  | GridSelectCell cell => GridMapComponent.selectCell cell st
  | GridResetSelection => (GridMapComponent.resetSelection st, [])
  end.

(** A run of calls: the final state and everything emitted, in order. *)
Fixpoint gridRun (calls : list GridCall) (st : GridMapComponent.State)
    : GridMapComponent.State * list SelectedCoordinates :=
  match calls with
  | [] => (st, [])
  | call :: rest =>
      let r := gridPerform call st in
      let r' := gridRun rest (fst r) in
      (fst r', snd r ++ snd r')
  end.

(** Consecutive pairs of a list of clicked cells. *)
Fixpoint pairUp (cells : list GridCell) : list SelectedCoordinates :=
  match cells with
  | c1 :: c2 :: rest => mkSelected (Some c1) (Some c2) :: pairUp rest
  | _ => []
  end.

(** A run of calls on [MapComponent]; [None] once a call has thrown. *)
Fixpoint mapRun (calls : list Call) (st : MapComponent.State)
    : option MapComponent.State :=
  match calls with
  | [] => Some st
  | call :: rest =>
      match perform call st with
      | Some st1 => mapRun rest st1
      | None => None
      end
  end.

(** Successive clicks on the map: the final state and all effects. *)
Fixpoint mapClicks (cells : list GridCell) (st : MapComponent.State)
    : MapComponent.State * list MapComponent.Effect :=
  match cells with
  | [] => (st, [])
  | cell :: rest =>
      let r := MapComponent.selectCell cell st in
      let r' := mapClicks rest (fst r) in
      (fst r', snd r ++ snd r')
  end.

(** The [CoordinatesSelected] events among some effects. *)
Definition emitted (effects : list MapComponent.Effect) : list SelectedCoordinates :=
  flat_map (fun e => match e with
                     | MapComponent.Emit c => [c]
                     | MapComponent.UpdateMapVisualization _ => []
                     end) effects.

(* ------------------------------------------------------------------ *)
(** ** AppsContentComponent: from a selection to a drawn route *)

Module AppsContentComponent.
Open Scope Q_scope.

Record LocationData : Type := mkLocation {
  name : string;
  loc_lat : Q;
  loc_lon : Q
}.

(** The component's signals and its two view children ([None] while a child
    is not there). *)
Record State : Type := mkState {
  showWeatherTable : bool;
  selectedLocations : list LocationData;
  mapMode : MapMode;
  mapComponent : option MapComponent.State;
  routeInputComponent : option RouteInputComponent.State
}.

(** The waypoints of the canned route between its two ends. *)
Definition innerWaypoints : list MapComponent.Waypoint :=
  [
    MapComponent.mkWaypoint 4.960598 (-9.083805);
    MapComponent.mkWaypoint 4.983963 (-9.349902);
    MapComponent.mkWaypoint 7.637966 (-13.617811);
    MapComponent.mkWaypoint 10.075389 (-16.58219);
    MapComponent.mkWaypoint 10.530303 (-17.116978);
    MapComponent.mkWaypoint 10.788834 (-17.270271);
    MapComponent.mkWaypoint 14.760089 (-17.93297);
    MapComponent.mkWaypoint 21.839373 (-17.905676);
    MapComponent.mkWaypoint 27.694624 (-15.18922);
    MapComponent.mkWaypoint 28.254229 (-14.958293);
    MapComponent.mkWaypoint 35.719695 (-12.369281);
    MapComponent.mkWaypoint 43.185162 (-9.78027);
    MapComponent.mkWaypoint 48.644707 (-5.710487);
    MapComponent.mkWaypoint 48.773865 (-5.607274);
    MapComponent.mkWaypoint 49.861698 (-2.967768);
    MapComponent.mkWaypoint 50.564552 0.813471;
    MapComponent.mkWaypoint 50.730366 1.15082;
    MapComponent.mkWaypoint 50.875961 1.26832;
    MapComponent.mkWaypoint 51.118313 1.828752;
    MapComponent.mkWaypoint 51.373802 2.503295;
    MapComponent.mkWaypoint 51.369904 2.74375;
    MapComponent.mkWaypoint 51.38887 3.146918;
    MapComponent.mkWaypoint 51.412243 3.232663;
    MapComponent.mkWaypoint 51.408882 3.385849;
    MapComponent.mkWaypoint 51.417088 3.51702;
    MapComponent.mkWaypoint 51.406849 3.563883;
    MapComponent.mkWaypoint 51.43214 3.617764;
    MapComponent.mkWaypoint 51.443562 3.666794;
    MapComponent.mkWaypoint 51.415348 3.708766;
    MapComponent.mkWaypoint 51.372047 3.722498;
    MapComponent.mkWaypoint 51.348736 3.803158;
    MapComponent.mkWaypoint 51.343281 3.858948;
    MapComponent.mkWaypoint 51.381176 3.951613;
    MapComponent.mkWaypoint 51.425972 3.971;
    MapComponent.mkWaypoint 51.436588 3.980902;
    MapComponent.mkWaypoint 51.437878 3.997221;
    MapComponent.mkWaypoint 51.431892 4.011297;
    MapComponent.mkWaypoint 51.401314 4.034235;
    MapComponent.mkWaypoint 51.385376 4.043183;
    MapComponent.mkWaypoint 51.371914 4.058847;
    MapComponent.mkWaypoint 51.368511 4.105775;
    MapComponent.mkWaypoint 51.370174 4.142039;
    MapComponent.mkWaypoint 51.397694 4.189589;
    MapComponent.mkWaypoint 51.395592 4.205682;
    MapComponent.mkWaypoint 51.361317 4.222226;
    MapComponent.mkWaypoint 51.333038 4.268489;
    MapComponent.mkWaypoint 51.302448 4.280849;
    MapComponent.mkWaypoint 51.285164 4.320524
  ].

(** The array both handlers build: one segment from [first] through the
    canned waypoints to [last]. *)
Definition cannedRoute (first last : MapComponent.Waypoint)
    : list MapComponent.RoutingData :=
  [ {| MapComponent.resultCode := 1;
       MapComponent.resultText := "Success";
       MapComponent.totalDistance := 3437.611;
       MapComponent.secaDistance := 409.495;
       MapComponent.waypoints := Some ([first] ++ innerWaypoints ++ [last]);
       MapComponent.metadata := Some ""%string;
       MapComponent.arrived_flag := false |} ].

(** What a handler leaves behind: the new state and the array its timer
    will hand to the map, if any. *)
Definition Outcome : Type := (State * option (list MapComponent.RoutingData))%type.

(** The private [displayRoute(coords)]: the array to draw after 100 ms. *)
Definition displayRoute (coords : SelectedCoordinates)
    : option (list MapComponent.RoutingData) :=
  match source coords, destination coords with
  | Some src, Some dst =>
      Some (cannedRoute (MapComponent.mkWaypoint (lat src) (lon src))
              (MapComponent.mkWaypoint (lat dst) (lon dst)))
  | _, _ => None
  end.

Section WithNumberToString.
(** How a number prints inside a template literal. *)
Variable numberToString : Q -> string.

Definition cellName (cell : GridCell) : string :=
  ("Cell " ++ numberToString (QNum.ofNat (id cell)))%string.

Definition cellLabel (cell : GridCell) : string :=
  ("Cell " ++ numberToString (QNum.ofNat (id cell)) ++ " ("
     ++ numberToString (lat cell) ++ ", " ++ numberToString (lon cell) ++ ")")%string.

Definition onCoordinatesSelected (coords : SelectedCoordinates) (st : State)
    : Outcome :=
  match source coords, destination coords with
  | Some src, Some dst =>
      let locations :=
        [ {| name := cellName src; loc_lat := lat src; loc_lon := lon src |};
          {| name := cellName dst; loc_lat := lat dst; loc_lon := lon dst |} ] in
      let input :=
        match routeInputComponent st with
        | Some child =>
            Some (RouteInputComponent.populateFromCoordinates
                    (cellLabel src) (cellLabel dst) child)
        | None => None
        end in
      ({| showWeatherTable := true;
          selectedLocations := locations;
          mapMode := mapMode st;
          mapComponent := mapComponent st;
          routeInputComponent := input |},
       displayRoute coords)
  | _, _ => (st, None)
  end.
End WithNumberToString.

Definition onRouteSubmitted (routeInput : RouteInputComponent.RouteInput)
    (st : State) : Outcome :=
  let demoSourceCoords := MapComponent.mkWaypoint (-5) (-50) in
  let demoDestCoords := MapComponent.mkWaypoint 52 4 in
  let locations :=
    [ {| name := RouteInputComponent.ri_source routeInput;
         loc_lat := MapComponent.wp_lat demoSourceCoords;
         loc_lon := MapComponent.wp_lon demoSourceCoords |};
      {| name := RouteInputComponent.ri_destination routeInput;
         loc_lat := MapComponent.wp_lat demoDestCoords;
         loc_lon := MapComponent.wp_lon demoDestCoords |} ] in
  ({| showWeatherTable := true;
      selectedLocations := locations;
      mapMode := mapMode st;
      mapComponent := mapComponent st;
      routeInputComponent := routeInputComponent st |},
   Some (cannedRoute demoSourceCoords demoDestCoords)).

(** The timer callback: draw the array on the map child if it is there;
    [None] stands for a thrown exception. *)
Definition onTimer (routingDataArray : list MapComponent.RoutingData) (st : State)
    : option (State * list MapComponent.LeafletCall) :=
  match mapComponent st with
  | Some child =>
      match MapComponent.displayRoute (Some routingDataArray) child with
      | Some (child', calls) =>
          Some ({| showWeatherTable := showWeatherTable st;
                   selectedLocations := selectedLocations st;
                   mapMode := mapMode st;
                   mapComponent := Some child';
                   routeInputComponent := routeInputComponent st |}, calls)
      | None => None
      end
  | None => Some (st, [])
  end.

Definition onMapModeChanged (mode : MapMode) (st : State) : State :=
  {| showWeatherTable := showWeatherTable st;
     selectedLocations := selectedLocations st;
     mapMode := mode;
     mapComponent := mapComponent st;
     routeInputComponent := routeInputComponent st |}.
End AppsContentComponent.

(** The invariant [GridMapComponent] keeps: no destination is ever stored,
    and the mode tells whether a source is. *)
Definition gridInvariant (st : GridMapComponent.State) : Prop :=
  destination (GridMapComponent.selectedCoordinates st) = None
  /\ (GridMapComponent.selectionMode st = SourceMode
      <-> source (GridMapComponent.selectedCoordinates st) = None).


(** The decimal digits of the integer part of a number; on whole numbers this
    is how a template literal prints them ([85], [-175]). *)
Definition printWhole (q : Q) : string :=
  NilZero.string_of_int (Z.to_int (Qfloor q)).
(** A string made of white space only (the empty string included). *)
Definition blank (isWhiteSpace : Ascii.ascii -> bool) (s : string) : bool :=
  forallb isWhiteSpace (list_ascii_of_string s).

(** What [MapComponent] keeps true of its selection: in destination mode a
    source is stored. *)
Definition mapInvariant (st : MapComponent.State) : Prop :=
  MapComponent.selectionMode st = DestinationMode ->
  source (MapComponent.selectedCoordinates st) <> None.

(** A point lies inside a bounds rectangle. *)
Definition inBounds (b : MapComponent.Bounds) (p : MapComponent.LatLng) : Prop :=
  (MapComponent.south b <= fst p <= MapComponent.north b
   /\ MapComponent.west b <= snd p <= MapComponent.east b)%Q.

(** The first rectangle lies inside the second. *)
Definition insideBounds (b b' : MapComponent.Bounds) : Prop :=
  (MapComponent.south b' <= MapComponent.south b
   /\ MapComponent.north b <= MapComponent.north b'
   /\ MapComponent.west b' <= MapComponent.west b
   /\ MapComponent.east b <= MapComponent.east b')%Q.

Definition latLngOf (wp : MapComponent.Waypoint) : MapComponent.LatLng :=
  (MapComponent.wp_lat wp, MapComponent.wp_lon wp).

(** The layers put on the map by some Leaflet calls, in order. *)
Definition added (calls : list MapComponent.LeafletCall) : list MapComponent.Layer :=
  flat_map (fun c => match c with
                     | MapComponent.AddTo l => [l]
                     | _ => []
                     end) calls.

(** The calls [displayRoute] makes for [demoSegment] on the mounted map. *)
Definition demoCalls : list MapComponent.LeafletCall :=
  match MapComponent.displayRoute (Some [demoSegment]) mountedState with
  | Some r => snd r
  | None => []
  end.

(** The layers drawn for an empty segment followed by [demoSegment]. *)
Definition headlessLayers : list MapComponent.Layer :=
  match MapComponent.forEachSegment 2 0 [emptySegment; demoSegment] with
  | Some layers => layers
  | None => []
  end.

(** The whole world as a bounds rectangle. *)
Definition worldBounds : MapComponent.Bounds :=
  {| MapComponent.south := -90; MapComponent.west := -180;
     MapComponent.north := 90; MapComponent.east := 180 |}.

(** Layer groups as [initializeMap] creates them. *)
Definition emptyGroups : MapLayers.Groups :=
  {| MapLayers.gridLayerGroup := Some []; MapLayers.weatherLayerGroup := Some [] |}.

(** A response whose temperature reading is exactly 0. *)
Definition freezingResponse : WindyWeatherService.WindyApiResponse :=
  {| WindyWeatherService.ts := None;
     WindyWeatherService.resp_wind := Some [[3; 4]%R];
     WindyWeatherService.resp_temp := Some [[0%R]];
     WindyWeatherService.resp_rh := Some [[80%R]];
     WindyWeatherService.resp_pressure := Some [[101000%R]];
     WindyWeatherService.resp_gust := None |}.

(** The mounted component with the CAPE layer active. *)
Definition capeState : MapComponent.State :=
  {| MapComponent.mapMode := WindyMode;
     MapComponent.currentWeatherLayer := LCape;
     MapComponent.leafletMap := Some equator;
     MapComponent.routeLayerGroup := Some [];
     MapComponent.selectedCoordinates := {| source := None; destination := None |};
     MapComponent.selectionMode := SourceMode;
     MapComponent.showingRoute := false;
     MapComponent.particleSystem := [];
     MapComponent.currentWeatherData := None |}.

(** A particle's life and brightness are as seeding and respawning set
    them. *)
Definition seeded (p : MapComponent.WindParticle) : Prop :=
  (100 <= MapComponent.life p < 250)%R
  /\ (0.5 <= MapComponent.brightness p < 1)%R.

(** A particle is within 50 pixels of the canvas. *)
Definition withinMargin (canvas : MapComponent.Canvas)
    (p : MapComponent.WindParticle) : Prop :=
  (-50 <= MapComponent.x p <= INR (MapComponent.width canvas) + 50)%R
  /\ (-50 <= MapComponent.y p <= INR (MapComponent.height canvas) + 50)%R.

(** A particle one frame old, with a life of 120 frames. *)
Definition youngParticle : MapComponent.WindParticle :=
  {| MapComponent.x := 10; MapComponent.y := 20;
     MapComponent.vx := 1; MapComponent.vy := 0;
     MapComponent.age := 1; MapComponent.life := 120;
     MapComponent.brightness := 0.75 |}.

(** The page with both view children present and nothing selected yet. *)
Definition appsWith (child : MapComponent.State) : AppsContentComponent.State :=
  {| AppsContentComponent.showWeatherTable := false;
     AppsContentComponent.selectedLocations := [];
     AppsContentComponent.mapMode := WindyMode;
     AppsContentComponent.mapComponent := Some child;
     AppsContentComponent.routeInputComponent := Some RouteInputComponent.initial |}.

(* ================================================================== *)
(** * Properties *)

(** ** Counted loops and row-major lists *)

Lemma for_loop_S {S : Type} (n : nat) (body : nat -> S -> S) (s : S) :
  for_loop (Datatypes.S n) body s = body n (for_loop n body s).
Proof.
  unfold for_loop. rewrite seq_S, fold_left_app. reflexivity.
Qed.

Lemma map_offset_seq (i s n : nat) :
  map (fun c => (i + c)%nat) (seq s n) = seq (i + s) n.
Proof.
  revert s. induction n as [|n IH]; intros s; simpl; [reflexivity|].
  f_equal. rewrite IH. f_equal. lia.
Qed.

Section RowMajor.
Context {A : Type} (f : nat -> list A) (cols : nat).
Hypothesis row_length : forall r, List.length (f r) = cols.

Lemma rows_length (rows : nat) :
  List.length (flat_map f (seq 0 rows)) = (rows * cols)%nat.
Proof.
  induction rows as [|rows IH]; [reflexivity|].
  rewrite seq_S, flat_map_app, length_app, IH. simpl.
  rewrite length_app, row_length. simpl. lia.
Qed.

Lemma rows_nth_error (rows r c : nat) :
  (r < rows)%nat -> (c < cols)%nat ->
  nth_error (flat_map f (seq 0 rows)) (r * cols + c) = nth_error (f r) c.
Proof.
  induction rows as [|rows IH]; intros Hr Hc; [lia|].
  rewrite seq_S, flat_map_app. simpl. rewrite app_nil_r.
  destruct (Nat.eq_dec r rows) as [->|Hne].
  - rewrite nth_error_app2 by (rewrite rows_length; lia).
    rewrite rows_length. f_equal. lia.
  - rewrite nth_error_app1 by (rewrite rows_length; nia).
    apply IH; lia.
Qed.
End RowMajor.

(** ** Grid generation *)

Lemma inner_loop_cells (ls lo : Q) (row cols : nat) (cells : list GridCell) (i : nat) :
  for_loop cols (fun col => Grid.pushCell ls lo row col) (cells, i)
  = (cells ++ map (fun col => Grid.cellAt ls lo (i + col) row col) (seq 0 cols),
     (i + cols)%nat).
Proof.
  induction cols as [|cols IH].
  - unfold for_loop. simpl. rewrite app_nil_r, Nat.add_0_r. reflexivity.
  - rewrite for_loop_S, IH. unfold Grid.pushCell.
    rewrite seq_S, map_app, app_assoc. simpl. f_equal. lia.
Qed.

Lemma outer_loop_cells (ls lo : Q) (rows cols : nat) (cells : list GridCell) (i : nat) :
  for_loop rows
    (fun row => for_loop cols (fun col => Grid.pushCell ls lo row col)) (cells, i)
  = (cells ++ flat_map (rowCells ls lo cols i) (seq 0 rows), (i + rows * cols)%nat).
Proof.
  induction rows as [|rows IH].
  - unfold for_loop. simpl. rewrite app_nil_r, Nat.add_0_r. reflexivity.
  - rewrite for_loop_S, IH, inner_loop_cells.
    rewrite seq_S, flat_map_app. simpl. rewrite app_nil_r, app_assoc.
    f_equal. lia.
Qed.

Lemma generateGridWith_rows (rows cols : nat) (ls lo : Q) :
  Grid.generateGridWith rows cols ls lo
  = flat_map (rowCells ls lo cols 1) (seq 0 rows).
Proof.
  unfold Grid.generateGridWith. rewrite outer_loop_cells. reflexivity.
Qed.

Lemma rowCells_length (ls lo : Q) (cols i r : nat) :
  List.length (rowCells ls lo cols i r) = cols.
Proof. unfold rowCells. rewrite length_map, length_seq. reflexivity. Qed.

Lemma rowCells_ids (ls lo : Q) (cols i r : nat) :
  map id (rowCells ls lo cols i r) = seq (i + r * cols) cols.
Proof.
  unfold rowCells. rewrite map_map. simpl.
  rewrite (map_offset_seq (i + r * cols) 0 cols). f_equal. lia.
Qed.

Lemma generateGridWith_ids (rows cols : nat) (ls lo : Q) :
  map id (Grid.generateGridWith rows cols ls lo) = seq 1 (rows * cols).
Proof.
  rewrite generateGridWith_rows.
  induction rows as [|rows IH]; [reflexivity|].
  rewrite seq_S, flat_map_app, map_app, IH. simpl.
  rewrite app_nil_r, rowCells_ids.
  replace (cols + rows * cols)%nat with (rows * cols + cols)%nat by lia.
  rewrite seq_app. reflexivity.
Qed.

Lemma generateGridWith_nth (rows cols : nat) (ls lo : Q) (r c : nat) :
  (r < rows)%nat -> (c < cols)%nat ->
  nth_error (Grid.generateGridWith rows cols ls lo) (r * cols + c)
  = Some (Grid.cellAt ls lo (S (r * cols + c)) r c).
Proof.
  intros Hr Hc. rewrite generateGridWith_rows.
  rewrite (rows_nth_error _ (rowCells_length ls lo cols 1) Hr Hc).
  unfold rowCells.
  rewrite nth_error_map, nth_error_seq.
  destruct (Nat.ltb_spec c cols); [|lia]. simpl. reflexivity.
Qed.

Lemma Math_round_integer (q : Q) (z : Z) :
  q == inject_Z z -> QNum.Math_round q == inject_Z z.
Proof.
  intros Hq. unfold QNum.Math_round.
  assert (Hfloor : Qfloor (q + (1 # 2)) = z).
  { rewrite Hq. unfold Qfloor, Qplus, inject_Z. simpl.
    symmetry. apply Z.div_unique with (r := 1%Z); lia. }
  rewrite Hfloor. reflexivity.
Qed.

(** A number with at most two decimals is left unchanged by
    [Math.round(v * 100) / 100]. *)
Lemma round2_integer (q : Q) (z : Z) :
  q == inject_Z z -> QNum.Math_round (q * 100) / 100 == inject_Z z.
Proof.
  intros Hq.
  rewrite (@Math_round_integer (q * 100) (z * 100)).
  - rewrite inject_Z_mult. field.
  - rewrite Hq, inject_Z_mult. reflexivity.
Qed.

Lemma cellAt_lat (i r c : nat) :
  lat (Grid.cellAt Grid.latStep Grid.lonStep i r c)
  == inject_Z (85 - 10 * Z.of_nat r).
Proof.
  unfold Grid.cellAt, Grid.latStep, QNum.ofNat. simpl lat.
  apply round2_integer.
  unfold Zminus. rewrite inject_Z_plus, inject_Z_opp, inject_Z_mult. field.
Qed.

Lemma cellAt_lon (i r c : nat) :
  lon (Grid.cellAt Grid.latStep Grid.lonStep i r c)
  == inject_Z (-175 + 10 * Z.of_nat c).
Proof.
  unfold Grid.cellAt, Grid.lonStep, QNum.ofNat. simpl lon.
  apply round2_integer.
  rewrite inject_Z_plus, inject_Z_mult. field.
Qed.

(** C1.  [generateGrid] is a closed term (no input, no state read), so it
    always returns the same list: 648 cells, ids 1, 2, ..., 648 in order (hence
    unique), the cell of row [r] and column [c] at position [r * 36 + c]
    (row-major) with latitude centre [85 - 10 r] and longitude centre
    [-175 + 10 c], each centre being a fixed point of rounding to two
    decimals. *)
Theorem generateGrid_cells :
  List.length Grid.generateGrid = 648%nat
  /\ map id Grid.generateGrid = seq 1 648
  /\ NoDup (map id Grid.generateGrid)
  /\ forall r c : nat, (r < 18)%nat -> (c < 36)%nat ->
       exists cell : GridCell,
         nth_error Grid.generateGrid (r * 36 + c) = Some cell
         /\ id cell = S (r * 36 + c) /\ row cell = r /\ col cell = c
         /\ lat cell == inject_Z (85 - 10 * Z.of_nat r)
         /\ lon cell == inject_Z (-175 + 10 * Z.of_nat c)
         /\ QNum.Math_round (lat cell * 100) / 100 == lat cell
         /\ QNum.Math_round (lon cell * 100) / 100 == lon cell.
Proof.
  assert (Hids : map id Grid.generateGrid = seq 1 648).
  { unfold Grid.generateGrid. rewrite generateGridWith_ids. reflexivity. }
  split; [|split; [exact Hids|split]].
  - rewrite <- (length_map id), Hids, length_seq. reflexivity.
  - rewrite Hids. apply seq_NoDup.
  - intros r c Hr Hc.
    exists (Grid.cellAt Grid.latStep Grid.lonStep (S (r * 36 + c)) r c).
    split.
    { unfold Grid.generateGrid. apply generateGridWith_nth; assumption. }
    repeat split; try reflexivity.
    + apply cellAt_lat.
    + apply cellAt_lon.
    + rewrite cellAt_lat at 2. apply round2_integer, cellAt_lat.
    + rewrite cellAt_lon at 2. apply round2_integer, cellAt_lon.
Qed.

Lemma generateGrid_cells_witness :
  exists cell : GridCell,
    nth_error Grid.generateGrid (17 * 36 + 35) = Some cell
    /\ id cell = 648%nat /\ row cell = 17%nat /\ col cell = 35%nat
    /\ lat cell == -85 /\ lon cell == 175
    /\ QNum.Math_round (lat cell * 100) / 100 == lat cell
    /\ QNum.Math_round (lon cell * 100) / 100 == lon cell.
Proof.
  exact (proj2 (proj2 (proj2 generateGrid_cells)) 17%nat 35%nat
           ltac:(lia) ltac:(lia)).
Defined.

(** ** Selection: the grid-only policy *)

(** C2.  In [GridMapComponent], from the initial state the first click stores
    the cell as source, emits nothing and moves to destination mode; the second
    click emits exactly one event carrying both cells and leaves the component
    back in the initial state. *)
Theorem gridOnly_two_clicks (c1 c2 : GridCell) :
  let first := GridMapComponent.selectCell c1 GridMapComponent.initial in
  let second := GridMapComponent.selectCell c2 (fst first) in
  GridMapComponent.initial
    = GridMapComponent.mkState (mkSelected None None) SourceMode
  /\ fst first = GridMapComponent.mkState (mkSelected (Some c1) None) DestinationMode
  /\ snd first = []
  /\ snd second = [mkSelected (Some c1) (Some c2)]
  /\ fst second = GridMapComponent.mkState (mkSelected None None) SourceMode.
Proof.
  cbv zeta. repeat split.
Qed.

(** ** Selection: the map-embedded policy *)

Lemma displayRoute_keeps_selection
    (route : option (list MapComponent.RoutingData))
    (st st' : MapComponent.State) (calls : list MapComponent.LeafletCall) :
  MapComponent.displayRoute route st = Some (st', calls) ->
  MapComponent.selectedCoordinates st' = MapComponent.selectedCoordinates st
  /\ MapComponent.selectionMode st' = MapComponent.selectionMode st.
Proof.
  unfold MapComponent.displayRoute.
  destruct (MapComponent.leafletMap st);
    [destruct (MapComponent.routeLayerGroup st)|];
    try (intros [= <- _]; split; reflexivity).
  destruct route as [[|rd rest]|];
    try (intros [= <- _]; split; reflexivity).
  destruct (MapComponent.forEachSegment _ _ _);
    [intros [= <- _]; split; reflexivity | discriminate].
Qed.

(** C3.  In [MapComponent], a click in destination mode stores the cell as
    destination next to the source already chosen, emits that pair once and
    keeps it (the mode stays [DestinationMode], the route is flagged as
    shown); no click ever empties the selection; [resetSelection] does, and
    goes back to source mode; and it is the only public method that takes the
    component from another selection state to the cleared one. *)
Theorem mapEmbedded_selection_retained :
  (forall (st : MapComponent.State) (cell : GridCell),
      MapComponent.selectionMode st = DestinationMode ->
      let st' := fst (MapComponent.selectCell cell st) in
      let picked :=
        mkSelected (source (MapComponent.selectedCoordinates st)) (Some cell) in
      MapComponent.selectedCoordinates st' = picked
      /\ snd (MapComponent.selectCell cell st)
         = [MapComponent.Emit picked;
            MapComponent.UpdateMapVisualization (MapComponent.mapMode st)]
      /\ MapComponent.selectionMode st' = DestinationMode
      /\ MapComponent.showingRoute st' = true)
  /\ (forall (st : MapComponent.State) (cell : GridCell),
         MapComponent.selectedCoordinates (fst (MapComponent.selectCell cell st))
         <> mkSelected None None)
  /\ (forall st : MapComponent.State,
         let st' := MapComponent.resetSelection st in
         MapComponent.selectedCoordinates st' = mkSelected None None
         /\ MapComponent.selectionMode st' = SourceMode
         /\ MapComponent.showingRoute st' = false)
  /\ (forall (call : Call) (st st' : MapComponent.State),
         perform call st = Some st' ->
         ~ selectionCleared st -> selectionCleared st' ->
         call = CallResetSelection).
Proof.
  assert (Hclick : forall (st : MapComponent.State) (cell : GridCell),
             MapComponent.selectedCoordinates (fst (MapComponent.selectCell cell st))
             <> mkSelected None None).
  { intros st cell. unfold MapComponent.selectCell.
    destruct (MapComponent.selectionMode st); cbn; discriminate. }
  split; [|split; [exact Hclick|split]].
  - intros st cell Hmode. unfold MapComponent.selectCell.
    rewrite Hmode. cbn. repeat split.
  - intros st. unfold MapComponent.resetSelection.
    destruct (MapComponent.routeLayerGroup _); cbn; repeat split.
  - intros [cell| |route] st st' Hcall Hbefore [Hsel Hmode]; [|reflexivity|].
    + injection Hcall as <-. exfalso. exact (Hclick st cell Hsel).
    + unfold perform in Hcall.
      destruct (MapComponent.displayRoute route st) as [[st1 calls]|] eqn:Hroute;
        [|discriminate].
      injection Hcall as <-.
      destruct (displayRoute_keeps_selection _ _ Hroute) as [Hs Hm].
      exfalso. apply Hbefore. split; congruence.
Qed.

Lemma mapEmbedded_selection_retained_witness :
  let st' := fst (MapComponent.selectCell cell648 afterFirstClick) in
  MapComponent.selectedCoordinates st' = mkSelected (Some cell1) (Some cell648)
  /\ snd (MapComponent.selectCell cell648 afterFirstClick)
     = [MapComponent.Emit (mkSelected (Some cell1) (Some cell648));
        MapComponent.UpdateMapVisualization WindyMode]
  /\ MapComponent.selectionMode st' = DestinationMode
  /\ MapComponent.showingRoute st' = true.
Proof.
  exact (proj1 mapEmbedded_selection_retained afterFirstClick cell648 eq_refl).
Defined.

(** ** The on-route test *)

Lemma QNum_leb_iff (a b : Q) : QNum.leb a b = true <-> a <= b.
Proof. unfold QNum.leb. apply Qle_bool_iff. Qed.

Lemma QNum_geb_iff (a b : Q) : QNum.geb a b = true <-> b <= a.
Proof. unfold QNum.geb. apply Qle_bool_iff. Qed.

Lemma QNum_ltb_spec (a b : Q) : BoolSpec (a < b) (b <= a) (QNum.ltb a b).
Proof.
  unfold QNum.ltb. destruct (Qle_bool b a) eqn:E; simpl; constructor.
  - apply Qle_bool_iff. exact E.
  - apply Qnot_le_lt. intros Hle. apply Qle_bool_iff in Hle. congruence.
Qed.

(** C9.  With both endpoints set, a cell is on-route exactly when its latitude
    and its longitude lie in the closed intervals spanned by the endpoints'
    latitudes and longitudes; with an endpoint unset, no cell is on-route. *)
Theorem isCellOnRoute_rectangle :
  (forall cell s d : GridCell,
      MapComponent.isCellOnRoute cell (Some s) (Some d) = true
      <-> (Qmin (lat s) (lat d) <= lat cell <= Qmax (lat s) (lat d)
           /\ Qmin (lon s) (lon d) <= lon cell <= Qmax (lon s) (lon d)))
  /\ (forall (cell : GridCell) (o : option GridCell),
         MapComponent.isCellOnRoute cell None o = false
         /\ MapComponent.isCellOnRoute cell o None = false).
Proof.
  split.
  - intros cell s d. unfold MapComponent.isCellOnRoute, QNum.Math_min, QNum.Math_max.
    rewrite !andb_true_iff, !QNum_leb_iff, !QNum_geb_iff. tauto.
  - intros cell [o|]; split; reflexivity.
Qed.

(** Cell 1 at (85, -175) and cell 648 at (-85, 175) span the whole grid:
    the cell of row 9, column 18 is on the route between them. *)
Lemma isCellOnRoute_rectangle_witness :
  MapComponent.isCellOnRoute
    (Grid.cellAt Grid.latStep Grid.lonStep 343 9 18) (Some cell1) (Some cell648)
  = true.
Proof.
  apply (proj1 isCellOnRoute_rectangle). vm_compute.
  repeat split; discriminate.
Defined.

(** ** Wind-speed colours *)

Lemma getWindSpeedColor_cases (s : Q) :
  (s < 2 /\ getWindSpeedColor s = "#0066CC"%string)
  \/ (2 <= s /\ s < 5 /\ getWindSpeedColor s = "#00CCFF"%string)
  \/ (5 <= s /\ s < 10 /\ getWindSpeedColor s = "#00FF00"%string)
  \/ (10 <= s /\ s < 15 /\ getWindSpeedColor s = "#FFFF00"%string)
  \/ (15 <= s /\ s < 20 /\ getWindSpeedColor s = "#FF8800"%string)
  \/ (20 <= s /\ s < 25 /\ getWindSpeedColor s = "#FF4400"%string)
  \/ (25 <= s /\ getWindSpeedColor s = "#FF0000"%string).
Proof.
  unfold getWindSpeedColor. cbn [js_lt lit JsNumber_Q].
  destruct (QNum_ltb_spec s (inject_Z 2)); [tauto|].
  destruct (QNum_ltb_spec s (inject_Z 5)); [tauto|].
  destruct (QNum_ltb_spec s (inject_Z 10)); [tauto|].
  destruct (QNum_ltb_spec s (inject_Z 15)); [tauto|].
  destruct (QNum_ltb_spec s (inject_Z 20)); [tauto|].
  destruct (QNum_ltb_spec s (inject_Z 25)); tauto.
Qed.

Ltac bucket_cases s :=
  let H := fresh "Hcase" in
  destruct (getWindSpeedColor_cases s)
    as [H|[H|[H|[H|[H|[H|H]]]]]];
  decompose [and] H; clear H.

(** C6.  [getWindSpeedColor] is a step function with steps at 2, 5, 10, 15,
    20 and 25: below 2 it is deep blue, from 25 on red, and each boundary value
    belongs to the bucket above it; a larger speed never falls in an earlier
    bucket of the palette. *)
Theorem getWindSpeedColor_steps :
  getWindSpeedColor (1 : Q) = "#0066CC"%string
  /\ getWindSpeedColor (30 : Q) = "#FF0000"%string
  /\ getWindSpeedColor (2 : Q) = "#00CCFF"%string
  /\ getWindSpeedColor (5 : Q) = "#00FF00"%string
  /\ getWindSpeedColor (10 : Q) = "#FFFF00"%string
  /\ getWindSpeedColor (15 : Q) = "#FF8800"%string
  /\ getWindSpeedColor (20 : Q) = "#FF4400"%string
  /\ getWindSpeedColor (25 : Q) = "#FF0000"%string
  /\ (forall s : Q,
        (s < 2 -> getWindSpeedColor s = "#0066CC"%string)
        /\ (2 <= s -> s < 5 -> getWindSpeedColor s = "#00CCFF"%string)
        /\ (5 <= s -> s < 10 -> getWindSpeedColor s = "#00FF00"%string)
        /\ (10 <= s -> s < 15 -> getWindSpeedColor s = "#FFFF00"%string)
        /\ (15 <= s -> s < 20 -> getWindSpeedColor s = "#FF8800"%string)
        /\ (20 <= s -> s < 25 -> getWindSpeedColor s = "#FF4400"%string)
        /\ (25 <= s -> getWindSpeedColor s = "#FF0000"%string))
  /\ (forall s1 s2 : Q,
        s1 <= s2 ->
        (windBucket (getWindSpeedColor s1) <= windBucket (getWindSpeedColor s2))%nat).
Proof.
  repeat (split; [reflexivity|]).
  split.
  - intros s. bucket_cases s; repeat split; intros;
      solve [assumption | exfalso; Lqa.lra].
  - intros s1 s2 Hle.
    bucket_cases s1; bucket_cases s2;
      repeat match goal with E : getWindSpeedColor _ = _ |- _ => rewrite E; clear E end;
      solve [vm_compute; lia | exfalso; Lqa.lra].
Qed.

Lemma getWindSpeedColor_steps_witness :
  (windBucket (getWindSpeedColor (7 # 2)) <= windBucket (getWindSpeedColor (12 : Q)))%nat.
Proof.
  apply (proj2 (proj2 (proj2 (proj2 (proj2 (proj2 (proj2 (proj2 (proj2
           getWindSpeedColor_steps))))))))).
  vm_compute. discriminate.
Defined.

(** ** Route rendering *)

(** The fuel given to the marker loop is never used up: more fuel changes
    nothing. *)
Lemma intermediateMarkers_fuel (coordinates : list MapComponent.LatLng) :
  forall fuel i extra : nat,
    (List.length coordinates <= fuel + i)%nat ->
    MapComponent.intermediateMarkers (fuel + extra) i coordinates
    = MapComponent.intermediateMarkers fuel i coordinates.
Proof.
  induction fuel as [|fuel IH]; intros i extra Hlen.
  - destruct extra as [|extra]; [reflexivity|]. simpl.
    destruct (Nat.ltb_spec i (List.length coordinates - 1)); [lia | reflexivity].
  - simpl.
    destruct (Nat.ltb_spec i (List.length coordinates - 1)); [|reflexivity].
    destruct (nth_error coordinates i); [|reflexivity].
    rewrite IH by lia. reflexivity.
Qed.

(** One segment of eight waypoints: both endpoint markers, the polyline,
    markers at waypoints 1 and 6, and a bounds fit. *)
Example displayRoute_draws_route :
  option_map snd (MapComponent.displayRoute (Some [demoSegment]) mountedState)
  = Some
      [MapComponent.ClearLayers;
       MapComponent.AddTo (MapComponent.sourceMarker (0, 0));
       MapComponent.AddTo (MapComponent.destinationMarker (7, 70));
       MapComponent.AddTo
         (MapComponent.Polyline
            [(0, 0); (1, 10); (2, 20); (3, 30); (4, 40); (5, 50); (6, 60); (7, 70)]
            1 1200 0);
       MapComponent.AddTo (MapComponent.waypointMarker (1, 10));
       MapComponent.AddTo (MapComponent.waypointMarker (6, 60));
       MapComponent.FitBounds
         {| MapComponent.south := 0; MapComponent.west := 0;
            MapComponent.north := 7; MapComponent.east := 70 |}
         (50%nat, 50%nat)].
Proof. vm_compute. reflexivity. Qed.

(** ** Route rendering with nothing to draw *)

Lemma forEachSegment_no_waypoints (count : nat) (segments : list MapComponent.RoutingData) :
  forallb hasNoWaypoints segments = true ->
  forall index : nat, MapComponent.forEachSegment count index segments = Some [].
Proof.
  induction segments as [|rd rest IH]; intros Hall index; [reflexivity|].
  simpl in Hall. apply andb_true_iff in Hall as [Hrd Hrest].
  simpl. unfold MapComponent.drawSegment.
  unfold hasNoWaypoints in Hrd.
  destruct (MapComponent.waypoints rd) as [[|wp wps]|]; try discriminate;
    rewrite (IH Hrest); reflexivity.
Qed.

(** C8.  Given no route array, an empty one, or one whose segments all have
    no waypoints, [displayRoute] returns normally; the only call it makes is
    [clearLayers] on the route layer group (none at all before the map
    exists): no marker, no polyline and no bounds fit. *)
Theorem displayRoute_nothing_to_draw
    (routingDataArray : option (list MapComponent.RoutingData))
    (st : MapComponent.State) :
  isEmptyRoute routingDataArray = true ->
  exists (st' : MapComponent.State) (calls : list MapComponent.LeafletCall),
    MapComponent.displayRoute routingDataArray st = Some (st', calls)
    /\ filter MapComponent.isDrawCall calls = []
    /\ (st', calls)
       = match MapComponent.leafletMap st, MapComponent.routeLayerGroup st with
         | Some _, Some _ =>
             (MapComponent.setRouteLayers (Some []) st, [MapComponent.ClearLayers])
         | _, _ => (st, [])
         end.
Proof.
  intros Hempty. unfold MapComponent.displayRoute.
  destruct (MapComponent.leafletMap st) as [view|];
    [destruct (MapComponent.routeLayerGroup st) as [layers|]|];
    try (eexists; eexists; repeat split; reflexivity).
  destruct routingDataArray as [[|rd rest]|];
    try (eexists; eexists; repeat split; reflexivity).
  unfold isEmptyRoute in Hempty.
  rewrite (forEachSegment_no_waypoints _ _ Hempty).
  eexists; eexists; repeat split; reflexivity.
Qed.

(** ** Rounding and remainders on reals *)

Section RealHelpers.
Open Scope R_scope.

Lemma Math_round_IZR (z : Z) : RNum.Math_round (IZR z) = IZR z.
Proof.
  unfold RNum.Math_round. f_equal. apply Zfloor_eq. Lra.lra.
Qed.

Lemma Math_atan2_origin : RNum.Math_atan2 0 0 = 0.
Proof.
  unfold RNum.Math_atan2.
  destruct (Rlt_dec 0 0) as [H|_]; [exfalso; Lra.lra|].
  destruct (Rlt_dec 0 0) as [H|_]; [exfalso; Lra.lra|].
  reflexivity.
Qed.

Lemma rem_180_360 : RNum.rem 180 360 = 180.
Proof.
  unfold RNum.rem, RNum.trunc.
  destruct (Rle_dec 0 (180 / 360)) as [_|H]; [|exfalso; apply H; Lra.lra].
  rewrite (Zfloor_eq 0 (180 / 360)) by Lra.lra. Lra.lra.
Qed.

Lemma orDefault_None (d : R) : RNum.orDefault None d = d.
Proof. reflexivity. Qed.

Lemma orDefault_zero : RNum.orDefault (Some 0) 0 = 0.
Proof. unfold RNum.orDefault. destruct (Req_dec_T 0 0); reflexivity. Qed.
End RealHelpers.

(** ** Parsing a response with missing members *)

Section ParseDefaults.
Import WindyWeatherService.
Open Scope R_scope.

Lemma speed_of_calm : sqrt (0 * 0 + 0 * 0) = 0.
Proof. replace (0 * 0 + 0 * 0) with 0 by Lra.lra. apply sqrt_0. Qed.

Lemma direction_of_calm : RNum.rem (RNum.Math_atan2 0 0 * 180 / PI + 180) 360 = 180.
Proof.
  rewrite Math_atan2_origin.
  replace (0 * 180 / PI + 180) with 180
    by (unfold Rdiv; rewrite !Rmult_0_l; Lra.lra).
  apply rem_180_360.
Qed.

(** C10.  [parseWindyResponse] is a total function of the response.  When
    the wind member (or its first row) is missing, u, v and the speed are 0;
    when the first entry of temp, rh, pressure or gust is missing (the member
    itself, its first row, or that row's first entry), the value is 15, 50,
    101325 or 0.  A response with every member missing parses to the sample
    made of these defaults. *)
Theorem parseWindyResponse_defaults :
  (forall (response : WindyApiResponse) (lat lon : R),
      let d := parseWindyResponse response lat lon in
      (first (resp_wind response) = None ->
         u (wind d) = 0 /\ v (wind d) = 0 /\ speed (wind d) = 0)
      /\ (first (first (resp_temp response)) = None -> temp d = 15)
      /\ (first (first (resp_rh response)) = None -> rh d = 50)
      /\ (first (first (resp_pressure response)) = None -> pressure d = 101325)
      /\ (first (first (resp_gust response)) = None -> gust d = Some 0))
  /\ (forall lat lon : R,
         parseWindyResponse absentResponse lat lon
         = {| wind := {| speed := 0; direction := 180; u := 0; v := 0 |};
              temp := 15;
              rh := 50;
              pressure := 101325;
              gust := Some 0;
              cape := None;
              visibility := None |}).
Proof.
  split.
  - intros response lat lon d. subst d. unfold parseWindyResponse.
    split.
    + intros Hw. rewrite Hw. cbn [nth_error wind u v speed].
      rewrite orDefault_zero. repeat split. apply speed_of_calm.
    + repeat split; intros Hf; cbn [temp rh pressure gust];
        rewrite Hf; reflexivity.
  - intros lat lon. unfold parseWindyResponse, absentResponse.
    cbn [first resp_wind resp_temp resp_rh resp_pressure resp_gust nth_error].
    rewrite !orDefault_None, !orDefault_zero.
    rewrite speed_of_calm, direction_of_calm. reflexivity.
Qed.

Lemma parseWindyResponse_defaults_witness :
  let d := parseWindyResponse absentResponse 0 0 in
  u (wind d) = 0 /\ v (wind d) = 0 /\ speed (wind d) = 0.
Proof.
  exact (proj1 (proj1 parseWindyResponse_defaults absentResponse 0 0) eq_refl).
Defined.
End ParseDefaults.

(** ** The simulator without noise *)

Section Simulator.
Import WindyWeatherService.
Open Scope R_scope.

Lemma generateSimulatedWeatherData_run (random : nat -> R) (lat lon : R) (w : World) :
  generateSimulatedWeatherData random lat lon w
  = (simulatedFrom lat lon
       (random (cursor w)) (random (1 + cursor w)%nat)
       (random (2 + cursor w)%nat) (random (3 + cursor w)%nat)
       (random (4 + cursor w)%nat) (random (5 + cursor w)%nat),
     {| cursor := 6 + cursor w; console := console w |}).
Proof. reflexivity. Qed.

(** C5.  The sample follows the documented formulas (temperature, humidity
    and pressure being rounded afterwards), and at latitude 0, longitude 0
    with the noise terms of temperature, wind speed, humidity and pressure
    equal to 0 it has temperature 20, wind speed 3, pressure 101325 and
    relative humidity 60, whatever the draws for direction and gust. *)
Theorem simulated_sample_without_noise (random : nat -> R) (w : World) :
  let k := cursor w in
  let tempNoise := (random k - 0.5) * 5 in
  let speedNoise := (random (1 + k)%nat - 0.5) * 5 in
  let rhNoise := (random (3 + k)%nat - 0.5) * 20 in
  let pressureNoise := (random (4 + k)%nat - 0.5) * 500 in
  (forall lat lon : R,
      let d := fst (generateSimulatedWeatherData random lat lon w) in
      temp d
        = RNum.Math_round
            ((20 - Rabs lat * 0.5 + sin (lon * 0.1) * 8 + tempNoise) * 10) / 10
      /\ speed (wind d) = Rabs (sin (lat * PI / 180)) * 15 + 3 + speedNoise
      /\ rh d
         = RNum.Math_round (Rmax 30 (Rmin 95 (60 - Rabs lat * 0.3 + rhNoise)))
      /\ pressure d
         = RNum.Math_round (101325 + sin (lat * PI / 180) * 1000 + pressureNoise))
  /\ (tempNoise = 0 -> speedNoise = 0 -> rhNoise = 0 -> pressureNoise = 0 ->
      let d := fst (generateSimulatedWeatherData random 0 0 w) in
      temp d = 20 /\ speed (wind d) = 3 /\ pressure d = 101325 /\ rh d = 60).
Proof.
  cbv zeta. split.
  - intros lat lon. rewrite generateSimulatedWeatherData_run.
    cbn [fst]. unfold simulatedFrom. cbn [temp wind speed rh pressure].
    repeat split.
  - intros Ht Hs Hr Hp. rewrite generateSimulatedWeatherData_run.
    cbn [fst]. unfold simulatedFrom. cbn [temp wind speed rh pressure].
    rewrite Ht, Hs, Hr, Hp.
    replace (0 * PI / 180) with 0 by (unfold Rdiv; rewrite !Rmult_0_l; reflexivity).
    rewrite Rmult_0_l, sin_0, Rabs_R0.
    repeat split.
    + replace ((20 - 0 * 0.5 + 0 * 8 + 0) * 10) with (IZR 200) by Lra.lra.
      rewrite Math_round_IZR. Lra.lra.
    + Lra.lra.
    + replace (101325 + 0 * 1000 + 0) with (IZR 101325) by Lra.lra.
      apply Math_round_IZR.
    + unfold RNum.Math_max, RNum.Math_min.
      replace (60 - 0 * 0.3 + 0) with 60 by Lra.lra.
      rewrite Rmin_right by Lra.lra. rewrite Rmax_right by Lra.lra.
      apply (Math_round_IZR 60).
Qed.

Lemma simulated_sample_without_noise_witness :
  let d := fst (generateSimulatedWeatherData (fun _ => 0.5) 0 0 freshWorld) in
  temp d = 20 /\ speed (wind d) = 3 /\ pressure d = 101325 /\ rh d = 60.
Proof.
  apply (proj2 (simulated_sample_without_noise (fun _ => 0.5) freshWorld));
    cbv zeta; Lra.lra.
Defined.
End Simulator.

(** A route is on the map; a segment without waypoints arrives: the old route
    is cleared and nothing is drawn. *)
Lemma displayRoute_nothing_to_draw_witness :
  exists (st' : MapComponent.State) (calls : list MapComponent.LeafletCall),
    MapComponent.displayRoute (Some [emptySegment]) routeShown = Some (st', calls)
    /\ filter MapComponent.isDrawCall calls = []
    /\ (st', calls)
       = (MapComponent.setRouteLayers (Some []) routeShown,
          [MapComponent.ClearLayers]).
Proof.
  exact (displayRoute_nothing_to_draw (Some [emptySegment]) routeShown eq_refl).
Defined.

(** ** Fetching weather data *)

Section Fetch.
Import WindyWeatherService.
Open Scope R_scope.

Variable random : nat -> R.

Lemma getWeatherData_without_key (svc : Service) (lat lon : R) (w : World) :
  apiKey svc = placeholderKey ->
  getWeatherData random svc lat lon w
  = (Next (simulatedAt random lat lon w),
     {| cursor := 6 + cursor w; console := console w |}).
Proof.
  intros Hkey. unfold getWeatherData. rewrite Hkey, String.eqb_refl.
  reflexivity.
Qed.

Lemma getWeatherData_with_key (svc : Service) (lat lon : R) (w : World) :
  apiKey svc <> placeholderKey ->
  getWeatherData random svc lat lon w
  = match http_get svc (requestOf svc lat lon) with
    | Next response => (Next (parseWindyResponse response lat lon), w)
    | Failed e =>
        let w1 := {| cursor := cursor w;
                     console := console w ++ [Warn warnMessage e] |} in
        (Next (simulatedAt random lat lon w1),
         {| cursor := 6 + cursor w; console := console w ++ [Warn warnMessage e] |})
    end.
Proof.
  intros Hkey. unfold getWeatherData.
  apply String.eqb_neq in Hkey. rewrite Hkey.
  fold (requestOf svc lat lon).
  destruct (http_get svc (requestOf svc lat lon)) as [response|e]; reflexivity.
Qed.

(** A subscriber always receives a sample, never an error. *)
Lemma getWeatherData_emits (svc : Service) (lat lon : R) (w : World) :
  exists d : WindyWeatherData, fst (getWeatherData random svc lat lon w) = Next d.
Proof.
  destruct (String.eqb_spec (apiKey svc) placeholderKey) as [Hkey|Hkey].
  - rewrite getWeatherData_without_key by assumption. eexists. reflexivity.
  - rewrite getWeatherData_with_key by assumption.
    destruct (http_get svc (requestOf svc lat lon)); eexists; reflexivity.
Qed.

(** C4, as amended.  Every call delivers a sample and no error reaches the
    subscriber.  With the placeholder key the simulator's sample is delivered
    and nothing is written to the console; with a key, a failed request logs
    one warning and delivers the simulator's sample, and a successful one
    delivers the parsed response.  The simulator's sample is the one
    [generateSimulatedWeatherData] computes from the coordinates and the next
    six draws. *)
Theorem getWeatherData_never_fails (svc : Service) (lat lon : R) (w : World) :
  (exists d : WindyWeatherData,
      fst (getWeatherData random svc lat lon w) = Next d)
  /\ (apiKey svc = placeholderKey ->
      getWeatherData random svc lat lon w
      = (Next (simulatedAt random lat lon w),
         {| cursor := 6 + cursor w; console := console w |}))
  /\ (apiKey svc <> placeholderKey ->
      forall e : HttpError,
        http_get svc (requestOf svc lat lon) = Failed e ->
        let logged := console w ++ [Warn warnMessage e] in
        getWeatherData random svc lat lon w
        = (Next (simulatedAt random lat lon {| cursor := cursor w; console := logged |}),
           {| cursor := 6 + cursor w; console := logged |}))
  /\ (apiKey svc <> placeholderKey ->
      forall response : WindyApiResponse,
        http_get svc (requestOf svc lat lon) = Next response ->
        getWeatherData random svc lat lon w
        = (Next (parseWindyResponse response lat lon), w)).
Proof.
  split; [apply getWeatherData_emits|].
  split; [apply getWeatherData_without_key|].
  split; intros Hkey ? Hhttp; rewrite getWeatherData_with_key by assumption;
    rewrite Hhttp; reflexivity.
Qed.
End Fetch.

Lemma getWeatherData_never_fails_witness :
  WindyWeatherService.getWeatherData (fun _ => 0.5%R) (keyedService unreachable) 0 0 freshWorld
  = (Next (simulatedAt (fun _ => 0.5%R) 0 0
             {| cursor := 0;
                console := [Warn WindyWeatherService.warnMessage serviceUnavailable] |}),
     {| cursor := 6;
        console := [Warn WindyWeatherService.warnMessage serviceUnavailable] |}).
Proof.
  apply (proj1 (proj2 (proj2
           (getWeatherData_never_fails (fun _ => 0.5%R) (keyedService unreachable)
              0 0 freshWorld)))).
  - discriminate.
  - reflexivity.
Defined.

(** C4 as stated fails on the missing-credential path: with the placeholder
    key the shipped service delivers the simulator's sample but writes nothing
    to the console. *)
Lemma getWeatherData_placeholder_logs_nothing :
  WindyWeatherService.apiKey (WindyWeatherService.shipped unreachable)
  = WindyWeatherService.placeholderKey
  /\ fst (WindyWeatherService.getWeatherData (fun _ => 0.5%R) (WindyWeatherService.shipped unreachable)
            0 0 freshWorld)
     = Next (simulatedAt (fun _ => 0.5%R) 0 0 freshWorld)
  /\ console (snd (WindyWeatherService.getWeatherData (fun _ => 0.5%R)
                     (WindyWeatherService.shipped unreachable) 0 0 freshWorld))
     = [].
Proof.
  repeat split.
Qed.

(** ** Running effectful code *)

Lemma bind_run {A B : Type} (m : M A) (k : A -> M B) (w : World) :
  bind m k w = k (fst (m w)) (snd (m w)).
Proof. unfold bind. destruct (m w). reflexivity. Qed.

Lemma mapM_length {A B : Type} (f : A -> M B) (l : list A) (w : World) :
  List.length (fst (mapM f l w)) = List.length l.
Proof.
  revert w. induction l as [|a l IH]; intros w; [reflexivity|].
  simpl. rewrite !bind_run. simpl. rewrite IH. reflexivity.
Qed.

Lemma mapM_Forall {A B : Type} (P : B -> Prop) (f : A -> M B) :
  (forall a w, P (fst (f a w))) ->
  forall (l : list A) (w : World), Forall P (fst (mapM f l w)).
Proof.
  intros Hf l. induction l as [|a l IH]; intros w; [constructor|].
  simpl. rewrite !bind_run. simpl. constructor; [apply Hf | apply IH].
Qed.

Lemma replicateM_length {A : Type} (n : nat) (body : M A) (w : World) :
  List.length (fst (replicateM n body w)) = n.
Proof.
  revert w. induction n as [|n IH]; intros w; [reflexivity|].
  simpl. rewrite !bind_run. simpl. rewrite IH. reflexivity.
Qed.

Lemma replicateM_Forall {A : Type} (P : A -> Prop) (body : M A) :
  (forall w, P (fst (body w))) ->
  forall (n : nat) (w : World), Forall P (fst (replicateM n body w)).
Proof.
  intros Hb n. induction n as [|n IH]; intros w; [constructor|].
  simpl. rewrite !bind_run. simpl. constructor; [apply Hb | apply IH].
Qed.

Lemma RNum_ltb_true (a b : R) : RNum.ltb a b = true -> (a < b)%R.
Proof. unfold RNum.ltb. destruct (Rlt_dec a b); [trivial|discriminate]. Qed.

Lemma RNum_ltb_false (a b : R) : RNum.ltb a b = false -> (b <= a)%R.
Proof.
  unfold RNum.ltb. destruct (Rlt_dec a b); [discriminate|].
  intros _. apply Rnot_lt_le. assumption.
Qed.

(** ** The particle pool *)

Section Particles.
Import WindyWeatherService MapComponent.
Open Scope R_scope.

Variable random : nat -> R.
Hypothesis random_unit : forall k : nat, 0 <= random k < 1.

Ltac run_effects :=
  unfold bind, ret, MapComponent.Math_random, WindyWeatherService.Math_random;
  cbv beta iota zeta.

Lemma newParticle_fresh (windSpeedMs windAngleRad : R) (w : World) :
  freshlySpawned (fst (newParticle random windSpeedMs windAngleRad w)).
Proof.
  unfold newParticle, freshlySpawned. run_effects.
  cbn [fst age life brightness cursor console].
  pose proof (random_unit (S (S (S (S (S (cursor w))))))) as H5.
  pose proof (random_unit (S (S (S (S (S (S (cursor w)))))))) as H6.
  repeat split; Lra.lra.
Qed.

Lemma freshlySpawned_alive (p : WindParticle) : freshlySpawned p -> alive p.
Proof.
  unfold freshlySpawned, alive. intros (Hage & Hlife & _).
  rewrite Hage. simpl. Lra.lra.
Qed.

(** What one frame does to one particle. *)
Lemma stepParticle_cases (canvas : Canvas) (layer : WeatherLayer)
    (realWeatherData : option WindyWeatherData) (p : WindParticle) (w : World) :
  let p' := fst (fst (stepParticle random canvas layer realWeatherData p w)) in
  (life p < INR (S (age p)) /\ freshlySpawned p')
  \/ (INR (S (age p)) <= life p
      /\ age p' = S (age p) /\ life p' = life p /\ brightness p' = brightness p).
Proof.
  unfold stepParticle. run_effects.
  destruct (RNum.ltb (life p) (INR (S (age p)))) eqn:Hdead.
  - left. split; [apply RNum_ltb_true; assumption|].
    unfold freshlySpawned. cbn [fst age life brightness cursor console].
    pose proof (random_unit (S (S (S (S (cursor w)))))) as H5.
    pose proof (random_unit (S (S (S (S (S (cursor w))))))) as H6.
    repeat split; Lra.lra.
  - right. split; [apply RNum_ltb_false; assumption|].
    cbn [fst age life brightness]. repeat split.
Qed.

Lemma stepParticle_alive (canvas : Canvas) (layer : WeatherLayer)
    (realWeatherData : option WindyWeatherData) (p : WindParticle) (w : World) :
  alive (fst (fst (stepParticle random canvas layer realWeatherData p w))).
Proof.
  destruct (stepParticle_cases canvas layer realWeatherData p w)
    as [[_ Hfresh]|(Hle & Hage & Hlife & _)].
  - apply freshlySpawned_alive. assumption.
  - unfold alive. rewrite Hage, Hlife. split; [apply pos_INR | assumption].
Qed.

Lemma animate_pool (canvas : Canvas) (realWeatherData : option WindyWeatherData)
    (st : State) (w : World) :
  let st' := fst (fst (animate random canvas realWeatherData st w)) in
  List.length (particleSystem st') = List.length (particleSystem st)
  /\ Forall alive (particleSystem st')
  /\ leafletMap st' = leafletMap st.
Proof.
  unfold animate. rewrite !bind_run. cbn [ret fst snd setParticles particleSystem leafletMap].
  split; [|split; [|reflexivity]].
  - rewrite length_map. apply mapM_length.
  - apply Forall_map.
    apply (mapM_Forall (fun r => alive (fst r))).
    intros a w0. apply stepParticle_alive.
Qed.

Lemma animateFrames_pool (frames : nat) (canvas : Canvas)
    (realWeatherData : option WindyWeatherData) (st : State) (w : World) :
  Forall alive (particleSystem st) ->
  let st' := fst (fst (animateFrames random frames canvas realWeatherData st w)) in
  List.length (particleSystem st') = List.length (particleSystem st)
  /\ Forall alive (particleSystem st').
Proof.
  revert st w. induction frames as [|frames IH]; intros st w Hst.
  - simpl. split; [reflexivity | assumption].
  - cbn [animateFrames]. rewrite !bind_run. cbn [ret fst snd].
    destruct (animate_pool canvas realWeatherData st w) as (Hlen & Halive & _).
    destruct (IH _ (snd (animate random canvas realWeatherData st w)) Halive)
      as [Hlen' Halive'].
    split; [rewrite Hlen', Hlen; reflexivity | assumption].
Qed.

Lemma initializeParticleSystem_pool (svc : Service) (st : State) (w : World) :
  let st' := fst (initializeParticleSystem random svc st w) in
  Forall freshlySpawned (particleSystem st')
  /\ (leafletMap st <> None -> List.length (particleSystem st') = particleCount).
Proof.
  unfold initializeParticleSystem.
  cbn [setParticles leafletMap particleSystem].
  destruct (leafletMap st) as [center|].
  2:{ cbn. split; [constructor | congruence]. }
  rewrite bind_run.
  destruct (getWeatherData_emits random svc (center_lat center) (center_lng center) w)
    as [d Hd].
  rewrite Hd. rewrite bind_run. cbn [ret fst setParticles particleSystem app].
  split.
  - apply replicateM_Forall. intros w0. apply newParticle_fresh.
  - intros _. apply replicateM_length.
Qed.

Lemma animateWeatherVisualization_pool (svc : Service) (view : MapView)
    (canvas : Canvas) (frames : nat) (st : State) (w : World) :
  Forall alive (particleSystem st) ->
  let st' :=
    fst (fst (animateWeatherVisualization random svc view canvas frames st w)) in
  List.length (particleSystem st') = List.length (particleSystem st)
  /\ Forall alive (particleSystem st').
Proof.
  intros Hst. unfold animateWeatherVisualization. rewrite bind_run.
  destruct (getWeatherData_emits random svc (center_lat view) (center_lng view) w)
    as [d Hd].
  rewrite Hd.
  apply (animateFrames_pool frames canvas (Some d)
           (setParticles (particleSystem st) (Some d) st)).
  exact Hst.
Qed.

(** C7.  After the pool is seeded and any number of frames have run, every
    particle satisfies [0 <= age <= life], and the pool still has its 2500
    particles.  In a frame, a particle whose incremented age exceeds its life
    is replaced in place by one of age 0 with a life in [[100, 250)] and a
    brightness in [[0.5, 1)]; any other particle keeps its life and
    brightness and is one frame older; the pool keeps its length. *)
Theorem particle_respawn_invariant (svc : Service) (view : MapView)
    (canvas : Canvas) (frames : nat) (st : State) (w : World) :
  let pool :=
    particleSystem (fst (fst (onAdd random svc view canvas frames st w))) in
  Forall (fun p => 0 <= INR (age p) <= life p) pool
  /\ (leafletMap st <> None -> List.length pool = 2500%nat)
  /\ (forall (layer : WeatherLayer) (data : option WindyWeatherData)
             (p : WindParticle) (w0 : World),
         let p' := fst (fst (stepParticle random canvas layer data p w0)) in
         0 <= INR (age p') <= life p'
         /\ (life p < INR (S (age p)) ->
             age p' = 0%nat /\ 100 <= life p' < 250 /\ 0.5 <= brightness p' < 1)
         /\ (INR (S (age p)) <= life p ->
             age p' = S (age p) /\ life p' = life p
             /\ brightness p' = brightness p))
  /\ (forall (data : option WindyWeatherData) (st0 : State) (w0 : World),
         List.length (particleSystem (fst (fst (animate random canvas data st0 w0))))
         = List.length (particleSystem st0)).
Proof.
  cbv zeta. unfold onAdd. rewrite bind_run.
  destruct (initializeParticleSystem_pool svc st w) as [Hfresh Hlen].
  assert (Hseeded :
            Forall alive (particleSystem (fst (initializeParticleSystem random svc st w)))).
  { eapply Forall_impl; [|exact Hfresh]. apply freshlySpawned_alive. }
  destruct (animateWeatherVisualization_pool svc view canvas frames _
              (snd (initializeParticleSystem random svc st w)) Hseeded)
    as [Hkeep Halive].
  split; [exact Halive|].
  split; [intros Hmap; rewrite Hkeep; apply Hlen; exact Hmap|].
  split.
  - intros layer data p w0.
    split; [apply stepParticle_alive|].
    destruct (stepParticle_cases canvas layer data p w0)
      as [[Hdead Hnew]|(Hle & Hrest)]; split; intros Hcmp;
      solve [exact Hnew | exact Hrest | exfalso; Lra.lra].
  - intros data st0 w0. apply animate_pool.
Qed.
End Particles.

Lemma half_is_a_draw : forall k : nat, (0 <= (fun _ : nat => 0.5) k < 1)%R.
Proof. intros k. Lra.lra. Qed.

Lemma particle_respawn_invariant_witness :
  let pool :=
    MapComponent.particleSystem
      (fst (fst (MapComponent.onAdd (fun _ => 0.5%R)
                   (WindyWeatherService.shipped unreachable) equator
                   (MapComponent.mkCanvas 1000 600) 3 mountedState freshWorld))) in
  Forall (fun p => (0 <= INR (MapComponent.age p) <= MapComponent.life p)%R) pool
  /\ List.length pool = 2500%nat.
Proof.
  pose proof (@particle_respawn_invariant (fun _ => 0.5%R) half_is_a_draw
                (WindyWeatherService.shipped unreachable) equator
                (MapComponent.mkCanvas 1000 600) 3 mountedState freshWorld) as H.
  cbv zeta in H. cbv zeta.
  split; [exact (proj1 H)|].
  apply (proj1 (proj2 H)). discriminate.
Defined.

(* ================================================================== *)
(** * Further properties *)

(** ** GridMapComponent over runs of calls *)

Lemma gridRun_app (calls1 calls2 : list GridCall) (st : GridMapComponent.State) :
  gridRun (calls1 ++ calls2) st
  = (fst (gridRun calls2 (fst (gridRun calls1 st))),
     snd (gridRun calls1 st) ++ snd (gridRun calls2 (fst (gridRun calls1 st)))).
Proof.
  revert st. induction calls1 as [|call rest IH]; intros st.
  - simpl. destruct (gridRun calls2 st). reflexivity.
  - simpl. rewrite IH. simpl. rewrite app_assoc. reflexivity.
Qed.

(** The invariant of the grid-only component. *)
Lemma gridPerform_invariant (call : GridCall) (st : GridMapComponent.State) :
  gridInvariant st -> gridInvariant (fst (gridPerform call st)).
Proof.
  unfold gridInvariant. intros [Hdest Hmode].
  destruct call as [cell|]; simpl.
  - unfold GridMapComponent.selectCell.
    destruct (GridMapComponent.selectionMode st); simpl.
    + split; [assumption|]. split; discriminate.
    + split; [reflexivity|]. split; reflexivity.
  - split; [reflexivity|]. split; reflexivity.
Qed.

Lemma gridRun_invariant (calls : list GridCall) (st : GridMapComponent.State) :
  gridInvariant st -> gridInvariant (fst (gridRun calls st)).
Proof.
  revert st. induction calls as [|call rest IH]; intros st Hst; [exact Hst|].
  simpl. apply IH, gridPerform_invariant, Hst.
Qed.

Lemma gridRun_initial_invariant (calls : list GridCall) :
  gridInvariant (fst (gridRun calls GridMapComponent.initial)).
Proof.
  apply gridRun_invariant. split; [reflexivity|]. split; reflexivity.
Qed.

(** X1.  Whatever calls are made on [GridMapComponent] from its initial
    state, the destination slot is empty afterwards and the component is in
    source mode exactly when no source is stored. *)
Theorem gridOnly_invariant (calls : list GridCall) :
  let st := fst (gridRun calls GridMapComponent.initial) in
  destination (GridMapComponent.selectedCoordinates st) = None
  /\ (GridMapComponent.selectionMode st = SourceMode
      <-> source (GridMapComponent.selectedCoordinates st) = None).
Proof.
  exact (gridRun_initial_invariant calls).
Qed.

Lemma gridOnly_clicks_from_initial (cells : list GridCell) :
  forall st : GridMapComponent.State,
    st = GridMapComponent.initial ->
    snd (gridRun (map GridSelectCell cells) st) = pairUp cells
    /\ fst (gridRun (map GridSelectCell cells) st)
       = (if Nat.even (List.length cells) then GridMapComponent.initial
          else GridMapComponent.mkState
                 (mkSelected (Some (last cells cell1)) None) DestinationMode).
Proof.
  induction cells as [cells IH] using (induction_ltof1 _ (@List.length GridCell)).
  unfold ltof in IH. intros st ->.
  destruct cells as [|c1 [|c2 rest]].
  - split; reflexivity.
  - split; reflexivity.
  - destruct (IH rest ltac:(simpl; lia) GridMapComponent.initial eq_refl)
      as [Hev Hst].
    change (map GridSelectCell (c1 :: c2 :: rest))
      with ([GridSelectCell c1; GridSelectCell c2] ++ map GridSelectCell rest).
    rewrite gridRun_app. cbn [fst snd].
    change (fst (gridRun [GridSelectCell c1; GridSelectCell c2]
                   GridMapComponent.initial))
      with GridMapComponent.initial.
    rewrite Hev, Hst. split; [reflexivity|].
    cbn [List.length Nat.even].
    destruct (Nat.even (List.length rest)); [reflexivity|].
    destruct rest; [discriminate Hst|reflexivity].
Qed.

(** X2.  Clicking the cells [c1, c2, ..., cn] in turn on a fresh
    [GridMapComponent] emits the events [(c1,c2), (c3,c4), ...]: one event
    for every second click ([n / 2] in all), each with both cells set; after
    an odd number of clicks the last cell is waiting as source. *)
Theorem gridOnly_click_sequence (cells : list GridCell) :
  let r := gridRun (map GridSelectCell cells) GridMapComponent.initial in
  snd r = pairUp cells
  /\ List.length (snd r) = (List.length cells / 2)%nat
  /\ Forall (fun ev => source ev <> None /\ destination ev <> None) (snd r)
  /\ fst r = (if Nat.even (List.length cells) then GridMapComponent.initial
              else GridMapComponent.mkState
                     (mkSelected (Some (last cells cell1)) None) DestinationMode).
Proof.
  destruct (gridOnly_clicks_from_initial cells eq_refl) as [Hev Hst].
  cbv zeta. rewrite Hev. repeat split; try assumption.
  - clear. induction cells as [cells IH] using (induction_ltof1 _ (@List.length GridCell)).
    unfold ltof in IH. destruct cells as [|c1 [|c2 rest]]; try reflexivity.
    cbn [pairUp List.length]. rewrite IH by (simpl; lia).
    change (S (S (List.length rest))) with (2 + List.length rest)%nat.
    replace (2 + List.length rest)%nat with (List.length rest + 1 * 2)%nat by lia.
    rewrite Nat.div_add by lia. lia.
  - clear. induction cells as [cells IH] using (induction_ltof1 _ (@List.length GridCell)).
    unfold ltof in IH. destruct cells as [|c1 [|c2 rest]]; try constructor.
    + split; discriminate.
    + apply IH. simpl. lia.
Qed.

Lemma idIs_true_set (o : option GridCell) (cell : GridCell) :
  GridMapComponent.idIs o cell = true -> o <> None.
Proof. destruct o; [discriminate | intros H; discriminate H]. Qed.

(** X3.  A cell shown as selected is always also highlighted, and in every
    state [GridMapComponent] can reach the two tests agree: both hold exactly
    for the cell waiting as source. *)
Theorem gridOnly_selected_is_highlighted :
  (forall (st : GridMapComponent.State) (cell : GridCell),
      GridMapComponent.isCellSelected st cell = true ->
      GridMapComponent.isCellHighlighted st cell = true)
  /\ (forall (calls : list GridCall) (cell : GridCell),
         let st := fst (gridRun calls GridMapComponent.initial) in
         GridMapComponent.isCellSelected st cell
         = GridMapComponent.isCellHighlighted st cell
         /\ GridMapComponent.isCellHighlighted st cell
            = GridMapComponent.idIs
                (source (GridMapComponent.selectedCoordinates st)) cell).
Proof.
  split.
  - intros st cell. unfold GridMapComponent.isCellSelected,
      GridMapComponent.isCellHighlighted.
    rewrite !orb_true_iff, !andb_true_iff. tauto.
  - intros calls cell st.
    destruct (gridRun_initial_invariant calls) as [Hdest Hmode].
    fold st in Hdest, Hmode.
    unfold GridMapComponent.isCellSelected, GridMapComponent.isCellHighlighted.
    rewrite Hdest. cbn [GridMapComponent.idIs]. rewrite andb_false_l, !orb_false_r.
    split; [|reflexivity].
    destruct (GridMapComponent.selectionMode st) eqn:Hm; cbn.
    + rewrite (proj1 Hmode eq_refl). reflexivity.
    + apply andb_true_r.
Qed.

Lemma gridOnly_selected_is_highlighted_witness :
  GridMapComponent.isCellHighlighted
    (fst (GridMapComponent.selectCell cell1 GridMapComponent.initial)) cell1 = true.
Proof.
  apply (proj1 gridOnly_selected_is_highlighted). reflexivity.
Defined.

(** X4.  In every state [GridMapComponent] can reach, the instruction line
    is never empty: it asks for the source exactly in source mode, and in
    destination mode a source is stored and the line is
    ["Source: (<lat>, <lon>) - Click on destination location"] with the
    latitude and longitude of that source. *)
Theorem gridOnly_instruction_never_empty
    (numberToString : Q -> string) (calls : list GridCall) :
  let st := fst (gridRun calls GridMapComponent.initial) in
  let line := GridMapInstruction.getCurrentInstruction numberToString st in
  line <> ""%string
  /\ (GridMapComponent.selectionMode st = SourceMode
      <-> line = "Click on source location"%string)
  /\ (GridMapComponent.selectionMode st = DestinationMode ->
      exists src : GridCell,
        source (GridMapComponent.selectedCoordinates st) = Some src
        /\ line = ("Source: (" ++ numberToString (lat src) ++ ", "
                     ++ numberToString (lon src)
                     ++ ") - Click on destination location")%string).
Proof.
  intros st line. subst line.
  destruct (gridRun_initial_invariant calls) as [Hdest Hmode]. fold st in Hdest, Hmode.
  unfold GridMapInstruction.getCurrentInstruction. rewrite Hdest.
  destruct (source (GridMapComponent.selectedCoordinates st)) as [src|] eqn:Hsrc.
  - split; [discriminate|]. split.
    + split.
      * intros Hm. apply Hmode in Hm. discriminate.
      * discriminate.
    + intros _. exists src. split; reflexivity.
  - split; [discriminate|]. split.
    + split; [reflexivity|]. intros _. apply Hmode. reflexivity.
    + intros Hm. rewrite (proj2 Hmode eq_refl) in Hm. discriminate.
Qed.

Lemma gridOnly_invariant_witness :
  let st := fst (gridRun [GridSelectCell cell1; GridResetSelection;
                          GridSelectCell cell648] GridMapComponent.initial) in
  destination (GridMapComponent.selectedCoordinates st) = None
  /\ (GridMapComponent.selectionMode st = SourceMode
      <-> source (GridMapComponent.selectedCoordinates st) = None).
Proof.
  exact (gridOnly_invariant [GridSelectCell cell1; GridResetSelection;
                             GridSelectCell cell648]).
Defined.

(** After one click on cell 1 the line names its centre. *)
Lemma gridOnly_instruction_never_empty_witness :
  GridMapInstruction.getCurrentInstruction printWhole
    (fst (gridRun [GridSelectCell cell1] GridMapComponent.initial))
  = "Source: (85, -175) - Click on destination location"%string.
Proof.
  destruct (proj2 (proj2 (gridOnly_instruction_never_empty printWhole
                            [GridSelectCell cell1])) eq_refl)
    as (src & Hsrc & Hline).
  rewrite Hline. injection Hsrc as <-. reflexivity.
Defined.

(** ** RouteInputComponent *)

Section Trim.
Import RouteInputComponent.
Variable isWhiteSpace : Ascii.ascii -> bool.

Lemma blank_trimStart (s : string) :
  blank isWhiteSpace (trimStart isWhiteSpace s) = blank isWhiteSpace s.
Proof.
  induction s as [|c rest IH]; [reflexivity|].
  simpl. destruct (isWhiteSpace c) eqn:Hc.
  - rewrite IH. unfold blank. simpl. rewrite Hc. reflexivity.
  - reflexivity.
Qed.

Lemma trimStart_blank (s : string) :
  blank isWhiteSpace s = true -> trimStart isWhiteSpace s = ""%string.
Proof.
  induction s as [|c rest IH]; [reflexivity|].
  unfold blank. simpl. intros H. apply andb_true_iff in H as [Hc Hrest].
  rewrite Hc. apply IH. exact Hrest.
Qed.

Lemma blank_reverse (s : string) :
  blank isWhiteSpace (reverse s) = blank isWhiteSpace s.
Proof.
  unfold blank, reverse. rewrite list_ascii_of_string_of_list_ascii.
  apply eq_true_iff_eq. rewrite !forallb_forall.
  split; intros H c Hc; apply H.
  - apply in_rev in Hc. exact Hc.
  - apply in_rev. exact Hc.
Qed.

Lemma blank_trim (s : string) :
  blank isWhiteSpace (trim isWhiteSpace s) = blank isWhiteSpace s.
Proof.
  unfold trim, trimEnd.
  rewrite blank_reverse, blank_trimStart, blank_reverse, blank_trimStart.
  reflexivity.
Qed.

Lemma truthy_trim (s : string) :
  truthy (trim isWhiteSpace s) = negb (blank isWhiteSpace s).
Proof.
  destruct (blank isWhiteSpace s) eqn:Hb.
  - unfold trim, trimEnd. rewrite (trimStart_blank _ Hb). reflexivity.
  - rewrite <- blank_trim in Hb.
    destruct (trim isWhiteSpace s); [discriminate Hb | reflexivity].
Qed.

(** X5.  [submitRoute] emits one event exactly when both fields contain a
    character that is not white space, and the event carries the fields as
    typed, untrimmed; if either field is empty or blank nothing is emitted.  In
    particular nothing is emitted after [clear], and after
    [populateFromCoordinates] the two names are what is submitted. *)
Theorem submitRoute_needs_both_fields (st : State) :
  (blank isWhiteSpace (source st) = false ->
   blank isWhiteSpace (destination st) = false ->
   submitRoute isWhiteSpace st = [mkRouteInput (source st) (destination st)])
  /\ (blank isWhiteSpace (source st) = true
      \/ blank isWhiteSpace (destination st) = true ->
      submitRoute isWhiteSpace st = [])
  /\ submitRoute isWhiteSpace (clear st) = []
  /\ (forall sourceName destName : string,
         blank isWhiteSpace sourceName = false ->
         blank isWhiteSpace destName = false ->
         submitRoute isWhiteSpace (populateFromCoordinates sourceName destName st)
         = [mkRouteInput sourceName destName]).
Proof.
  assert (Hboth : forall s d : string,
             blank isWhiteSpace s = false -> blank isWhiteSpace d = false ->
             submitRoute isWhiteSpace (mkState s d) = [mkRouteInput s d]).
  { intros s d Hs Hd. unfold submitRoute. cbn [source destination].
    rewrite !truthy_trim, Hs, Hd. reflexivity. }
  repeat split.
  - intros Hs Hd. destruct st as [s d]. apply Hboth; assumption.
  - intros [Hs|Hd]; unfold submitRoute; rewrite !truthy_trim.
    + rewrite Hs. reflexivity.
    + rewrite Hd. cbn [negb]. rewrite andb_false_r. reflexivity.
  - intros s d Hs Hd. apply Hboth; assumption.
Qed.
End Trim.

Lemma submitRoute_needs_both_fields_witness :
  RouteInputComponent.submitRoute RouteInputComponent.latin1WhiteSpace
    (RouteInputComponent.mkState " Rotterdam " "Santos")
  = [RouteInputComponent.mkRouteInput " Rotterdam " "Santos"].
Proof.
  apply (proj1 (submitRoute_needs_both_fields RouteInputComponent.latin1WhiteSpace
                  (RouteInputComponent.mkState " Rotterdam " "Santos")));
    reflexivity.
Defined.

(** ** MapComponent over runs of clicks *)

Lemma mapClicks_in_destination_mode (rest : list GridCell) :
  forall st : MapComponent.State,
    MapComponent.selectionMode st = DestinationMode ->
    let r := mapClicks rest st in
    emitted (snd r)
    = map (fun c => mkSelected (source (MapComponent.selectedCoordinates st)) (Some c))
        rest
    /\ MapComponent.selectionMode (fst r) = DestinationMode
    /\ source (MapComponent.selectedCoordinates (fst r))
       = source (MapComponent.selectedCoordinates st).
Proof.
  induction rest as [|c rest IH]; intros st Hmode.
  - repeat split. assumption.
  - cbn [mapClicks fst snd map].
    assert (Hstep : MapComponent.selectCell c st
                    = (MapComponent.setSelection
                         (mkSelected (source (MapComponent.selectedCoordinates st)) (Some c))
                         DestinationMode true st,
                       [MapComponent.Emit
                          (mkSelected (source (MapComponent.selectedCoordinates st)) (Some c));
                        MapComponent.UpdateMapVisualization (MapComponent.mapMode st)])).
    { unfold MapComponent.selectCell. rewrite Hmode. reflexivity. }
    rewrite Hstep. cbn [fst snd].
    destruct (IH (MapComponent.setSelection
                    (mkSelected (source (MapComponent.selectedCoordinates st)) (Some c))
                    DestinationMode true st) eq_refl) as (Hev & Hm & Hs).
    cbn [MapComponent.setSelection MapComponent.selectedCoordinates source] in Hev, Hs.
    repeat split.
    + unfold emitted in *. cbn [flat_map app]. rewrite Hev. reflexivity.
    + exact Hm.
    + exact Hs.
Qed.

(** X6.  On [MapComponent] in source mode, clicking [c1] and then the cells
    of [rest] emits one event per cell of [rest], each pairing [c1] with the
    cell just clicked: every click after the first re-emits, the source stays
    [c1] and the component stays in destination mode. *)
Theorem mapEmbedded_click_sequence (st : MapComponent.State)
    (c1 : GridCell) (rest : list GridCell) :
  MapComponent.selectionMode st = SourceMode ->
  let r := mapClicks (c1 :: rest) st in
  emitted (snd r) = map (fun c => mkSelected (Some c1) (Some c)) rest
  /\ MapComponent.selectionMode (fst r) = DestinationMode
  /\ source (MapComponent.selectedCoordinates (fst r)) = Some c1.
Proof.
  intros Hmode. cbn [mapClicks].
  assert (Hstep : MapComponent.selectCell c1 st
                  = (MapComponent.setSelection
                       (mkSelected (Some c1)
                          (destination (MapComponent.selectedCoordinates st)))
                       DestinationMode (MapComponent.showingRoute st) st,
                     [MapComponent.UpdateMapVisualization (MapComponent.mapMode st)])).
  { unfold MapComponent.selectCell. rewrite Hmode. reflexivity. }
  rewrite Hstep. cbn [fst snd].
  destruct (mapClicks_in_destination_mode rest
              (MapComponent.setSelection
                 (mkSelected (Some c1)
                    (destination (MapComponent.selectedCoordinates st)))
                 DestinationMode (MapComponent.showingRoute st) st) eq_refl)
    as (Hev & Hm & Hs).
  cbn [MapComponent.setSelection MapComponent.selectedCoordinates source] in Hev, Hs.
  repeat split; assumption.
Qed.

Lemma mapEmbedded_click_sequence_witness :
  let r := mapClicks [cell1; cell648; cell1] mountedState in
  emitted (snd r)
  = [mkSelected (Some cell1) (Some cell648); mkSelected (Some cell1) (Some cell1)]
  /\ MapComponent.selectionMode (fst r) = DestinationMode
  /\ source (MapComponent.selectedCoordinates (fst r)) = Some cell1.
Proof.
  exact (mapEmbedded_click_sequence mountedState cell1 [cell648; cell1] eq_refl).
Defined.

(** ** Route rendering never throws *)

Lemma intermediateMarkers_returns (coordinates : list MapComponent.LatLng) :
  forall fuel i : nat,
    exists ms : list MapComponent.Layer,
      MapComponent.intermediateMarkers fuel i coordinates = Some ms
      /\ Forall (fun l => exists c, l = MapComponent.waypointMarker c
                                    /\ In c coordinates) ms.
Proof.
  induction fuel as [|fuel IH]; intros i.
  - exists []. split; [reflexivity | constructor].
  - simpl. destruct (Nat.ltb_spec i (List.length coordinates - 1)) as [Hi|Hi].
    + destruct (nth_error coordinates i) as [c|] eqn:Hc.
      * destruct (IH (i + 5)%nat) as (ms & Hms & Hall).
        exists (MapComponent.waypointMarker c :: ms). rewrite Hms. split; [reflexivity|].
        constructor; [|exact Hall].
        exists c. split; [reflexivity|]. eapply nth_error_In. exact Hc.
      * apply nth_error_None in Hc. lia.
    + exists []. split; [reflexivity | constructor].
Qed.

Lemma nth_error_last_index {A : Type} (l : list A) (d : A) :
  l <> [] -> nth_error l (List.length l - 1) = Some (last l d).
Proof.
  induction l as [|a l IH]; intros Hne; [congruence|].
  destruct l as [|b l]; [reflexivity|].
  cbn [List.length] in *.
  replace (S (S (List.length l)) - 1)%nat with (S (List.length l)) by lia.
  replace (S (List.length l) - 1)%nat with (List.length l) in IH by lia.
  cbn [nth_error]. rewrite IH by discriminate. reflexivity.
Qed.

(** What one segment with waypoints adds to the layer group. *)
Lemma drawSegment_with_waypoints (count index : nat)
    (rd : MapComponent.RoutingData) (wp : MapComponent.Waypoint)
    (wps : list MapComponent.Waypoint) :
  MapComponent.waypoints rd = Some (wp :: wps) ->
  let coordinates := map latLngOf (wp :: wps) in
  exists ms : list MapComponent.Layer,
    MapComponent.drawSegment count index rd
    = Some ((if Nat.eqb index 0 then [MapComponent.sourceMarker (latLngOf wp)] else [])
            ++ (if Nat.eqb index (count - 1)
                then [MapComponent.destinationMarker
                        (latLngOf (last (wp :: wps) wp))]
                else [])
            ++ [MapComponent.Polyline coordinates (index + 1)
                  (MapComponent.totalDistance rd) (MapComponent.secaDistance rd)]
            ++ ms)
    /\ Forall (fun l => exists c, l = MapComponent.waypointMarker c
                                  /\ In c coordinates) ms.
Proof.
  intros Hw coordinates. unfold MapComponent.drawSegment. rewrite Hw.
  cbv zeta.
  change (map (fun w => (MapComponent.wp_lat w, MapComponent.wp_lon w)) (wp :: wps))
    with coordinates.
  destruct (intermediateMarkers_returns coordinates (List.length coordinates) 1)
    as (ms & Hms & Hall).
  exists ms. split; [|exact Hall].
  unfold MapComponent.LatLng in *. rewrite Hms.
  assert (Hlast : nth_error coordinates (List.length coordinates - 1)
                  = Some (latLngOf (last (wp :: wps) wp))).
  { subst coordinates. rewrite length_map.
    rewrite nth_error_map.
    rewrite (@nth_error_last_index _ (wp :: wps) wp) by discriminate.
    reflexivity. }
  rewrite Hlast. cbn [nth_error coordinates map option_map].
  destruct (Nat.eqb index 0), (Nat.eqb index (count - 1)); reflexivity.
Qed.

Lemma drawSegment_returns (count index : nat) (rd : MapComponent.RoutingData) :
  exists ls : list MapComponent.Layer,
    MapComponent.drawSegment count index rd = Some ls.
Proof.
  destruct (MapComponent.waypoints rd) as [[|wp wps]|] eqn:Hw.
  - exists []. unfold MapComponent.drawSegment. rewrite Hw. reflexivity.
  - destruct (drawSegment_with_waypoints count index rd Hw) as (ms & H & _).
    eexists. exact H.
  - exists []. unfold MapComponent.drawSegment. rewrite Hw. reflexivity.
Qed.

Lemma forEachSegment_returns (count : nat) (segments : list MapComponent.RoutingData) :
  forall index : nat,
    exists layers : list MapComponent.Layer,
      MapComponent.forEachSegment count index segments = Some layers.
Proof.
  induction segments as [|rd rest IH]; intros index.
  - exists []. reflexivity.
  - simpl. destruct (drawSegment_returns count index rd) as [ls Hls].
    destruct (IH (S index)) as [layers Hlayers].
    rewrite Hls, Hlayers. eexists. reflexivity.
Qed.

Lemma displayRoute_returns (route : option (list MapComponent.RoutingData))
    (st : MapComponent.State) :
  exists (st' : MapComponent.State) (calls : list MapComponent.LeafletCall),
    MapComponent.displayRoute route st = Some (st', calls).
Proof.
  unfold MapComponent.displayRoute.
  destruct (MapComponent.leafletMap st);
    [destruct (MapComponent.routeLayerGroup st)|];
    try (eexists; eexists; reflexivity).
  destruct route as [[|rd rest]|]; try (eexists; eexists; reflexivity).
  destruct (forEachSegment_returns (List.length (rd :: rest)) (rd :: rest) 0)
    as [layers Hlayers].
  rewrite Hlayers. eexists; eexists; reflexivity.
Qed.

(** X7.  [displayRoute] returns normally on every route array and in every
    state of the component: none of the array reads it makes is out of range
    (the first and last coordinate of a segment are read only when the segment
    has waypoints, and the marker loop stays below the last index), so no
    member of an undefined coordinate is ever read. *)
Theorem displayRoute_never_throws
    (route : option (list MapComponent.RoutingData)) (st : MapComponent.State) :
  exists (st' : MapComponent.State) (calls : list MapComponent.LeafletCall),
    MapComponent.displayRoute route st = Some (st', calls).
Proof. exact (displayRoute_returns route st). Qed.

(** ** The selection of MapComponent over runs of calls *)

Lemma perform_mapInvariant (call : Call) (st st' : MapComponent.State) :
  perform call st = Some st' -> mapInvariant st -> mapInvariant st'.
Proof.
  unfold mapInvariant. destruct call as [cell| |route]; simpl.
  - intros [= <-] Hst. unfold MapComponent.selectCell.
    destruct (MapComponent.selectionMode st) eqn:Hm; cbn.
    + intros _. discriminate.
    + intros _. apply Hst. reflexivity.
  - intros [= <-] _. unfold MapComponent.resetSelection.
    destruct (MapComponent.routeLayerGroup _); cbn; discriminate.
  - destruct (MapComponent.displayRoute route st) as [[st1 calls]|] eqn:Hr;
      [|discriminate].
    intros [= <-] Hst.
    destruct (displayRoute_keeps_selection _ _ Hr) as [Hs Hm].
    rewrite Hs, Hm. exact Hst.
Qed.

Lemma mapRun_mapInvariant (calls : list Call) :
  forall st st' : MapComponent.State,
    mapRun calls st = Some st' -> mapInvariant st -> mapInvariant st'.
Proof.
  induction calls as [|call rest IH]; intros st st' Hrun Hst.
  - injection Hrun as <-. exact Hst.
  - simpl in Hrun. destruct (perform call st) as [st1|] eqn:Hp; [|discriminate].
    eapply IH; [exact Hrun|]. eapply perform_mapInvariant; eassumption.
Qed.

(** X8.  Starting from a state in source mode (as the component is created),
    after any run of public calls a click on [MapComponent] emits at most one
    event, and an emitted event always has both its source and its destination
    set: destination mode is only ever entered with a source stored. *)
Theorem mapEmbedded_events_are_complete (calls : list Call)
    (st0 st : MapComponent.State) (cell : GridCell) :
  MapComponent.selectionMode st0 = SourceMode ->
  mapRun calls st0 = Some st ->
  let events := emitted (snd (MapComponent.selectCell cell st)) in
  (List.length events <= 1)%nat
  /\ Forall (fun ev => source ev <> None /\ destination ev = Some cell) events.
Proof.
  intros Hmode Hrun.
  assert (Hinv : mapInvariant st).
  { eapply mapRun_mapInvariant; [exact Hrun|].
    unfold mapInvariant. rewrite Hmode. discriminate. }
  unfold MapComponent.selectCell.
  destruct (MapComponent.selectionMode st) eqn:Hm; cbn.
  - split; [lia | constructor].
  - split; [lia|]. constructor; [|constructor].
    split; [apply Hinv; exact Hm | reflexivity].
Qed.

Lemma mapEmbedded_events_are_complete_witness :
  let events :=
    emitted (snd (MapComponent.selectCell cell648 afterFirstClick)) in
  (List.length events <= 1)%nat
  /\ Forall (fun ev => source ev <> None /\ destination ev = Some cell648) events.
Proof.
  exact (@mapEmbedded_events_are_complete [CallSelectCell cell1]
           MapComponent.initial afterFirstClick cell648 eq_refl eq_refl).
Defined.

(** ** The bounds a route is fitted to *)

Lemma inBounds_inside (b b' : MapComponent.Bounds) (p : MapComponent.LatLng) :
  insideBounds b b' -> inBounds b p -> inBounds b' p.
Proof.
  unfold insideBounds, inBounds. intros (Hs & Hn & Hw & He) [[H1 H2] [H3 H4]].
  repeat split; eapply Qle_trans; eassumption.
Qed.

Lemma insideBounds_trans (b1 b2 b3 : MapComponent.Bounds) :
  insideBounds b1 b2 -> insideBounds b2 b3 -> insideBounds b1 b3.
Proof.
  unfold insideBounds. intros (Hs & Hn & Hw & He) (Hs' & Hn' & Hw' & He').
  repeat split; eapply Qle_trans; eassumption.
Qed.

Lemma extend_covers (b0 : option MapComponent.Bounds) (p : MapComponent.LatLng) :
  exists b : MapComponent.Bounds,
    MapComponent.extend b0 p = Some b
    /\ inBounds b p
    /\ (forall b', b0 = Some b' -> insideBounds b' b).
Proof.
  destruct b0 as [b'|]; simpl; eexists; (split; [reflexivity|]); split.
  - unfold inBounds. cbn.
    repeat split;
      [apply Q.le_min_r | apply Q.le_max_r | apply Q.le_min_r | apply Q.le_max_r].
  - intros b'' [= <-]. unfold insideBounds. cbn.
    repeat split;
      [apply Q.le_min_l | apply Q.le_max_l | apply Q.le_min_l | apply Q.le_max_l].
  - unfold inBounds. cbn. repeat split; apply Qle_refl.
  - discriminate.
Qed.

Lemma fold_extend_covers (pts : list MapComponent.LatLng) :
  forall b0 : option MapComponent.Bounds,
    match fold_left MapComponent.extend pts b0 with
    | Some b =>
        (forall p, In p pts -> inBounds b p)
        /\ (forall b', b0 = Some b' -> insideBounds b' b)
    | None => pts = [] /\ b0 = None
    end.
Proof.
  induction pts as [|p pts IH]; intros b0.
  - simpl. destruct b0 as [b|]; [|split; reflexivity].
    split; [intros p []|].
    intros b' [= <-]. unfold insideBounds. repeat split; apply Qle_refl.
  - simpl. destruct (extend_covers b0 p) as (b1 & Hb1 & Hp & Hin).
    rewrite Hb1. specialize (IH (Some b1)).
    destruct (fold_left MapComponent.extend pts (Some b1)) as [b|].
    + destruct IH as [Hall Hgrow]. split.
      * intros q [<-|Hq]; [|apply Hall; exact Hq].
        eapply inBounds_inside; [apply Hgrow; reflexivity | exact Hp].
      * intros b' Hb'. eapply insideBounds_trans;
          [apply Hin; exact Hb' | apply Hgrow; reflexivity].
    + destruct IH as [_ Habs]. discriminate Habs.
Qed.

Lemma getBounds_covers (layers : list MapComponent.Layer) :
  match MapComponent.getBounds layers with
  | Some b => forall l p, In l layers -> In p (MapComponent.layerPoints l) ->
                          inBounds b p
  | None => flat_map MapComponent.layerPoints layers = []
  end.
Proof.
  unfold MapComponent.getBounds.
  pose proof (fold_extend_covers (flat_map MapComponent.layerPoints layers) None) as H.
  destruct (fold_left _ _ _) as [b|].
  - intros l p Hl Hp. apply (proj1 H). apply in_flat_map. exists l. split; assumption.
  - exact (proj1 H).
Qed.

Lemma forEachSegment_polylines (count : nat) (segments : list MapComponent.RoutingData) :
  forall (index : nat) (layers : list MapComponent.Layer),
    MapComponent.forEachSegment count index segments = Some layers ->
    forall (rd : MapComponent.RoutingData) (wps : list MapComponent.Waypoint)
           (wp : MapComponent.Waypoint),
      In rd segments -> MapComponent.waypoints rd = Some wps -> In wp wps ->
      exists l : MapComponent.Layer,
        In l layers /\ In (latLngOf wp) (MapComponent.layerPoints l).
Proof.
  induction segments as [|seg rest IH]; intros index layers Hrun rd wps wp Hin Hw Hwp;
    [destruct Hin|].
  simpl in Hrun.
  destruct (MapComponent.drawSegment count index seg) as [ls|] eqn:Hseg;
    [|discriminate].
  destruct (MapComponent.forEachSegment count (S index) rest) as [more|] eqn:Hrest;
    [|discriminate].
  injection Hrun as <-.
  destruct Hin as [->|Hin].
  - destruct wps as [|w0 wps0]; [destruct Hwp|].
    destruct (drawSegment_with_waypoints count index rd Hw) as (ms & Hls & _).
    rewrite Hls in Hseg. injection Hseg as <-.
    exists (MapComponent.Polyline (map latLngOf (w0 :: wps0)) (index + 1)
              (MapComponent.totalDistance rd) (MapComponent.secaDistance rd)).
    split.
    + apply in_or_app. left. apply in_or_app. right. apply in_or_app. right.
      left. reflexivity.
    + change (In (latLngOf wp) (map latLngOf (w0 :: wps0))).
      apply in_map. exact Hwp.
  - destruct (IH _ _ Hrest rd wps wp Hin Hw Hwp) as (l & Hl & Hp).
    exists l. split; [apply in_or_app; right; exact Hl | exact Hp].
Qed.

Lemma isEmptyRoute_false (segments : list MapComponent.RoutingData) :
  forallb hasNoWaypoints segments = false ->
  exists (rd : MapComponent.RoutingData) (wp : MapComponent.Waypoint)
         (wps : list MapComponent.Waypoint),
    In rd segments /\ MapComponent.waypoints rd = Some (wp :: wps).
Proof.
  induction segments as [|seg rest IH]; [discriminate|].
  simpl. intros H. apply andb_false_iff in H as [H|H].
  - unfold hasNoWaypoints in H.
    destruct (MapComponent.waypoints seg) as [[|wp wps]|] eqn:Hw; try discriminate.
    exists seg, wp, wps. split; [left; reflexivity | exact Hw].
  - destruct (IH H) as (rd & wp & wps & Hin & Hw).
    exists rd, wp, wps. split; [right; exact Hin | exact Hw].
Qed.

(** What [displayRoute] does once the map and the route layer group exist
    and the array has a segment. *)
Lemma displayRoute_ready (segments : list MapComponent.RoutingData)
    (st st' : MapComponent.State) (calls : list MapComponent.LeafletCall) :
  MapComponent.leafletMap st <> None ->
  MapComponent.routeLayerGroup st <> None ->
  segments <> [] ->
  MapComponent.displayRoute (Some segments) st = Some (st', calls) ->
  exists layers : list MapComponent.Layer,
    MapComponent.forEachSegment (List.length segments) 0 segments = Some layers
    /\ st' = MapComponent.setRouteLayers (Some layers) st
    /\ calls = MapComponent.ClearLayers :: map MapComponent.AddTo layers
               ++ match MapComponent.getBounds layers with
                  | Some b => [MapComponent.FitBounds b (50, 50)%nat]
                  | None => []
                  end.
Proof.
  intros Hmap Hgroup Hne. unfold MapComponent.displayRoute.
  destruct (MapComponent.leafletMap st); [|congruence].
  destruct (MapComponent.routeLayerGroup st); [|congruence].
  destruct segments as [|rd rest]; [congruence|].
  destruct (MapComponent.forEachSegment _ 0 (rd :: rest)) as [layers|];
    [|discriminate].
  intros [= <- <-]. exists layers. repeat split.
Qed.

Lemma added_calls (layers : list MapComponent.Layer)
    (fit : list MapComponent.LeafletCall) :
  (forall c, In c fit -> exists b pad, c = MapComponent.FitBounds b pad) ->
  added (MapComponent.ClearLayers :: map MapComponent.AddTo layers ++ fit) = layers.
Proof.
  intros Hfit. unfold added. cbn [flat_map app]. rewrite flat_map_app.
  assert (H1 : flat_map (fun c => match c with
                                  | MapComponent.AddTo l => [l]
                                  | _ => []
                                  end) (map MapComponent.AddTo layers) = layers).
  { induction layers as [|l ls IH]; [reflexivity|]. simpl. rewrite IH. reflexivity. }
  rewrite H1.
  assert (H2 : flat_map (fun c => match c with
                                  | MapComponent.AddTo l => [l]
                                  | _ => []
                                  end) fit = []).
  { induction fit as [|c fit IH]; [reflexivity|]. simpl.
    destruct (Hfit c (or_introl eq_refl)) as (b & pad & ->).
    apply IH. intros c' Hc'. apply Hfit. right. exact Hc'. }
  rewrite H2. apply app_nil_r.
Qed.

(** With nothing to draw, the calls are [clearLayers] alone, or none. *)
Lemma displayRoute_nothing_to_draw_calls
    (route : option (list MapComponent.RoutingData)) (st : MapComponent.State) :
  isEmptyRoute route = true ->
  MapComponent.displayRoute route st
  = Some (MapComponent.setRouteLayers (Some []) st, [MapComponent.ClearLayers])
  \/ MapComponent.displayRoute route st = Some (st, []).
Proof.
  intros Hempty. unfold MapComponent.displayRoute.
  destruct (MapComponent.leafletMap st);
    [destruct (MapComponent.routeLayerGroup st)|]; try (right; reflexivity).
  left. destruct route as [[|rd rest]|]; try reflexivity.
  unfold isEmptyRoute in Hempty.
  rewrite (forEachSegment_no_waypoints _ _ Hempty). reflexivity.
Qed.

(** X9.  Whenever [displayRoute] fits the map, it does so with padding
    (50, 50) to a rectangle that contains every waypoint of every segment; and
    it does fit the map as soon as the map and the layer group exist and some
    segment has a waypoint. *)
Theorem displayRoute_fits_all_waypoints
    (route : option (list MapComponent.RoutingData))
    (st st' : MapComponent.State) (calls : list MapComponent.LeafletCall) :
  MapComponent.displayRoute route st = Some (st', calls) ->
  (forall (b : MapComponent.Bounds) (pad : nat * nat),
      In (MapComponent.FitBounds b pad) calls ->
      pad = (50, 50)%nat
      /\ forall (segments : list MapComponent.RoutingData)
                (rd : MapComponent.RoutingData)
                (wps : list MapComponent.Waypoint) (wp : MapComponent.Waypoint),
           route = Some segments -> In rd segments ->
           MapComponent.waypoints rd = Some wps -> In wp wps ->
           inBounds b (latLngOf wp))
  /\ (MapComponent.leafletMap st <> None ->
      MapComponent.routeLayerGroup st <> None ->
      isEmptyRoute route = false ->
      exists b : MapComponent.Bounds,
        In (MapComponent.FitBounds b (50, 50)%nat) calls).
Proof.
  intros Hrun.
  destruct (isEmptyRoute route) eqn:Hempty.
  { destruct (displayRoute_nothing_to_draw_calls route st Hempty) as [Hcalls|Hcalls];
      rewrite Hrun in Hcalls; injection Hcalls as _ ->.
    - split; [intros b pad [H|[]]; discriminate H | intros _ _ H; discriminate H].
    - split; [intros b pad [] | intros _ _ H; discriminate H]. }
  destruct route as [segments|]; [|discriminate Hempty].
  cbn [isEmptyRoute] in Hempty.
  destruct (isEmptyRoute_false _ Hempty) as (rd0 & wp0 & wps0 & Hin0 & Hw0).
  destruct (MapComponent.leafletMap st) as [view|] eqn:Hmap.
  2:{ unfold MapComponent.displayRoute in Hrun. rewrite Hmap in Hrun.
      injection Hrun as _ <-. split; [intros b pad []|congruence]. }
  destruct (MapComponent.routeLayerGroup st) as [old|] eqn:Hgroup.
  2:{ unfold MapComponent.displayRoute in Hrun. rewrite Hmap, Hgroup in Hrun.
      injection Hrun as _ <-. split; [intros b pad []|congruence]. }
  assert (Hne : segments <> []) by (intros ->; destruct Hin0).
  destruct (@displayRoute_ready segments st st' calls) as (layers & Hlayers & _ & ->);
    try congruence.
  pose proof (getBounds_covers layers) as Hb.
  destruct (forEachSegment_polylines _ _ _ Hlayers rd0 wp0 Hin0 Hw0
              (or_introl eq_refl)) as (l0 & Hl0 & Hp0).
  destruct (MapComponent.getBounds layers) as [b0|].
  - split.
    + intros b pad [Hc|Hc]; [discriminate Hc|].
      apply in_app_or in Hc as [Hc|[Hc|[]]].
      * apply in_map_iff in Hc as (l & Hl & _). discriminate Hl.
      * injection Hc as <- <-. split; [reflexivity|].
        intros segs rd wps wp [= <-] Hin Hw Hwp.
        destruct (forEachSegment_polylines _ _ _ Hlayers rd wp Hin Hw Hwp)
          as (l & Hl & Hp).
        exact (Hb l _ Hl Hp).
    + intros _ _ _. exists b0. right. apply in_or_app. right. left. reflexivity.
  - exfalso.
    assert (Habs : In (latLngOf wp0) (flat_map MapComponent.layerPoints layers)).
    { apply in_flat_map. exists l0. split; assumption. }
    rewrite Hb in Habs. destruct Habs.
Qed.

Lemma displayRoute_fits_all_waypoints_witness :
  exists b : MapComponent.Bounds,
    In (MapComponent.FitBounds b (50, 50)%nat) demoCalls.
Proof.
  apply (proj2 (@displayRoute_fits_all_waypoints (Some [demoSegment]) mountedState
                  (MapComponent.setRouteLayers (Some (added demoCalls)) mountedState)
                  demoCalls eq_refl));
    solve [reflexivity | cbn; discriminate].
Defined.

(** X10.  After [displayRoute] the route layer group holds exactly the
    layers this call added; what an earlier call had drawn is gone, so drawing
    a route gives the same calls and the same layers whether or not another
    route was shown before. *)
Theorem displayRoute_replaces_previous_route
    (route route' : option (list MapComponent.RoutingData))
    (st st1 : MapComponent.State) (calls1 : list MapComponent.LeafletCall) :
  MapComponent.displayRoute route' st = Some (st1, calls1) ->
  (MapComponent.leafletMap st <> None ->
   MapComponent.routeLayerGroup st <> None ->
   MapComponent.routeLayerGroup st1 = Some (added calls1))
  /\ option_map snd (MapComponent.displayRoute route st1)
     = option_map snd (MapComponent.displayRoute route st)
  /\ option_map (fun r => MapComponent.routeLayerGroup (fst r))
       (MapComponent.displayRoute route st1)
     = option_map (fun r => MapComponent.routeLayerGroup (fst r))
         (MapComponent.displayRoute route st).
Proof.
  intros Hrun.
  assert (Hsame : MapComponent.leafletMap st1 = MapComponent.leafletMap st
                  /\ (MapComponent.routeLayerGroup st1 = None
                      <-> MapComponent.routeLayerGroup st = None)
                  /\ (MapComponent.leafletMap st <> None ->
                      MapComponent.routeLayerGroup st <> None ->
                      MapComponent.routeLayerGroup st1 = Some (added calls1))
                  /\ (MapComponent.leafletMap st = None
                      \/ MapComponent.routeLayerGroup st = None -> st1 = st)).
  { unfold MapComponent.displayRoute in Hrun.
    destruct (MapComponent.leafletMap st) as [view|] eqn:Hmap.
    2:{ injection Hrun as <- <-. rewrite Hmap. repeat split; tauto. }
    destruct (MapComponent.routeLayerGroup st) as [old|] eqn:Hgroup.
    2:{ injection Hrun as <- <-. rewrite Hmap, Hgroup. repeat split; tauto. }
    destruct route' as [[|rd rest]|].
    1,3: injection Hrun as <- <-; cbn; rewrite Hmap;
         repeat split; try reflexivity; try discriminate;
         intros [H|H]; discriminate H.
    destruct (MapComponent.forEachSegment _ 0 (rd :: rest)) as [layers|];
      [|discriminate].
    injection Hrun as <- <-. cbn [MapComponent.setRouteLayers
      MapComponent.leafletMap MapComponent.routeLayerGroup].
    rewrite Hmap. repeat split; try discriminate.
    - intros _ _. f_equal. symmetry. apply added_calls.
      intros c Hc. destruct (MapComponent.getBounds layers); [|destruct Hc].
      destruct Hc as [<-|[]]. eexists; eexists; reflexivity.
    - intros [H|H]; discriminate H. }
  destruct Hsame as (Hmap & Hgroup & Hheld & Hstay).
  split; [exact Hheld|].
  destruct (MapComponent.leafletMap st) as [view|] eqn:Hm.
  2:{ rewrite (Hstay (or_introl eq_refl)). split; reflexivity. }
  destruct (MapComponent.routeLayerGroup st) as [g|] eqn:Hg.
  2:{ rewrite (Hstay (or_intror eq_refl)). split; reflexivity. }
  destruct (MapComponent.routeLayerGroup st1) as [g1|] eqn:Hg1.
  2:{ exfalso. assert (Some g = None) by (apply Hgroup; reflexivity). discriminate. }
  unfold MapComponent.displayRoute. rewrite Hmap, Hm, Hg1, Hg.
  destruct route as [[|rd rest]|]; try (split; reflexivity).
  destruct (MapComponent.forEachSegment _ 0 (rd :: rest)); split; reflexivity.
Qed.

Lemma displayRoute_replaces_previous_route_witness :
  option_map snd (MapComponent.displayRoute (Some [demoSegment]) routeShown)
  = option_map snd (MapComponent.displayRoute (Some [demoSegment]) mountedState).
Proof.
  exact (proj1 (proj2 (@displayRoute_replaces_previous_route
                         (Some [demoSegment]) (Some [emptySegment])
                         routeShown (MapComponent.setRouteLayers (Some []) routeShown)
                         [MapComponent.ClearLayers] eq_refl))).
Defined.

(** ** Which endpoint markers a route gets *)

Lemma Some_inj {A : Type} (a b : A) : Some a = Some b -> a = b.
Proof. intros [= ->]. reflexivity. Qed.

Lemma in_segment_layers (x : MapComponent.Layer)
    (A B ms : list MapComponent.Layer) (P : MapComponent.Layer) :
  In x (A ++ B ++ [P] ++ ms) <-> In x A \/ In x B \/ P = x \/ In x ms.
Proof.
  rewrite !in_app_iff. simpl. tauto.
Qed.

Lemma drawSegment_endpoint_markers (count index : nat)
    (rd : MapComponent.RoutingData) (ls : list MapComponent.Layer)
    (c : MapComponent.LatLng) :
  MapComponent.drawSegment count index rd = Some ls ->
  (In (MapComponent.sourceMarker c) ls
   <-> index = 0%nat
       /\ exists wp wps, MapComponent.waypoints rd = Some (wp :: wps)
                         /\ c = latLngOf wp)
  /\ (In (MapComponent.destinationMarker c) ls
      <-> index = (count - 1)%nat
          /\ exists wp wps, MapComponent.waypoints rd = Some (wp :: wps)
                            /\ c = latLngOf (last (wp :: wps) wp)).
Proof.
  intros Hls.
  destruct (MapComponent.waypoints rd) as [[|wp wps]|] eqn:Hw.
  1,3: unfold MapComponent.drawSegment in Hls; rewrite Hw in Hls;
       injection Hls as <-;
       split; (split; [intros [] | intros (_ & w & ws & H & _); discriminate H]).
  destruct (drawSegment_with_waypoints count index rd Hw) as (ms & Hms & Hall).
  rewrite Hms in Hls. apply Some_inj in Hls. subst ls.
  assert (Hnot : forall l : MapComponent.Layer,
             In l ms -> forall c' : MapComponent.LatLng,
               l <> MapComponent.sourceMarker c'
               /\ l <> MapComponent.destinationMarker c').
  { intros l Hl c'. rewrite Forall_forall in Hall.
    destruct (Hall l Hl) as (c0 & -> & _). split; discriminate. }
  split; rewrite in_segment_layers; split.
  - intros [H|[H|[H|H]]].
    + destruct (Nat.eqb_spec index 0) as [->|]; [|destruct H].
      destruct H as [H|[]]. injection H as <-.
      split; [reflexivity|]. exists wp, wps. split; reflexivity.
    + destruct (Nat.eqb index (count - 1)); [|destruct H].
      destruct H as [H|[]]. discriminate H.
    + discriminate H.
    + exfalso. exact (proj1 (Hnot _ H c) eq_refl).
  - intros (-> & w & ws & Heq & ->). apply Some_inj in Heq.
    injection Heq as <- <-. left. left. reflexivity.
  - intros [H|[H|[H|H]]].
    + destruct (Nat.eqb index 0); [|destruct H].
      destruct H as [H|[]]. discriminate H.
    + destruct (Nat.eqb_spec index (count - 1)) as [->|]; [|destruct H].
      destruct H as [H|[]]. injection H as <-.
      split; [reflexivity|]. exists wp, wps. split; reflexivity.
    + discriminate H.
    + exfalso. exact (proj2 (Hnot _ H c) eq_refl).
  - intros (-> & w & ws & Heq & ->). apply Some_inj in Heq.
    injection Heq as <- <-. right. left.
    rewrite Nat.eqb_refl. left. reflexivity.
Qed.

Lemma forEachSegment_endpoint_markers (count : nat)
    (segments : list MapComponent.RoutingData) (c : MapComponent.LatLng) :
  forall (index : nat) (layers : list MapComponent.Layer),
    MapComponent.forEachSegment count index segments = Some layers ->
    (In (MapComponent.sourceMarker c) layers
     <-> exists j rd wp wps,
           nth_error segments j = Some rd /\ (index + j = 0)%nat
           /\ MapComponent.waypoints rd = Some (wp :: wps) /\ c = latLngOf wp)
    /\ (In (MapComponent.destinationMarker c) layers
        <-> exists j rd wp wps,
              nth_error segments j = Some rd /\ (index + j = count - 1)%nat
              /\ MapComponent.waypoints rd = Some (wp :: wps)
              /\ c = latLngOf (last (wp :: wps) wp)).
Proof.
  induction segments as [|seg rest IH]; intros index layers Hrun.
  - injection Hrun as <-.
    split; (split; [intros [] | intros ([|j] & rd & wp & wps & H & _); discriminate H]).
  - simpl in Hrun.
    destruct (MapComponent.drawSegment count index seg) as [ls|] eqn:Hseg;
      [|discriminate].
    destruct (MapComponent.forEachSegment count (S index) rest) as [more|] eqn:Hrest;
      [|discriminate].
    injection Hrun as <-.
    destruct (drawSegment_endpoint_markers count index seg c Hseg) as [Hs Hd].
    destruct (IH _ _ Hrest) as [IHs IHd].
    split; rewrite in_app_iff; split.
    + intros [H|H].
      * apply Hs in H as (-> & wp & wps & Hw & ->).
        exists 0%nat, seg, wp, wps. repeat split. exact Hw.
      * apply IHs in H as (j & rd & wp & wps & Hn & Hj & _). lia.
    + intros ([|j] & rd & wp & wps & Hn & Hj & Hw & ->).
      * injection Hn as <-. left. apply Hs. split; [lia|].
        exists wp, wps. split; [exact Hw | reflexivity].
      * lia.
    + intros [H|H].
      * apply Hd in H as (Hi & wp & wps & Hw & ->).
        exists 0%nat, seg, wp, wps. repeat split; [lia | exact Hw].
      * apply IHd in H as (j & rd & wp & wps & Hn & Hj & Hw & ->).
        exists (S j), rd, wp, wps. repeat split; [exact Hn | lia | exact Hw].
    + intros ([|j] & rd & wp & wps & Hn & Hj & Hw & ->).
      * injection Hn as <-. left. apply Hd. split; [lia|].
        exists wp, wps. split; [exact Hw | reflexivity].
      * right. apply IHd. exists j, rd, wp, wps.
        repeat split; [exact Hn | lia | exact Hw].
Qed.

(** X11.  On a ready map, [displayRoute] draws a source marker only for the
    first segment and only if that segment has waypoints (at its first
    waypoint), and a destination marker only for the last segment and only if
    that one has waypoints (at its last waypoint): when the first or last
    segment of the array is empty the route is drawn without that endpoint
    marker. *)
Theorem displayRoute_endpoint_markers
    (segments : list MapComponent.RoutingData)
    (st st' : MapComponent.State) (calls : list MapComponent.LeafletCall) :
  MapComponent.leafletMap st <> None ->
  MapComponent.routeLayerGroup st <> None ->
  MapComponent.displayRoute (Some segments) st = Some (st', calls) ->
  forall c : MapComponent.LatLng,
    (In (MapComponent.sourceMarker c) (added calls)
     <-> exists rd wp wps,
           nth_error segments 0 = Some rd
           /\ MapComponent.waypoints rd = Some (wp :: wps) /\ c = latLngOf wp)
    /\ (In (MapComponent.destinationMarker c) (added calls)
        <-> exists rd wp wps,
              nth_error segments (List.length segments - 1) = Some rd
              /\ MapComponent.waypoints rd = Some (wp :: wps)
              /\ c = latLngOf (last (wp :: wps) wp)).
Proof.
  intros Hmap Hgroup Hrun c.
  destruct segments as [|seg rest].
  { destruct (displayRoute_nothing_to_draw_calls (Some []) st eq_refl) as [H|H];
      rewrite Hrun in H; injection H as _ ->;
      split; (split; [intros [] | intros (rd & wp & wps & H & _); discriminate H]). }
  destruct (@displayRoute_ready (seg :: rest) st st' calls Hmap Hgroup
              ltac:(discriminate) Hrun) as (layers & Hlayers & _ & ->).
  rewrite added_calls.
  2:{ intros x Hx. destruct (MapComponent.getBounds layers); [|destruct Hx].
      destruct Hx as [<-|[]]. eexists; eexists; reflexivity. }
  destruct (forEachSegment_endpoint_markers _ _ c _ Hlayers) as [Hs Hd].
  split.
  - rewrite Hs. split.
    + intros (j & rd & wp & wps & Hn & Hj & Hw & ->).
      assert (j = 0%nat) by lia. subst j. exists rd, wp, wps. repeat split; assumption.
    + intros (rd & wp & wps & Hn & Hw & ->).
      exists 0%nat, rd, wp, wps. repeat split; assumption.
  - rewrite Hd. split.
    + intros (j & rd & wp & wps & Hn & Hj & Hw & ->).
      simpl in Hj. subst j. exists rd, wp, wps. repeat split; assumption.
    + intros (rd & wp & wps & Hn & Hw & ->).
      exists (List.length (seg :: rest) - 1)%nat, rd, wp, wps.
      repeat split; assumption.
Qed.

(** An empty segment followed by the demo segment: the route is drawn, and
    the destination marker stands on the last waypoint of the demo segment. *)
Lemma displayRoute_endpoint_markers_witness :
  In (MapComponent.destinationMarker (7, 70))
     (added (MapComponent.ClearLayers
               :: map MapComponent.AddTo headlessLayers
               ++ [MapComponent.FitBounds (MapComponent.mkBounds 0 0 7 70)
                     (50, 50)%nat])).
Proof.
  apply (proj2 (proj2 (@displayRoute_endpoint_markers [emptySegment; demoSegment]
                  mountedState
                  (MapComponent.setRouteLayers (Some headlessLayers) mountedState)
                  _ ltac:(cbn; discriminate) ltac:(cbn; discriminate) eq_refl
                  (7, 70)))).
  eexists; eexists; eexists.
  split; [reflexivity | split; reflexivity].
Defined.

(** ** The on-route test on the grid *)

Lemma isCellOnRoute_iff (cell s d : GridCell) :
  MapComponent.isCellOnRoute cell (Some s) (Some d) = true
  <-> (Qmin (lat s) (lat d) <= lat cell <= Qmax (lat s) (lat d)
       /\ Qmin (lon s) (lon d) <= lon cell <= Qmax (lon s) (lon d)).
Proof.
  unfold MapComponent.isCellOnRoute, QNum.Math_min, QNum.Math_max.
  rewrite !andb_true_iff, !QNum_leb_iff, !QNum_geb_iff. tauto.
Qed.

(** X12.  The on-route test does not depend on which endpoint is the source
    and which the destination, and both endpoints are always on the route. *)
Theorem isCellOnRoute_symmetric (cell s d : GridCell) :
  MapComponent.isCellOnRoute cell (Some s) (Some d)
  = MapComponent.isCellOnRoute cell (Some d) (Some s)
  /\ MapComponent.isCellOnRoute s (Some s) (Some d) = true
  /\ MapComponent.isCellOnRoute d (Some s) (Some d) = true.
Proof.
  repeat split.
  - apply eq_true_iff_eq. rewrite !isCellOnRoute_iff.
    rewrite (Q.min_comm (lat s)), (Q.max_comm (lat s)),
      (Q.min_comm (lon s)), (Q.max_comm (lon s)). reflexivity.
  - apply isCellOnRoute_iff.
    repeat split; first [apply Q.le_min_l | apply Q.le_max_l].
  - apply isCellOnRoute_iff.
    repeat split; first [apply Q.le_min_r | apply Q.le_max_r].
Qed.

(** The cells of the grid are the [cellAt] of their own row and column. *)
Lemma generateGrid_In (cell : GridCell) :
  In cell Grid.generateGrid ->
  (row cell < 18)%nat /\ (col cell < 36)%nat
  /\ cell = Grid.cellAt Grid.latStep Grid.lonStep
              (S (row cell * 36 + col cell)) (row cell) (col cell).
Proof.
  unfold Grid.generateGrid. rewrite generateGridWith_rows.
  intros H. apply in_flat_map in H as (r & Hr & H).
  unfold rowCells in H. apply in_map_iff in H as (c & <- & Hc).
  apply in_seq in Hr. apply in_seq in Hc. cbn [row col Grid.cellAt].
  repeat split; try (unfold Grid.gridRows, Grid.gridCols in *; lia).
Qed.

Lemma generateGrid_lat (cell : GridCell) :
  In cell Grid.generateGrid -> lat cell == inject_Z (85 - 10 * Z.of_nat (row cell)).
Proof.
  intros H. destruct (generateGrid_In H) as (_ & _ & Hc).
  rewrite Hc at 1. apply cellAt_lat.
Qed.

Lemma generateGrid_lon (cell : GridCell) :
  In cell Grid.generateGrid -> lon cell == inject_Z (-175 + 10 * Z.of_nat (col cell)).
Proof.
  intros H. destruct (generateGrid_In H) as (_ & _ & Hc).
  rewrite Hc at 1. apply cellAt_lon.
Qed.

Lemma lat_order (a b : nat) :
  inject_Z (85 - 10 * Z.of_nat a) <= inject_Z (85 - 10 * Z.of_nat b) <-> (b <= a)%nat.
Proof. rewrite <- Zle_Qle. lia. Qed.

Lemma lon_order (a b : nat) :
  inject_Z (-175 + 10 * Z.of_nat a) <= inject_Z (-175 + 10 * Z.of_nat b)
  <-> (a <= b)%nat.
Proof. rewrite <- Zle_Qle. lia. Qed.

Lemma grid_rows_and_columns (cell s d : GridCell) :
  In cell Grid.generateGrid -> In s Grid.generateGrid -> In d Grid.generateGrid ->
  (MapComponent.isCellOnRoute cell (Some s) (Some d) = true
   <-> (Nat.min (row s) (row d) <= row cell <= Nat.max (row s) (row d)
        /\ Nat.min (col s) (col d) <= col cell <= Nat.max (col s) (col d))%nat).
Proof.
  intros Hc Hs Hd. rewrite isCellOnRoute_iff.
  rewrite Q.min_le_iff, Q.max_le_iff, Q.min_le_iff, Q.max_le_iff.
  rewrite (generateGrid_lat Hc), (generateGrid_lat Hs), (generateGrid_lat Hd).
  rewrite (generateGrid_lon Hc), (generateGrid_lon Hs), (generateGrid_lon Hd).
  rewrite !lat_order, !lon_order. lia.
Qed.

(** X13.  For cells of the generated grid, a cell is on the route between
    two selected cells exactly when its row lies between their rows and its
    column between their columns. *)
Theorem isCellOnRoute_rows_and_columns (cell s d : GridCell) :
  In cell Grid.generateGrid -> In s Grid.generateGrid -> In d Grid.generateGrid ->
  (MapComponent.isCellOnRoute cell (Some s) (Some d) = true
   <-> (Nat.min (row s) (row d) <= row cell <= Nat.max (row s) (row d)
        /\ Nat.min (col s) (col d) <= col cell <= Nat.max (col s) (col d))%nat).
Proof. exact (@grid_rows_and_columns cell s d). Qed.

Lemma cell1_in_grid : In cell1 Grid.generateGrid.
Proof.
  apply (nth_error_In _ 0). exact (generateGridWith_nth Grid.latStep Grid.lonStep
    (rows := 18) (cols := 36) (r := 0) (c := 0) ltac:(lia) ltac:(lia)).
Qed.

Lemma cell648_in_grid : In cell648 Grid.generateGrid.
Proof.
  apply (nth_error_In _ 647). exact (generateGridWith_nth Grid.latStep Grid.lonStep
    (rows := 18) (cols := 36) (r := 17) (c := 35) ltac:(lia) ltac:(lia)).
Qed.

Lemma isCellOnRoute_rows_and_columns_witness :
  MapComponent.isCellOnRoute cell648 (Some cell1) (Some cell648) = true
  <-> (Nat.min 0 17 <= 17 <= Nat.max 0 17 /\ Nat.min 0 35 <= 35 <= Nat.max 0 35)%nat.
Proof.
  exact (isCellOnRoute_rows_and_columns cell648_in_grid cell1_in_grid cell648_in_grid).
Defined.

(** ** The grid layer tiles the world *)

Lemma generateGrid_ids : map id Grid.generateGrid = seq 1 648.
Proof. unfold Grid.generateGrid. rewrite generateGridWith_ids. reflexivity. Qed.

Lemma generateGrid_length : List.length Grid.generateGrid = 648%nat.
Proof. rewrite <- (length_map id), generateGrid_ids, length_seq. reflexivity. Qed.

Lemma cellBounds_grid (cell : GridCell) :
  In cell Grid.generateGrid ->
  MapComponent.south (MapLayers.cellBounds cell)
    == inject_Z (80 - 10 * Z.of_nat (row cell))
  /\ MapComponent.north (MapLayers.cellBounds cell)
     == inject_Z (90 - 10 * Z.of_nat (row cell))
  /\ MapComponent.west (MapLayers.cellBounds cell)
     == inject_Z (-180 + 10 * Z.of_nat (col cell))
  /\ MapComponent.east (MapLayers.cellBounds cell)
     == inject_Z (-170 + 10 * Z.of_nat (col cell)).
Proof.
  intros H. unfold MapLayers.cellBounds.
  cbn [MapComponent.south MapComponent.north MapComponent.west MapComponent.east].
  rewrite (generateGrid_lat H), (generateGrid_lon H).
  unfold Grid.latStep, Grid.lonStep, Zminus.
  rewrite !inject_Z_plus, !inject_Z_opp, !inject_Z_mult.
  repeat split; field.
Qed.

(** The index of the 10-degree band that holds [x], counted from [0], the
    upper end of the range falling in the last band. *)
Lemma band_of (x : Q) (n : Z) :
  (0 < n)%Z -> 0 <= x -> x <= inject_Z (10 * n) ->
  exists k : nat,
    (Z.of_nat k < n)%Z
    /\ inject_Z (10 * Z.of_nat k) <= x <= inject_Z (10 * Z.of_nat k + 10).
Proof.
  intros Hn H0 Hx.
  pose proof (Qfloor_le (x / 10)) as Hlo.
  pose proof (Qlt_floor (x / 10)) as Hhi.
  assert (Hpos : (0 <= Qfloor (x / 10))%Z).
  { change 0%Z with (Qfloor 0). apply Qfloor_resp_le.
    apply Qle_shift_div_l; [reflexivity | Lqa.lra]. }
  assert (Hx10 : x == (x / 10) * 10) by field.
  set (q := x / 10) in *. clearbody q.
  rewrite inject_Z_plus in Hhi.
  destruct (Z_lt_le_dec (Qfloor q) n) as [Hlt|Hge].
  - exists (Z.to_nat (Qfloor q)). rewrite Z2Nat.id by exact Hpos.
    split; [exact Hlt|].
    rewrite inject_Z_plus, inject_Z_mult.
    change (inject_Z 10) with 10. change (inject_Z 1) with 1 in Hhi. Lqa.lra.
  - exists (Z.to_nat (n - 1)). rewrite Z2Nat.id by lia.
    split; [lia|].
    assert (Hn' : inject_Z n <= inject_Z (Qfloor q)) by (rewrite <- Zle_Qle; exact Hge).
    rewrite inject_Z_mult in Hx.
    unfold Zminus. rewrite !inject_Z_plus, !inject_Z_mult, inject_Z_plus.
    change (inject_Z (- (1))) with (-1). change (inject_Z 10) with 10 in *.
    change (inject_Z 1) with 1 in Hhi. Lqa.lra.
Qed.

(** X14.  [addGridToMap] adds one rectangle and one numbered marker per
    cell and registers the markers under the ids 1..648.  Every rectangle lies
    inside the world, every marker inside its rectangle, and the rectangles
    cover the world: every point with latitude in [-90, 90] and longitude in
    [-180, 180] lies in the rectangle of some cell. *)
Theorem addGridToMap_tiles_the_world (st : MapComponent.State)
    (old : list (MapLayers.Rectangle * MapLayers.LabelMarker))
    (weather : option (list MapLayers.Rectangle)) :
  MapComponent.leafletMap st <> None ->
  let r := MapLayers.addGridToMap Grid.generateGrid st
             (MapLayers.mkGroups (Some old) weather) in
  exists added : list (MapLayers.Rectangle * MapLayers.LabelMarker),
    MapLayers.gridLayerGroup (fst r) = Some (old ++ added)
    /\ List.length added = 648%nat
    /\ map fst (snd r) = seq 1 648
    /\ (forall rect marker, In (rect, marker) added ->
          insideBounds (MapLayers.bounds rect) worldBounds
          /\ inBounds (MapLayers.bounds rect) (MapLayers.position marker)
          /\ MapLayers.onClick rect = MapLayers.markerClick marker)
    /\ (forall p : MapComponent.LatLng,
          inBounds worldBounds p ->
          exists rect marker, In (rect, marker) added
                              /\ inBounds (MapLayers.bounds rect) p).
Proof.
  intros Hmap r. subst r. unfold MapLayers.addGridToMap.
  destruct (MapComponent.leafletMap st); [|congruence].
  cbn [MapLayers.gridLayerGroup fst snd].
  exists (map MapLayers.gridLayersOf Grid.generateGrid).
  split; [reflexivity|].
  split; [rewrite length_map; apply generateGrid_length|].
  split.
  { rewrite map_map. cbn [fst]. apply generateGrid_ids. }
  split.
  - intros rect marker Hin. apply in_map_iff in Hin as (cell & Heq & Hcell).
    injection Heq as <- <-. cbn [MapLayers.bounds MapLayers.position
      MapLayers.onClick MapLayers.markerClick].
    destruct (cellBounds_grid Hcell) as (Hs & Hn & Hw & He).
    destruct (generateGrid_In Hcell) as (Hr & Hc & _).
    split; [|split; [|reflexivity]].
    + unfold insideBounds, worldBounds. cbn [MapComponent.south MapComponent.north
        MapComponent.west MapComponent.east].
      rewrite Hs, Hn, Hw, He.
      change (-90) with (inject_Z (-90)). change 90 with (inject_Z 90).
      change (-180) with (inject_Z (-180)). change 180 with (inject_Z 180).
      rewrite <- !Zle_Qle. lia.
    + unfold inBounds, MapLayers.cellBounds, Grid.latStep, Grid.lonStep.
      cbn [MapComponent.south MapComponent.north MapComponent.west
           MapComponent.east fst snd].
      assert (H5 : 10 / 2 == 5) by reflexivity. rewrite H5.
      repeat split; Lqa.lra.
  - intros [phi lam] (Hphi & Hlam). unfold worldBounds in Hphi, Hlam. cbn in Hphi, Hlam.
    destruct (@band_of (90 - phi) 18) as (r & Hr & Hrb); try lia;
      try (change (inject_Z (10 * 18)) with 180); try Lqa.lra.
    destruct (@band_of (lam + 180) 36) as (c & Hc & Hcb); try lia;
      try (change (inject_Z (10 * 36)) with 360); try Lqa.lra.
    assert (Hcell : In (Grid.cellAt Grid.latStep Grid.lonStep (S (r * 36 + c)) r c)
                      Grid.generateGrid).
    { eapply nth_error_In.
      apply (generateGridWith_nth Grid.latStep Grid.lonStep (rows := 18) (cols := 36));
        lia. }
    set (cell0 := Grid.cellAt Grid.latStep Grid.lonStep (S (r * 36 + c)) r c) in *.
    exists (fst (MapLayers.gridLayersOf cell0)), (snd (MapLayers.gridLayersOf cell0)).
    split.
    { change (In (MapLayers.gridLayersOf cell0)
                (map MapLayers.gridLayersOf Grid.generateGrid)).
      apply in_map. exact Hcell. }
    cbn [fst MapLayers.gridLayersOf MapLayers.bounds].
    destruct (cellBounds_grid Hcell) as (Hs & Hn & Hw & He).
    subst cell0. cbn [row col Grid.cellAt] in Hs, Hn, Hw, He.
    unfold inBounds. cbn [fst snd]. rewrite Hs, Hn, Hw, He.
    unfold Zminus. rewrite !inject_Z_plus, !inject_Z_opp, !inject_Z_mult.
    rewrite !inject_Z_plus, !inject_Z_mult in Hrb, Hcb.
    change (inject_Z 10) with 10 in *. change (inject_Z 80) with 80.
    change (inject_Z 90) with 90. change (inject_Z (-180)) with (-180).
    change (inject_Z (-170)) with (-170).
    repeat split; Lqa.lra.
Qed.

Lemma addGridToMap_tiles_the_world_witness :
  let r := MapLayers.addGridToMap Grid.generateGrid mountedState
             (MapLayers.mkGroups (Some []) (Some [])) in
  exists added : list (MapLayers.Rectangle * MapLayers.LabelMarker),
    MapLayers.gridLayerGroup (fst r) = Some ([] ++ added)
    /\ List.length added = 648%nat
    /\ map fst (snd r) = seq 1 648
    /\ (forall rect marker, In (rect, marker) added ->
          insideBounds (MapLayers.bounds rect) worldBounds
          /\ inBounds (MapLayers.bounds rect) (MapLayers.position marker)
          /\ MapLayers.onClick rect = MapLayers.markerClick marker)
    /\ (forall p : MapComponent.LatLng,
          inBounds worldBounds p ->
          exists rect marker, In (rect, marker) added
                              /\ inBounds (MapLayers.bounds rect) p).
Proof.
  apply (@addGridToMap_tiles_the_world mountedState [] (Some [])).
  cbn. discriminate.
Defined.

(** ** World map and heat map *)

(** X15.  In world mode, after a click on grid cell [a] and then on grid
    cell [b], [showWorldMap] draws one rectangle per cell and the red ones are
    exactly the cells whose row lies between the rows of [a] and [b] and whose
    column lies between their columns; after the first click alone (no
    destination stored) every rectangle is blue. *)
Theorem showWorldMap_highlights_selection (a b : GridCell)
    (st : MapComponent.State) (groups : MapLayers.Groups) :
  In a Grid.generateGrid -> In b Grid.generateGrid ->
  MapComponent.selectionMode st = SourceMode ->
  MapLayers.gridLayerGroup groups <> None ->
  MapLayers.weatherLayerGroup groups <> None ->
  let afterOne := fst (MapComponent.selectCell a st) in
  let afterTwo := fst (MapComponent.selectCell b afterOne) in
  (exists rects : list MapLayers.Rectangle,
      MapLayers.weatherLayerGroup
        (MapLayers.showWorldMap Grid.generateGrid afterTwo groups) = Some rects
      /\ map MapLayers.onClick rects = Grid.generateGrid
      /\ forall rect : MapLayers.Rectangle,
           In rect rects ->
           let cell := MapLayers.onClick rect in
           (MapLayers.color rect = "#FF6B6B"%string
            \/ MapLayers.color rect = "#4169E1"%string)
           /\ (MapLayers.color rect = "#FF6B6B"%string
               <-> (Nat.min (row a) (row b) <= row cell <= Nat.max (row a) (row b)
                    /\ Nat.min (col a) (col b) <= col cell
                       <= Nat.max (col a) (col b))%nat))
  /\ (destination (MapComponent.selectedCoordinates st) = None ->
      exists rects : list MapLayers.Rectangle,
        MapLayers.weatherLayerGroup
          (MapLayers.showWorldMap Grid.generateGrid afterOne groups) = Some rects
        /\ map MapLayers.onClick rects = Grid.generateGrid
        /\ forall rect : MapLayers.Rectangle,
             In rect rects -> MapLayers.color rect = "#4169E1"%string).
Proof.
  intros Ha Hb Hmode Hgrid Hweather afterOne afterTwo.
  assert (Hone : MapComponent.selectedCoordinates afterOne
                 = mkSelected (Some a)
                     (destination (MapComponent.selectedCoordinates st))
                 /\ MapComponent.selectionMode afterOne = DestinationMode).
  { subst afterOne. unfold MapComponent.selectCell. rewrite Hmode. split; reflexivity. }
  destruct Hone as [Hsel1 Hmode1].
  assert (Htwo : MapComponent.selectedCoordinates afterTwo
                 = mkSelected (Some a) (Some b)).
  { subst afterTwo. unfold MapComponent.selectCell. rewrite Hmode1, Hsel1. reflexivity. }
  assert (Hclicks : forall s d,
             map MapLayers.onClick (map (MapLayers.worldRectangle s d) Grid.generateGrid)
             = Grid.generateGrid).
  { intros s d. rewrite map_map. cbn [MapLayers.onClick MapLayers.worldRectangle].
    apply map_id. }
  unfold MapLayers.showWorldMap.
  destruct (MapLayers.gridLayerGroup groups); [|congruence].
  destruct (MapLayers.weatherLayerGroup groups); [|congruence].
  cbn [MapLayers.weatherLayerGroup]. split.
  - eexists. split; [reflexivity|]. split; [apply Hclicks|].
    rewrite Htwo. cbn [source destination].
    intros rect Hin. apply in_map_iff in Hin as (cell & <- & Hcell).
    cbn [MapLayers.onClick MapLayers.color MapLayers.worldRectangle].
    rewrite <- (grid_rows_and_columns Hcell Ha Hb).
    destruct (MapComponent.isCellOnRoute cell (Some a) (Some b)).
    + split; [left; reflexivity|]. split; reflexivity.
    + split; [right; reflexivity|]. split; discriminate.
  - intros Hdest. eexists. split; [reflexivity|]. split; [apply Hclicks|].
    rewrite Hsel1, Hdest. cbn [source destination].
    intros rect Hin. apply in_map_iff in Hin as (cell & <- & Hcell).
    reflexivity.
Qed.

Lemma showWorldMap_highlights_selection_witness :
  exists rects : list MapLayers.Rectangle,
    MapLayers.weatherLayerGroup
      (MapLayers.showWorldMap Grid.generateGrid
         (fst (MapComponent.selectCell cell1 mountedState)) emptyGroups)
    = Some rects
    /\ map MapLayers.onClick rects = Grid.generateGrid
    /\ forall rect : MapLayers.Rectangle,
         In rect rects -> MapLayers.color rect = "#4169E1"%string.
Proof.
  apply (proj2 (@showWorldMap_highlights_selection cell1 cell648 mountedState
                  emptyGroups cell1_in_grid cell648_in_grid eq_refl
                  ltac:(cbn; discriminate) ltac:(cbn; discriminate))).
  reflexivity.
Defined.

Lemma mapM_Forall_In {A B : Type} (P : B -> Prop) (f : A -> M B) (l : list A) :
  (forall a w, In a l -> P (fst (f a w))) ->
  forall w : World, Forall P (fst (mapM f l w)).
Proof.
  induction l as [|a l IH]; intros Hf w; [constructor|].
  simpl. rewrite !bind_run. simpl. constructor.
  - apply Hf. left. reflexivity.
  - apply IH. intros a' w' Ha'. apply Hf. right. exact Ha'.
Qed.

Lemma Q2R_inject_Z (z : Z) : Q2R (inject_Z z) = IZR z.
Proof. unfold Q2R. simpl. rewrite Rinv_1. apply Rmult_1_r. Qed.

Lemma grid_latitude_cos (cell : GridCell) :
  In cell Grid.generateGrid -> (0 <= cos (Q2R (lat cell) * PI / 180))%R.
Proof.
  intros Hcell. destruct (generateGrid_In Hcell) as (Hr & _ & _).
  rewrite (Qeq_eqR _ _ (generateGrid_lat Hcell)), Q2R_inject_Z.
  assert (Hlat : (-85 <= IZR (85 - 10 * Z.of_nat (row cell)) <= 85)%R).
  { split; apply IZR_le; lia. }
  pose proof PI_RGT_0 as Hpi.
  apply cos_ge_0; Lra.nra.
Qed.

Section HeatMap.
Variable random : nat -> R.
Hypothesis random_unit : forall k : nat, (0 <= random k < 1)%R.

Lemma heatRectangle_warm (s d : option GridCell) (cell : GridCell) (w : World) :
  In cell Grid.generateGrid ->
  let h := fst (MapLayers.heatRectangle random s d cell w) in
  In (MapLayers.heatFill h) ["#00FF00"; "#FFFF00"; "#FF8C00"; "#FF0000"]%string
  /\ MapLayers.heatBounds h = MapLayers.cellBounds cell
  /\ MapLayers.heatClick h = cell
  /\ (MapLayers.heatColor h = "#FFD700"%string
      <-> MapComponent.isCellOnRoute cell s d = true).
Proof.
  intros Hcell. unfold MapLayers.heatRectangle, bind, ret,
    WindyWeatherService.Math_random.
  cbv beta iota zeta. cbn [fst MapLayers.heatFill MapLayers.heatBounds
    MapLayers.heatClick MapLayers.heatColor].
  pose proof (grid_latitude_cos Hcell) as Hcos.
  pose proof (random_unit (cursor w)) as Hr.
  set (t := (15 + cos (Q2R (lat cell) * PI / 180) * 20 + random (cursor w) * 10)%R).
  assert (Ht : (15 <= t)%R) by (subst t; Lra.lra).
  assert (Hfill : In (MapLayers.getTemperatureColor t)
                    ["#00FF00"; "#FFFF00"; "#FF8C00"; "#FF0000"]%string
                  /\ MapLayers.getTemperatureColor t <> "#FFD700"%string).
  { unfold MapLayers.getTemperatureColor. cbn [js_lt lit JsNumber_R].
    destruct (RNum.ltb t 0) eqn:E0; [apply RNum_ltb_true in E0; exfalso; Lra.lra|].
    destruct (RNum.ltb t 10) eqn:E10; [apply RNum_ltb_true in E10; exfalso; Lra.lra|].
    destruct (RNum.ltb t 20), (RNum.ltb t 25), (RNum.ltb t 30);
      (split; [simpl; tauto | discriminate]). }
  destruct Hfill as [Hin Hne].
  split; [exact Hin|]. split; [reflexivity|]. split; [reflexivity|].
  destruct (MapComponent.isCellOnRoute cell s d).
  - split; reflexivity.
  - split; [intros H; exfalso; exact (Hne H) | discriminate].
Qed.

(** X16.  The heat map gives every cell of the grid a temperature of at
    least 15 (the cosine of a grid latitude is never negative), so its fill is
    never one of the two blue colours; one rectangle is drawn per cell over the
    cell's bounds, and its border is gold exactly when the cell is on the
    route. *)
Theorem addTemperatureHeatmap_never_blue (st : MapComponent.State)
    (groups : MapLayers.Groups) (w : World) :
  let rects :=
    fst (MapLayers.addTemperatureHeatmap random Grid.generateGrid st groups w) in
  (MapLayers.weatherLayerGroup groups <> None ->
   map MapLayers.heatClick rects = Grid.generateGrid)
  /\ Forall
       (fun h =>
          In (MapLayers.heatFill h)
            ["#00FF00"; "#FFFF00"; "#FF8C00"; "#FF0000"]%string
          /\ MapLayers.heatBounds h = MapLayers.cellBounds (MapLayers.heatClick h)
          /\ (MapLayers.heatColor h = "#FFD700"%string
              <-> MapComponent.isCellOnRoute (MapLayers.heatClick h)
                    (source (MapComponent.selectedCoordinates st))
                    (destination (MapComponent.selectedCoordinates st)) = true))
       rects.
Proof.
  cbv zeta. unfold MapLayers.addTemperatureHeatmap.
  destruct (MapLayers.weatherLayerGroup groups) as [g|];
    [|split; [congruence | constructor]].
  split.
  - intros _.
    assert (Hclicks : forall (s d : option GridCell) (cells : list GridCell) (w0 : World),
               map MapLayers.heatClick
                 (fst (mapM (MapLayers.heatRectangle random s d) cells w0)) = cells).
    { intros s d cells. induction cells as [|c cells IH]; intros w0; [reflexivity|].
      simpl. rewrite !bind_run. cbn [ret fst map]. rewrite IH. reflexivity. }
    apply Hclicks.
  - apply mapM_Forall_In. intros cell w0 Hcell.
    destruct (heatRectangle_warm (source (MapComponent.selectedCoordinates st))
                (destination (MapComponent.selectedCoordinates st)) w0 Hcell)
      as (Hfill & Hb & Hc & Hcol).
    rewrite Hc. repeat split; try assumption; apply Hcol.
Qed.
End HeatMap.

Lemma addTemperatureHeatmap_never_blue_witness :
  map MapLayers.heatClick
    (fst (MapLayers.addTemperatureHeatmap (fun _ => 0.5%R) Grid.generateGrid
            mountedState emptyGroups freshWorld))
  = Grid.generateGrid.
Proof.
  apply (proj1 (@addTemperatureHeatmap_never_blue (fun _ => 0.5%R) half_is_a_draw
                  mountedState emptyGroups freshWorld)).
  cbn. discriminate.
Defined.

(** ** Ranges of the simulated sample *)

Section RealRanges.
Open Scope R_scope.

Lemma Math_round_between (a b : Z) (x : R) :
  IZR a <= x <= IZR b -> IZR a <= RNum.Math_round x <= IZR b.
Proof.
  intros [Ha Hb]. unfold RNum.Math_round.
  pose proof (Zfloor_bound (x + 0.5)) as [Hlo Hhi].
  split.
  - apply IZR_le. apply Zfloor_lub. Lra.lra.
  - apply IZR_le.
    assert (H : (Zfloor (x + 0.5) < b + 1)%Z); [|lia].
    apply lt_IZR. rewrite plus_IZR. Lra.lra.
Qed.

Lemma Rabs_sin_bound (x : R) : 0 <= Rabs (sin x) <= 1.
Proof.
  split; [apply Rabs_pos|].
  apply Rabs_le. pose proof (SIN_bound x). Lra.lra.
Qed.

(** The remainder has the sign of the dividend and is smaller than the
    divisor. *)
Lemma rem_range (a n : R) :
  0 < n ->
  (0 <= a -> 0 <= RNum.rem a n < n) /\ (a <= 0 -> - n < RNum.rem a n <= 0).
Proof.
  intros Hn. unfold RNum.rem, RNum.trunc.
  assert (Ha : a = a / n * n) by (field; Lra.lra).
  set (q := a / n) in *. clearbody q.
  destruct (Rle_dec 0 q) as [Hq|Hq].
  - pose proof (Zfloor_bound q) as [Hlo Hhi].
    assert (H0 : 0 <= IZR (Zfloor q)).
    { apply IZR_le. apply Zfloor_lub. exact Hq. }
    split; intros Hsign.
    + rewrite Ha. split; Lra.nra.
    + assert (q = 0) by Lra.nra. subst q.
      rewrite ZfloorZ in *. rewrite Ha. split; Lra.lra.
  - apply Rnot_le_lt in Hq.
    pose proof (Zfloor_bound (- q)) as [Hlo Hhi].
    rewrite opp_IZR.
    split; intros Hsign.
    + exfalso. Lra.nra.
    + rewrite Ha. split; Lra.nra.
Qed.

(** A dividend smaller in size than the divisor is its own remainder. *)
Lemma rem_small (a n : R) : - n < a < n -> RNum.rem a n = a.
Proof.
  intros [Hlo Hhi]. unfold RNum.rem, RNum.trunc.
  assert (Hn : 0 < n) by Lra.lra.
  assert (Ha : a = a / n * n) by (field; Lra.lra).
  set (q := a / n) in *. clearbody q.
  assert (Hq : -1 < q < 1) by (split; Lra.nra).
  destruct (Rle_dec 0 q) as [H0|H0].
  - rewrite (Zfloor_eq 0 q) by Lra.lra. Lra.lra.
  - rewrite (Zfloor_eq 0 (- q)) by Lra.lra. cbn. Lra.lra.
Qed.
End RealRanges.

Section SimulatedRanges.
Import WindyWeatherService.
Open Scope R_scope.

Variable random : nat -> R.
Hypothesis random_unit : forall k : nat, 0 <= random k < 1.

Lemma simulatedFrom_ranges (lat lon : R) (w : World) :
  let d := fst (generateSimulatedWeatherData random lat lon w) in
  0.5 <= speed (wind d) < 20.5
  /\ 30 <= rh d <= 95
  /\ 100075 <= pressure d <= 102575
  /\ (exists g : R, gust d = Some g /\ 0.7 <= g <= 41)
  /\ (-90 <= lat <= 90 -> -35.5 <= temp d <= 30.5).
Proof.
  cbv zeta. rewrite generateSimulatedWeatherData_run. cbn [fst].
  pose proof (random_unit (cursor w)) as H1.
  pose proof (random_unit (1 + cursor w)) as H2.
  pose proof (random_unit (3 + cursor w)) as H4.
  pose proof (random_unit (4 + cursor w)) as H5.
  pose proof (random_unit (5 + cursor w)) as H6.
  set (r1 := random (cursor w)) in *. set (r2 := random (1 + cursor w)%nat) in *.
  set (r3 := random (2 + cursor w)%nat) in *. set (r4 := random (3 + cursor w)%nat) in *.
  set (r5 := random (4 + cursor w)%nat) in *. set (r6 := random (5 + cursor w)%nat) in *.
  unfold simulatedFrom. cbn [wind speed rh pressure gust temp].
  pose proof (Rabs_sin_bound (lat * PI / 180)) as Hs.
  pose proof (SIN_bound (lat * PI / 180)) as Hs'.
  pose proof (SIN_bound (lon * 0.1)) as Hl.
  assert (Hspeed : 0.5 <= Rabs (sin (lat * PI / 180)) * 15 + 3 + (r2 - 0.5) * 5 < 20.5)
    by Lra.lra.
  split; [exact Hspeed|].
  split.
  { apply (Math_round_between 30 95). unfold RNum.Math_max, RNum.Math_min.
    split; [apply Rmax_l|]. apply Rmax_lub; [Lra.lra | apply Rmin_l]. }
  split.
  { apply (Math_round_between 100075 102575). Lra.lra. }
  split.
  { eexists. split; [reflexivity|].
    set (s := Rabs (sin (lat * PI / 180)) * 15 + 3 + (r2 - 0.5) * 5) in *.
    assert (Hg : IZR 7 <= s * (1.5 + r6 * 0.5) * 10 <= IZR 410) by (split; Lra.nra).
    apply Math_round_between in Hg. Lra.lra. }
  intros Hlat.
  assert (Habs : 0 <= Rabs lat <= 90).
  { split; [apply Rabs_pos | apply Rabs_le; Lra.lra]. }
  assert (Ht : IZR (-355)
               <= (20 - Rabs lat * 0.5 + sin (lon * 0.1) * 8 + (r1 - 0.5) * 5) * 10
               <= IZR 305) by (split; Lra.lra).
  apply Math_round_between in Ht. Lra.lra.
Qed.

(** X17.  With every draw in [[0, 1)], the simulated sample has a wind speed
    in [[0.5, 20.5)], a relative humidity in [[30, 95]], a pressure in
    [[100075, 102575]] and a gust between 0.7 and 41; for a latitude in
    [[-90, 90]] its temperature lies in [[-35.5, 30.5]]. *)
Theorem simulated_sample_ranges (lat lon : R) (w : World) :
  let d := fst (generateSimulatedWeatherData random lat lon w) in
  0.5 <= speed (wind d) < 20.5
  /\ 30 <= rh d <= 95
  /\ 100075 <= pressure d <= 102575
  /\ (exists g : R, gust d = Some g /\ 0.7 <= g <= 41)
  /\ (-90 <= lat <= 90 -> -35.5 <= temp d <= 30.5).
Proof. exact (simulatedFrom_ranges lat lon w). Qed.

(** X18.  In the simulated sample neither wind component exceeds the speed:
    [|u| <= speed] and [|v| <= speed], the speed being positive. *)
Theorem simulated_wind_components (lat lon : R) (w : World) :
  let d := fst (generateSimulatedWeatherData random lat lon w) in
  0 < speed (wind d)
  /\ Rabs (u (wind d)) <= speed (wind d)
  /\ Rabs (v (wind d)) <= speed (wind d).
Proof.
  destruct (simulatedFrom_ranges lat lon w) as (Hs & _).
  cbv zeta in *. rewrite generateSimulatedWeatherData_run in *. cbn [fst] in *.
  unfold simulatedFrom in *. cbn [wind speed u v] in *.
  set (s := Rabs (sin (lat * PI / 180)) * 15 + 3
            + (random (1 + cursor w)%nat - 0.5) * 5) in *.
  set (a := RNum.rem (lon * 2 + lat + random (2 + cursor w)%nat * 360) 360 * PI / 180).
  pose proof (SIN_bound a) as Hsin. pose proof (COS_bound a) as Hcos.
  split; [Lra.lra|].
  split; apply Rabs_le; split; Lra.nra.
Qed.

(** X19.  The simulated wind direction is the remainder of
    [2 lon + lat + 360 r] by 360 and takes the sign of that sum: it lies in
    [[0, 360)] when the sum is not negative and in [(-360, 0]] when it is
    negative; a sum strictly between -360 and 0, as western longitudes give
    with a small draw, is returned as it is, so the direction is then
    negative. *)
Theorem simulated_direction_range (lat lon : R) (w : World) :
  let d := fst (generateSimulatedWeatherData random lat lon w) in
  let sum := lon * 2 + lat + random (2 + cursor w)%nat * 360 in
  -360 < direction (wind d) < 360
  /\ (0 <= sum -> 0 <= direction (wind d) < 360)
  /\ (sum < 0 -> -360 < direction (wind d) <= 0)
  /\ (-360 < sum < 0 -> direction (wind d) = sum /\ direction (wind d) < 0).
Proof.
  cbv zeta. rewrite generateSimulatedWeatherData_run. cbn [fst].
  unfold simulatedFrom. cbn [wind direction].
  set (sum := lon * 2 + lat + random (2 + cursor w)%nat * 360).
  destruct (@rem_range sum 360 ltac:(Lra.lra)) as [Hpos Hneg].
  split; [|split; [|split]].
  - destruct (Rle_dec 0 sum) as [H|H].
    + specialize (Hpos H). Lra.lra.
    + assert (H' : sum <= 0) by Lra.lra. specialize (Hneg H'). Lra.lra.
  - exact Hpos.
  - intros H. apply Hneg. Lra.lra.
  - intros H. rewrite (@rem_small sum 360) by Lra.lra. split; Lra.lra.
Qed.

(** X20.  A simulated pressure is between 1000.75 and 1025.75 hPa, so the
    pressure colour of simulated data is always yellow or green. *)
Theorem simulated_pressure_colour (lat lon : R) (w : World) :
  let d := fst (generateSimulatedWeatherData random lat lon w) in
  getPressureColor (pressure d) = "#FFFF00"%string
  \/ getPressureColor (pressure d) = "#00FF00"%string.
Proof.
  destruct (simulatedFrom_ranges lat lon w) as (_ & _ & Hp & _).
  cbv zeta in *. set (p := pressure _) in *. clearbody p.
  unfold getPressureColor. cbn [js_lt js_div lit JsNumber_R].
  destruct (RNum.ltb (p / 100) 980) eqn:E1;
    [apply RNum_ltb_true in E1; exfalso; Lra.lra|].
  destruct (RNum.ltb (p / 100) 1000) eqn:E2;
    [apply RNum_ltb_true in E2; exfalso; Lra.lra|].
  destruct (RNum.ltb (p / 100) 1013) eqn:E3; [left; reflexivity|].
  destruct (RNum.ltb (p / 100) 1027) eqn:E4; [right; reflexivity|].
  apply RNum_ltb_false in E4. exfalso. Lra.lra.
Qed.
End SimulatedRanges.

(** A stream whose draws are all 0: at latitude 0 and longitude -10 the
    simulated direction is -20. *)
Lemma simulated_direction_range_witness :
  WindyWeatherService.direction
    (WindyWeatherService.wind
       (fst (WindyWeatherService.generateSimulatedWeatherData
               (fun _ => 0%R) 0 (-10) freshWorld)))
  = (-20)%R.
Proof.
  destruct (proj2 (proj2 (proj2 (@simulated_direction_range (fun _ => 0%R)
                                   0%R (-10)%R freshWorld))))
    as [Heq _].
  - cbv beta. Lra.lra.
  - rewrite Heq. Lra.lra.
Defined.

Lemma simulated_sample_ranges_witness :
  let d := fst (WindyWeatherService.generateSimulatedWeatherData
                  (fun _ => 0.5%R) 0 0 freshWorld) in
  (-35.5 <= WindyWeatherService.temp d <= 30.5)%R.
Proof.
  apply (@simulated_sample_ranges (fun _ => 0.5%R) half_is_a_draw 0%R 0%R freshWorld).
  Lra.lra.
Defined.

Lemma simulated_wind_components_witness :
  let d := fst (WindyWeatherService.generateSimulatedWeatherData
                  (fun _ => 0.5%R) 0 0 freshWorld) in
  (Rabs (WindyWeatherService.u (WindyWeatherService.wind d))
   <= WindyWeatherService.speed (WindyWeatherService.wind d))%R.
Proof.
  exact (proj1 (proj2 (@simulated_wind_components (fun _ => 0.5%R) half_is_a_draw
                         0%R 0%R freshWorld))).
Defined.

Lemma simulated_pressure_colour_witness :
  let d := fst (WindyWeatherService.generateSimulatedWeatherData
                  (fun _ => 0.5%R) 0 0 freshWorld) in
  getPressureColor (WindyWeatherService.pressure d) = "#FFFF00"%string
  \/ getPressureColor (WindyWeatherService.pressure d) = "#00FF00"%string.
Proof.
  exact (@simulated_pressure_colour (fun _ => 0.5%R) half_is_a_draw 0%R 0%R freshWorld).
Defined.

(** ** The parsed sample *)

Section ParsedSample.
Import WindyWeatherService.
Open Scope R_scope.

Lemma Math_atan2_range (y x : R) : - PI < RNum.Math_atan2 y x <= PI.
Proof.
  pose proof PI_RGT_0 as Hpi.
  pose proof (atan_bound (y / x)) as [Hlo Hhi].
  unfold RNum.Math_atan2.
  destruct (Rlt_dec 0 x) as [Hx|Hx]; [Lra.lra|].
  destruct (Rlt_dec x 0) as [Hx'|Hx'].
  - assert (Hq : y / x * x = y) by (field; Lra.lra).
    destruct (Rle_dec 0 y) as [Hy|Hy].
    + assert (Hle : y / x <= 0) by Lra.nra.
      assert (Hat : atan (y / x) <= 0).
      { destruct (Rle_lt_or_eq_dec _ _ Hle) as [Hlt|Heq].
        - apply atan_increasing in Hlt. rewrite atan_0 in Hlt. Lra.lra.
        - rewrite Heq, atan_0. Lra.lra. }
      Lra.lra.
    + assert (Hgt : 0 < y / x) by Lra.nra.
      apply atan_increasing in Hgt. rewrite atan_0 in Hgt. Lra.lra.
  - destruct (Rlt_dec 0 y); [Lra.lra|].
    destruct (Rlt_dec y 0); Lra.lra.
Qed.

(** X21.  Whatever the response holds, the parsed wind has a speed that is
    not negative and a direction in [[0, 360)]. *)
Theorem parsed_wind_is_well_formed (response : WindyApiResponse) (lat lon : R) :
  let d := parseWindyResponse response lat lon in
  0 <= speed (wind d)
  /\ 0 <= direction (wind d) < 360.
Proof.
  cbv zeta. unfold parseWindyResponse. cbn [wind speed direction u v].
  set (windData := match first (resp_wind response) with
                   | Some a => a
                   | None => [0; 0]
                   end).
  set (uu := RNum.orDefault (nth_error windData 0) 0).
  set (vv := RNum.orDefault (nth_error windData 1) 0).
  split; [apply sqrt_pos|].
  pose proof (Math_atan2_range uu vv) as [Hlo Hhi].
  pose proof PI_RGT_0 as Hpi.
  set (A := RNum.Math_atan2 uu vv) in *.
  assert (Hq : A * 180 / PI * PI = A * 180) by (field; Lra.lra).
  assert (Ht : 0 <= A * 180 / PI + 180) by Lra.nra.
  exact (proj1 (@rem_range (A * 180 / PI + 180) 360 ltac:(Lra.lra)) Ht).
Qed.

(** X22.  The parser reads a value through [||], so a reading that is
    present but exactly 0 is replaced by the default like a missing one
    (temperature 15, humidity 50, pressure 101325), while any other reading is
    kept as it is. *)
Theorem parsed_zero_reading_is_replaced
    (response : WindyApiResponse) (lat lon : R)
    (x : R) (row : list R) (rows : list (list R)) :
  let d := parseWindyResponse response lat lon in
  (resp_temp response = Some ((x :: row) :: rows) ->
   (x = 0 -> temp d = 15) /\ (x <> 0 -> temp d = x))
  /\ (resp_rh response = Some ((x :: row) :: rows) ->
      (x = 0 -> rh d = 50) /\ (x <> 0 -> rh d = x))
  /\ (resp_pressure response = Some ((x :: row) :: rows) ->
      (x = 0 -> pressure d = 101325) /\ (x <> 0 -> pressure d = x)).
Proof.
  cbv zeta. unfold parseWindyResponse. cbn [temp rh pressure].
  repeat split; intros Hx; rewrite H; cbn [first nth_error];
    unfold RNum.orDefault; destruct (Req_dec_T x 0); congruence.
Qed.
End ParsedSample.

Lemma parsed_zero_reading_is_replaced_witness :
  WindyWeatherService.temp
    (WindyWeatherService.parseWindyResponse freezingResponse 0 0) = 15%R.
Proof.
  apply (proj1 (proj1 (@parsed_zero_reading_is_replaced freezingResponse 0%R 0%R
                         0%R [] []) eq_refl)).
  reflexivity.
Defined.

(** ** The CAPE layer *)

Section Cape.
Import WindyWeatherService MapComponent.
Open Scope R_scope.

Variable random : nat -> R.
Hypothesis random_unit : forall k : nat, 0 <= random k < 1.

Lemma getWeatherData_no_cape (svc : Service) (lat lon : R) (w : World)
    (d : WindyWeatherData) :
  fst (getWeatherData random svc lat lon w) = Next d -> cape d = None.
Proof.
  destruct (String.eqb_spec (apiKey svc) placeholderKey) as [Hkey|Hkey].
  - rewrite getWeatherData_without_key by assumption.
    intros [= <-]. reflexivity.
  - rewrite getWeatherData_with_key by assumption.
    destruct (http_get svc (requestOf svc lat lon)); intros [= <-]; reflexivity.
Qed.

Lemma drawCapeOverlay_without_cape (canvas : Canvas) (d : WindyWeatherData)
    (w : World) :
  cape d = None -> fst (drawCapeOverlay random canvas d w) = [].
Proof.
  intros Hcape. unfold drawCapeOverlay. rewrite Hcape.
  cbn [RNum.orDefault]. rewrite bind_run. cbn [ret fst].
  assert (Hzero : RNum.Math_min (0 / 3000) 1 = 0).
  { unfold RNum.Math_min. rewrite Rmin_left; Lra.lra. }
  rewrite Hzero.
  generalize (list_prod (steps50 (width canvas)) (steps50 (height canvas))).
  intros l. revert w. induction l as [|xy l IH]; intros w; [reflexivity|].
  cbn [mapM]. rewrite !bind_run. cbn [ret fst List.concat].
  rewrite IH.
  unfold MapComponent.Math_random, WindyWeatherService.Math_random. cbn [fst].
  destruct (RNum.ltb (random (cursor w)) 0) eqn:E; [|reflexivity].
  apply RNum_ltb_true in E. pose proof (random_unit (cursor w)). Lra.lra.
Qed.

Lemma animateFrames_no_storm (frames : nat) (canvas : Canvas)
    (d : option WindyWeatherData) :
  (forall data, d = Some data -> cape data = None) ->
  forall (st : State) (w : World),
    Forall (fun f => stormCells f = [])
      (snd (fst (animateFrames random frames canvas d st w))).
Proof.
  intros Hd. induction frames as [|frames IH]; intros st w; [constructor|].
  cbn [animateFrames]. rewrite !bind_run. cbn [ret fst snd].
  constructor; [|apply IH].
  unfold animate. rewrite !bind_run. cbn [ret fst snd stormCells].
  unfold drawLayerOverlay. destruct d as [data|]; [|reflexivity].
  destruct (currentWeatherLayer st); try reflexivity.
  apply drawCapeOverlay_without_cape. apply Hd. reflexivity.
Qed.

(** X23.  No sample delivered by [getWeatherData] carries a CAPE value:
    the CAPE colour of such a sample is always the green of the weakest
    bucket, and in no frame of the animation does the CAPE overlay draw a
    storm cell, whichever layer is active. *)
Theorem cape_layer_is_inert (svc : Service) (view : MapView) (canvas : Canvas)
    (frames : nat) (st : State) (w : World) :
  (forall (lat lon : R) (w0 : World) (d : WindyWeatherData),
      fst (getWeatherData random svc lat lon w0) = Next d ->
      cape d = None
      /\ forall s : R, getLayerColor LCape d s = "#00FF00"%string)
  /\ Forall (fun f => stormCells f = [])
       (snd (fst (animateWeatherVisualization random svc view canvas frames st w))).
Proof.
  split.
  - intros lat lon w0 d Hd. pose proof (getWeatherData_no_cape _ _ _ _ Hd) as Hc.
    split; [exact Hc|]. intros s. unfold getLayerColor. rewrite Hc.
    cbn [RNum.orDefault]. unfold getCapeColor. cbn [js_lt lit JsNumber_R].
    destruct (RNum.ltb 0 500) eqn:E; [reflexivity|].
    apply RNum_ltb_false in E. exfalso. Lra.lra.
  - unfold animateWeatherVisualization. rewrite bind_run.
    destruct (fst (getWeatherData random svc (center_lat view) (center_lng view) w))
      as [d|e] eqn:Hd.
    + apply animateFrames_no_storm. intros data [= <-].
      eapply getWeatherData_no_cape. exact Hd.
    + apply animateFrames_no_storm. intros data H. discriminate H.
Qed.
End Cape.

Lemma cape_layer_is_inert_witness :
  Forall (fun f => MapComponent.stormCells f = [])
    (snd (fst (MapComponent.animateWeatherVisualization (fun _ => 0.5%R)
                 (WindyWeatherService.shipped unreachable) equator
                 (MapComponent.mkCanvas 1000 600) 3 capeState freshWorld))).
Proof.
  exact (proj2 (@cape_layer_is_inert (fun _ => 0.5%R) half_is_a_draw
                  (WindyWeatherService.shipped unreachable) equator
                  (MapComponent.mkCanvas 1000 600) 3 capeState freshWorld)).
Defined.

(** ** The Beaufort scale *)

Lemma QNum_geb_spec (a b : Q) : BoolSpec (b <= a) (a < b) (QNum.geb a b).
Proof.
  unfold QNum.geb. destruct (Qle_bool b a) eqn:E; constructor.
  - apply Qle_bool_iff. exact E.
  - apply Qnot_le_lt. intros Hle. apply Qle_bool_iff in Hle. congruence.
Qed.

Lemma getBeaufortScale_cases (s : Q) :
  (s < 1 /\ WindyWeatherUnits.getBeaufortScale s = WindyWeatherUnits.scaleAt 0)
  \/ (1 <= s < 2 /\ WindyWeatherUnits.getBeaufortScale s = WindyWeatherUnits.scaleAt 1)
  \/ (2 <= s < 3 /\ WindyWeatherUnits.getBeaufortScale s = WindyWeatherUnits.scaleAt 2)
  \/ (3 <= s < 5.5 /\ WindyWeatherUnits.getBeaufortScale s = WindyWeatherUnits.scaleAt 3)
  \/ (5.5 <= s < 8 /\ WindyWeatherUnits.getBeaufortScale s = WindyWeatherUnits.scaleAt 4)
  \/ (8 <= s < 10.8 /\ WindyWeatherUnits.getBeaufortScale s = WindyWeatherUnits.scaleAt 5)
  \/ (10.8 <= s < 13.9 /\ WindyWeatherUnits.getBeaufortScale s = WindyWeatherUnits.scaleAt 6)
  \/ (13.9 <= s < 17.2 /\ WindyWeatherUnits.getBeaufortScale s = WindyWeatherUnits.scaleAt 7)
  \/ (17.2 <= s < 20.8 /\ WindyWeatherUnits.getBeaufortScale s = WindyWeatherUnits.scaleAt 8)
  \/ (20.8 <= s < 24.4 /\ WindyWeatherUnits.getBeaufortScale s = WindyWeatherUnits.scaleAt 9)
  \/ (24.4 <= s < 28.5 /\ WindyWeatherUnits.getBeaufortScale s = WindyWeatherUnits.scaleAt 10)
  \/ (28.5 <= s < 32.7 /\ WindyWeatherUnits.getBeaufortScale s = WindyWeatherUnits.scaleAt 11)
  \/ (32.7 <= s /\ WindyWeatherUnits.getBeaufortScale s = WindyWeatherUnits.scaleAt 12).
Proof.
  unfold WindyWeatherUnits.getBeaufortScale.
  change (List.length WindyWeatherUnits.scales - 1)%nat with 12%nat.
  cbn [WindyWeatherUnits.scanDown].
  change (WindyWeatherUnits.thresholdAt 12) with 32.7.
  change (WindyWeatherUnits.thresholdAt 11) with 28.5.
  change (WindyWeatherUnits.thresholdAt 10) with 24.4.
  change (WindyWeatherUnits.thresholdAt 9) with 20.8.
  change (WindyWeatherUnits.thresholdAt 8) with 17.2.
  change (WindyWeatherUnits.thresholdAt 7) with 13.9.
  change (WindyWeatherUnits.thresholdAt 6) with 10.8.
  change (WindyWeatherUnits.thresholdAt 5) with 8.
  change (WindyWeatherUnits.thresholdAt 4) with 5.5.
  change (WindyWeatherUnits.thresholdAt 3) with 3.
  change (WindyWeatherUnits.thresholdAt 2) with 2.
  change (WindyWeatherUnits.thresholdAt 1) with 1.
  change (WindyWeatherUnits.thresholdAt 0) with 0.
  destruct (QNum_geb_spec s 32.7); [tauto|].
  destruct (QNum_geb_spec s 28.5); [tauto|].
  destruct (QNum_geb_spec s 24.4); [tauto|].
  destruct (QNum_geb_spec s 20.8); [tauto|].
  destruct (QNum_geb_spec s 17.2); [tauto|].
  destruct (QNum_geb_spec s 13.9); [tauto|].
  destruct (QNum_geb_spec s 10.8); [tauto|].
  destruct (QNum_geb_spec s 8); [tauto|].
  destruct (QNum_geb_spec s 5.5); [tauto|].
  destruct (QNum_geb_spec s 3); [tauto|].
  destruct (QNum_geb_spec s 2); [tauto|].
  destruct (QNum_geb_spec s 1); [tauto|].
  destruct (QNum_geb_spec s 0); tauto.
Qed.

Ltac beaufort_cases s :=
  let H := fresh "Hcase" in
  destruct (getBeaufortScale_cases s)
    as [H|[H|[H|[H|[H|[H|[H|[H|[H|[H|[H|[H|H]]]]]]]]]]]];
  decompose [and] H; clear H.

(** X24.  [getBeaufortScale] returns the entry of the table whose number [k]
    is the largest with [thresholds[k] <= windSpeed]: the speed is below the
    next threshold, the number never exceeds 12 and never decreases when the
    speed grows, and a negative speed gives force 0, Calm. *)
Theorem getBeaufortScale_brackets_speed :
  (forall s : Q,
      let k := WindyWeatherUnits.scale (WindyWeatherUnits.getBeaufortScale s) in
      (k <= 12)%nat
      /\ nth_error WindyWeatherUnits.scales k
         = Some (WindyWeatherUnits.getBeaufortScale s)
      /\ (0 <= s -> WindyWeatherUnits.thresholdAt k <= s)
      /\ ((k < 12)%nat -> s < WindyWeatherUnits.thresholdAt (S k))
      /\ (s < 0 -> k = 0%nat))
  /\ (forall s1 s2 : Q,
         s1 <= s2 ->
         (WindyWeatherUnits.scale (WindyWeatherUnits.getBeaufortScale s1)
          <= WindyWeatherUnits.scale (WindyWeatherUnits.getBeaufortScale s2))%nat).
Proof.
  split.
  - intros s. cbv zeta.
    beaufort_cases s;
      match goal with E : WindyWeatherUnits.getBeaufortScale _ = _ |- _ =>
        rewrite E; clear E end;
      cbn [WindyWeatherUnits.scaleAt WindyWeatherUnits.scales nth
           WindyWeatherUnits.scale];
      (split; [lia|]); (split; [reflexivity|]);
      (split; [intros ?; vm_compute (WindyWeatherUnits.thresholdAt _); Lqa.lra|]);
      (split; [intros ?; first [lia | vm_compute (WindyWeatherUnits.thresholdAt _);
                                      Lqa.lra]|]);
      intros ?; first [reflexivity | exfalso; Lqa.lra].
  - intros s1 s2 Hle.
    beaufort_cases s1; beaufort_cases s2;
      repeat match goal with E : WindyWeatherUnits.getBeaufortScale _ = _ |- _ =>
        rewrite E; clear E end;
      solve [vm_compute; lia | exfalso; Lqa.lra].
Qed.

Lemma getBeaufortScale_brackets_speed_witness :
  (WindyWeatherUnits.scale (WindyWeatherUnits.getBeaufortScale 5.4)
   <= WindyWeatherUnits.scale (WindyWeatherUnits.getBeaufortScale 5.5))%nat.
Proof.
  apply (proj2 getBeaufortScale_brackets_speed). vm_compute. discriminate.
Defined.

(** ** More on the particle pool *)

Section ParticlesMore.
Import WindyWeatherService MapComponent.
Open Scope R_scope.

Variable random : nat -> R.
Hypothesis random_unit : forall k : nat, 0 <= random k < 1.

Lemma freshlySpawned_seeded (p : WindParticle) : freshlySpawned p -> seeded p.
Proof. unfold freshlySpawned, seeded. tauto. Qed.

Lemma wrap_within (limit v : R) :
  0 <= limit ->
  let v2 := if RNum.ltb v (-50) then limit + 50 else v in
  let v3 := if RNum.ltb (limit + 50) v2 then -50 else v2 in
  -50 <= v3 <= limit + 50.
Proof.
  intros Hl. cbv zeta.
  destruct (RNum.ltb v (-50)) eqn:E1.
  - destruct (RNum.ltb (limit + 50) (limit + 50)) eqn:E2.
    + apply RNum_ltb_true in E2. Lra.lra.
    + Lra.lra.
  - apply RNum_ltb_false in E1.
    destruct (RNum.ltb (limit + 50) v) eqn:E2.
    + Lra.lra.
    + apply RNum_ltb_false in E2. Lra.lra.
Qed.

Lemma stepParticle_within (canvas : Canvas) (layer : WeatherLayer)
    (data : option WindyWeatherData) (p : WindParticle) (w : World) :
  withinMargin canvas (fst (fst (stepParticle random canvas layer data p w))).
Proof.
  pose proof (pos_INR (width canvas)) as Hw.
  pose proof (pos_INR (height canvas)) as Hh.
  unfold stepParticle, bind, ret, MapComponent.Math_random,
    WindyWeatherService.Math_random.
  cbv beta iota zeta.
  destruct (RNum.ltb (life p) (INR (S (age p)))).
  - unfold withinMargin. cbn [fst x y cursor console].
    pose proof (random_unit (S (S (cursor w)))) as H3.
    pose proof (random_unit (S (S (S (cursor w))))) as H4.
    split; split; Lra.nra.
  - unfold withinMargin. cbn [fst x y].
    split; [apply (wrap_within (x p + vx p) Hw) | apply (wrap_within (y p + vy p) Hh)].
Qed.

Lemma stepParticle_seeded (canvas : Canvas) (layer : WeatherLayer)
    (data : option WindyWeatherData) (p : WindParticle) (w : World) :
  seeded p -> seeded (fst (fst (stepParticle random canvas layer data p w))).
Proof.
  intros Hp.
  destruct (@stepParticle_cases random random_unit canvas layer data p w)
    as [[_ Hfresh]|(_ & _ & Hlife & Hbright)].
  - apply freshlySpawned_seeded. exact Hfresh.
  - unfold seeded. rewrite Hlife, Hbright. exact Hp.
Qed.

Lemma mapM_Forall_pres {A B : Type} (P : A -> Prop) (Q : B -> Prop) (f : A -> M B) :
  (forall a w, P a -> Q (fst (f a w))) ->
  forall (l : list A) (w : World), Forall P l -> Forall Q (fst (mapM f l w)).
Proof.
  intros Hf l. induction l as [|a l IH]; intros w Hl; [constructor|].
  inversion Hl as [|? ? Ha Hrest]; subst.
  simpl. rewrite !bind_run. simpl. constructor; [apply Hf; exact Ha | apply IH; exact Hrest].
Qed.

Lemma animate_seeded (canvas : Canvas) (data : option WindyWeatherData)
    (st : State) (w : World) :
  Forall seeded (particleSystem st) ->
  let st' := fst (fst (animate random canvas data st w)) in
  Forall seeded (particleSystem st')
  /\ Forall (withinMargin canvas) (particleSystem st').
Proof.
  intros Hst. unfold animate. rewrite !bind_run.
  cbn [ret fst snd setParticles particleSystem].
  split; apply Forall_map.
  - apply (@mapM_Forall_pres _ _ seeded (fun r => seeded (fst r))); [|exact Hst].
    intros a w0 Ha. apply stepParticle_seeded. exact Ha.
  - apply (mapM_Forall (fun r => withinMargin canvas (fst r))).
    intros a w0. apply stepParticle_within.
Qed.

Lemma animateFrames_seeded (frames : nat) (canvas : Canvas)
    (data : option WindyWeatherData) :
  forall (st : State) (w : World),
    Forall seeded (particleSystem st) ->
    let st' := fst (fst (animateFrames random frames canvas data st w)) in
    Forall seeded (particleSystem st')
    /\ ((0 < frames)%nat \/ Forall (withinMargin canvas) (particleSystem st) ->
        Forall (withinMargin canvas) (particleSystem st')).
Proof.
  induction frames as [|frames IH]; intros st w Hst.
  - simpl. split; [exact Hst|]. intros [H|H]; [lia | exact H].
  - cbn [animateFrames]. rewrite !bind_run. cbn [ret fst snd].
    destruct (animate_seeded canvas data st w Hst) as [Hs Hm].
    destruct (IH _ (snd (animate random canvas data st w)) Hs) as [Hs' Hm'].
    split; [exact Hs'|]. intros _. apply Hm'. right. exact Hm.
Qed.

(** X25.  After seeding and any number of frames every particle of the pool
    has a life in [[100, 250)] and a brightness in [[0.5, 1)]; once a frame has
    run, every particle is also within 50 pixels of the canvas
    ([-50 <= x <= width + 50], [-50 <= y <= height + 50]). *)
Theorem particles_stay_seeded_and_near (svc : Service) (view : MapView)
    (canvas : Canvas) (frames : nat) (st : State) (w : World) :
  let pool :=
    particleSystem (fst (fst (onAdd random svc view canvas frames st w))) in
  Forall (fun p => 100 <= life p < 250 /\ 0.5 <= brightness p < 1) pool
  /\ ((0 < frames)%nat ->
      Forall (fun p => -50 <= x p <= INR (width canvas) + 50
                       /\ -50 <= y p <= INR (height canvas) + 50) pool).
Proof.
  cbv zeta. unfold onAdd. rewrite bind_run.
  destruct (@initializeParticleSystem_pool random random_unit svc st w) as [Hfresh _].
  assert (Hseeded :
            Forall seeded (particleSystem (fst (initializeParticleSystem random svc st w)))).
  { eapply Forall_impl; [|exact Hfresh]. apply freshlySpawned_seeded. }
  set (st1 := fst (initializeParticleSystem random svc st w)) in *.
  set (w1 := snd (initializeParticleSystem random svc st w)).
  unfold animateWeatherVisualization. rewrite bind_run.
  destruct (fst (getWeatherData random svc (center_lat view) (center_lng view) w1))
    as [d|e].
  - destruct (animateFrames_seeded frames canvas (Some d)
                (setParticles (particleSystem st1) (Some d) st1)
                (snd (getWeatherData random svc (center_lat view) (center_lng view) w1))
                Hseeded) as [Hs Hm].
    split; [exact Hs|]. intros Hf. apply Hm. left. exact Hf.
  - destruct (animateFrames_seeded frames canvas None st1
                (snd (getWeatherData random svc (center_lat view) (center_lng view) w1))
                Hseeded) as [Hs Hm].
    split; [exact Hs|]. intros Hf. apply Hm. left. exact Hf.
Qed.

(** X26.  For a particle with a positive life and a brightness in
    [[0.5, 1)], the stroke of a frame has a width of at least 0.8, and its
    opacity is between 0 and 0.9 as long as the particle's new age does not
    exceed its life; in the frame where it does (the frame that respawns the
    particle) the opacity handed to the canvas is negative. *)
Theorem stroke_opacity (canvas : Canvas) (layer : WeatherLayer)
    (data : option WindyWeatherData) (p : WindParticle) (w : World) :
  0 < life p -> 0.5 <= brightness p < 1 ->
  let stroke := snd (fst (stepParticle random canvas layer data p w)) in
  0.8 <= lineWidth stroke
  /\ (INR (S (age p)) <= life p -> 0 <= globalAlpha stroke < 0.9)
  /\ (life p < INR (S (age p)) -> globalAlpha stroke < 0).
Proof.
  intros Hlife Hbright.
  assert (Hstroke : exists speed colour from to,
             0 <= speed
             /\ snd (fst (stepParticle random canvas layer data p w))
                = {| strokeStyle := colour;
                     globalAlpha :=
                       brightness p
                       * (1 - INR (S (age p)) / life p * (INR (S (age p)) / life p))
                       * 0.9;
                     lineWidth := 0.8 + speed * 0.25;
                     moveTo := from;
                     lineTo := to |}).
  { unfold stepParticle, bind, ret, MapComponent.Math_random,
      WindyWeatherService.Math_random.
    cbv beta iota zeta.
    destruct (RNum.ltb (life p) (INR (S (age p))));
      cbn [fst snd]; eexists; eexists; eexists; eexists;
      (split; [apply sqrt_pos | reflexivity]). }
  destruct Hstroke as (speed & colour & from & to & Hspeed & ->).
  cbn [lineWidth globalAlpha].
  assert (Hage : 0 < INR (S (age p))) by (apply lt_0_INR; lia).
  assert (Hq : INR (S (age p)) / life p * life p = INR (S (age p)))
    by (field; Lra.lra).
  set (rho := INR (S (age p)) / life p) in *.
  assert (Hrho : 0 < rho) by Lra.nra.
  split; [Lra.lra|]. split; intros Hcmp.
  - assert (Hle : rho <= 1) by Lra.nra.
    assert (Ht : 0 <= 1 - rho * rho < 1) by (split; Lra.nra).
    set (t := 1 - rho * rho) in *. split; Lra.nra.
  - assert (Hgt : 1 < rho) by Lra.nra.
    assert (Ht : 1 - rho * rho < 0) by Lra.nra.
    set (t := 1 - rho * rho) in *. Lra.nra.
Qed.

Lemma getLayerColor_ignores_speed (layer : WeatherLayer) (d : WindyWeatherData)
    (s1 s2 : R) :
  getLayerColor layer d s1 = getLayerColor layer d s2.
Proof. destruct layer; reflexivity. Qed.

Lemma animate_keeps_pool_size (canvas : Canvas) (data : option WindyWeatherData)
    (st : State) (w : World) :
  List.length (strokes (snd (fst (animate random canvas data st w))))
  = List.length (particleSystem st)
  /\ List.length (particleSystem (fst (fst (animate random canvas data st w))))
     = List.length (particleSystem st)
  /\ currentWeatherLayer (fst (fst (animate random canvas data st w)))
     = currentWeatherLayer st.
Proof.
  unfold animate. rewrite !bind_run.
  cbn [ret fst snd strokes setParticles particleSystem currentWeatherLayer].
  rewrite !length_map, mapM_length. repeat split.
Qed.

Lemma initializeParticleSystem_keeps_layer (svc : Service) (st : State) (w : World) :
  currentWeatherLayer (fst (initializeParticleSystem random svc st w))
  = currentWeatherLayer st.
Proof.
  unfold initializeParticleSystem.
  cbn [setParticles leafletMap particleSystem].
  destruct (leafletMap st) as [center|]; [|reflexivity].
  rewrite bind_run.
  destruct (getWeatherData_emits random svc (center_lat center) (center_lng center) w)
    as [d Hd].
  rewrite Hd. rewrite bind_run. reflexivity.
Qed.

(** X27.  With the placeholder key the sample is delivered before the first
    frame, so the speed palette is never used: every frame draws one stroke
    per particle of the pool, and every stroke has the colour of the active
    layer for that one sample, whatever the particle's own speed. *)
Theorem strokes_share_the_layer_colour (svc : Service) (view : MapView)
    (canvas : Canvas) (frames : nat) (st : State) (w : World) :
  apiKey svc = placeholderKey ->
  let d := simulatedAt random (center_lat view) (center_lng view) w in
  let drawn :=
    snd (fst (animateWeatherVisualization random svc view canvas frames st w)) in
  List.length drawn = frames
  /\ Forall (fun frame =>
               List.length (strokes frame) = List.length (particleSystem st)
               /\ Forall (fun s => strokeStyle s
                                   = getLayerColor (currentWeatherLayer st) d 0)
                    (strokes frame))
       drawn.
Proof.
  intros Hkey d. cbv zeta. unfold animateWeatherVisualization. rewrite !bind_run.
  rewrite getWeatherData_without_key by exact Hkey. cbn [fst snd].
  fold d.
  set (w1 := {| cursor := 6 + cursor w; console := console w |}). clearbody w1.
  set (st1 := setParticles (particleSystem st) (Some d) st).
  assert (Hlayer : currentWeatherLayer st1 = currentWeatherLayer st) by reflexivity.
  assert (Hpool : List.length (particleSystem st1) = List.length (particleSystem st))
    by reflexivity.
  rewrite <- Hlayer, <- Hpool. clearbody st1. clear Hlayer Hpool.
  revert st1 w1. induction frames as [|frames IH]; intros st1 w1;
    [split; [reflexivity | constructor]|].
  cbn [animateFrames]. rewrite !bind_run. cbn [ret fst snd].
  destruct (animate_keeps_pool_size canvas (Some d) st1 w1) as (Hstrokes & Hlen & Hkeep).
  destruct (IH (fst (fst (animate random canvas (Some d) st1 w1)))
               (snd (animate random canvas (Some d) st1 w1))) as [IHn IHall].
  split; [cbn [List.length]; rewrite IHn; reflexivity|].
  constructor.
  - split; [exact Hstrokes|].
    unfold animate. rewrite !bind_run. cbn [ret fst snd strokes].
    apply Forall_map.
    apply (mapM_Forall (fun r => strokeStyle (snd r)
                                 = getLayerColor (currentWeatherLayer st1) d 0)).
    intros p w0. unfold stepParticle, bind, ret, MapComponent.Math_random,
      WindyWeatherService.Math_random.
    cbv beta iota zeta.
    destruct (RNum.ltb (life p) (INR (S (age p)))); cbn [fst snd strokeStyle];
      apply getLayerColor_ignores_speed.
  - rewrite <- Hkeep, <- Hlen. exact IHall.
Qed.
End ParticlesMore.

Lemma particles_stay_seeded_and_near_witness :
  let pool :=
    MapComponent.particleSystem
      (fst (fst (MapComponent.onAdd (fun _ => 0.5%R)
                   (WindyWeatherService.shipped unreachable) equator
                   (MapComponent.mkCanvas 1000 600) 3 mountedState freshWorld))) in
  Forall (fun p => (-50 <= MapComponent.x p <= INR 1000 + 50
                    /\ -50 <= MapComponent.y p <= INR 600 + 50)%R) pool.
Proof.
  apply (proj2 (@particles_stay_seeded_and_near (fun _ => 0.5%R) half_is_a_draw
                  (WindyWeatherService.shipped unreachable) equator
                  (MapComponent.mkCanvas 1000 600) 3 mountedState freshWorld)).
  lia.
Defined.

Lemma stroke_opacity_witness :
  let stroke :=
    snd (fst (MapComponent.stepParticle (fun _ => 0.5%R)
                (MapComponent.mkCanvas 1000 600) LWind None youngParticle freshWorld)) in
  (0 <= MapComponent.globalAlpha stroke < 0.9)%R.
Proof.
  apply (@stroke_opacity (fun _ => 0.5%R) (MapComponent.mkCanvas 1000 600) LWind None
           youngParticle freshWorld); cbn; Lra.lra.
Defined.

(** The pool as [initializeParticleSystem] seeds it on the mounted component,
    then two frames: each draws one stroke per particle, all in the colour of
    the wind layer. *)
Lemma strokes_share_the_layer_colour_witness :
  let seeding :=
    MapComponent.initializeParticleSystem (fun _ => 0.5%R)
      (WindyWeatherService.shipped unreachable) mountedState freshWorld in
  Forall (fun frame =>
            List.length (MapComponent.strokes frame) = MapComponent.particleCount
            /\ Forall (fun s => MapComponent.strokeStyle s
                                = MapComponent.getLayerColor LWind
                                    (simulatedAt (fun _ => 0.5%R) 0 0 (snd seeding)) 0)
                 (MapComponent.strokes frame))
    (snd (fst (MapComponent.animateWeatherVisualization (fun _ => 0.5%R)
                 (WindyWeatherService.shipped unreachable) equator
                 (MapComponent.mkCanvas 1000 600) 2 (fst seeding) (snd seeding)))).
Proof.
  intros seeding.
  pose proof (proj2 (@strokes_share_the_layer_colour (fun _ => 0.5%R)
                       (WindyWeatherService.shipped unreachable) equator
                       (MapComponent.mkCanvas 1000 600) 2
                       (fst seeding) (snd seeding) eq_refl)) as H.
  unfold seeding in H at 1 2.
  rewrite (@initializeParticleSystem_keeps_layer (fun _ => 0.5%R)) in H.
  rewrite (proj2 (@initializeParticleSystem_pool (fun _ => 0.5%R) half_is_a_draw
                    (WindyWeatherService.shipped unreachable) mountedState freshWorld))
    in H by discriminate.
  exact H.
Defined.

(** ** From two clicks to a drawn route *)

Lemma cannedRoute_layers (first last : MapComponent.Waypoint) :
  MapComponent.forEachSegment 1 0 (AppsContentComponent.cannedRoute first last)
  = Some ([MapComponent.sourceMarker (latLngOf first);
           MapComponent.destinationMarker (latLngOf last);
           MapComponent.Polyline
             (map latLngOf
                ([first] ++ AppsContentComponent.innerWaypoints ++ [last]))
             1 3437.611 409.495]
          ++ map (fun k => MapComponent.waypointMarker
                             (latLngOf (nth (5 * k)
                                          AppsContentComponent.innerWaypoints first)))
               (seq 0 10)).
Proof. reflexivity. Qed.

Lemma selectCell_keeps_map (cell : GridCell) (st : MapComponent.State) :
  MapComponent.leafletMap (fst (MapComponent.selectCell cell st))
  = MapComponent.leafletMap st
  /\ MapComponent.routeLayerGroup (fst (MapComponent.selectCell cell st))
     = MapComponent.routeLayerGroup st.
Proof.
  unfold MapComponent.selectCell.
  destruct (MapComponent.selectionMode st); split; reflexivity.
Qed.

(** X28.  Two clicks on [MapComponent], on cell [a] and then on cell [b],
    emit one event; [onCoordinatesSelected] turns it into two named locations
    at the centres of [a] and [b] and into the canned route from [a] to [b];
    when the timer fires the map draws that route: a source marker at the
    centre of [a], a destination marker at the centre of [b], one polyline of
    50 points and 10 waypoint markers, and fits the view to bounds that contain
    both centres, while the selection is still [a], [b].  An event with a
    missing endpoint changes nothing and schedules nothing. *)
Theorem selection_draws_route (numberToString : Q -> string) (a b : GridCell)
    (child : MapComponent.State) (apps : AppsContentComponent.State) :
  MapComponent.selectionMode child = SourceMode ->
  MapComponent.leafletMap child <> None ->
  MapComponent.routeLayerGroup child <> None ->
  AppsContentComponent.mapComponent apps = Some (fst (mapClicks [a; b] child)) ->
  let event := mkSelected (Some a) (Some b) in
  let out := AppsContentComponent.onCoordinatesSelected numberToString event apps in
  emitted (snd (mapClicks [a; b] child)) = [event]
  /\ AppsContentComponent.showWeatherTable (fst out) = true
  /\ map (fun l => (AppsContentComponent.loc_lat l, AppsContentComponent.loc_lon l))
       (AppsContentComponent.selectedLocations (fst out))
     = [(lat a, lon a); (lat b, lon b)]
  /\ exists (routing : list MapComponent.RoutingData)
            (apps' : AppsContentComponent.State)
            (child' : MapComponent.State)
            (calls : list MapComponent.LeafletCall)
            (fitted : MapComponent.Bounds),
       snd out = Some routing
       /\ AppsContentComponent.onTimer routing (fst out) = Some (apps', calls)
       /\ AppsContentComponent.mapComponent apps' = Some child'
       /\ MapComponent.selectedCoordinates child' = event
       /\ List.length (added calls) = 13%nat
       /\ nth_error (added calls) 0 = Some (MapComponent.sourceMarker (lat a, lon a))
       /\ nth_error (added calls) 1
          = Some (MapComponent.destinationMarker (lat b, lon b))
       /\ (exists pts, nth_error (added calls) 2
                       = Some (MapComponent.Polyline pts 1 3437.611 409.495)
                       /\ List.length pts = 50%nat)
       /\ last calls MapComponent.ClearLayers
          = MapComponent.FitBounds fitted (50, 50)%nat
       /\ inBounds fitted (lat a, lon a)
       /\ inBounds fitted (lat b, lon b).
Proof.
  intros Hmode Hmap Hgroup Hchild event out.
  assert (Hev : emitted (snd (mapClicks [a; b] child)) = [event]).
  { cbn [mapClicks fst snd]. unfold MapComponent.selectCell at 1 3.
    rewrite Hmode. cbn [fst snd]. unfold MapComponent.selectCell.
    cbn [MapComponent.setSelection MapComponent.selectionMode
         MapComponent.selectedCoordinates source fst snd app emitted flat_map].
    reflexivity. }
  set (child2 := fst (mapClicks [a; b] child)) in *.
  assert (Hsel2 : MapComponent.selectedCoordinates child2 = event).
  { subst child2. cbn [mapClicks fst]. unfold MapComponent.selectCell at 2.
    rewrite Hmode. cbn [fst]. unfold MapComponent.selectCell.
    cbn [MapComponent.setSelection MapComponent.selectionMode
         MapComponent.selectedCoordinates source fst]. reflexivity. }
  assert (Hready2 : MapComponent.leafletMap child2 = MapComponent.leafletMap child
                    /\ MapComponent.routeLayerGroup child2
                       = MapComponent.routeLayerGroup child).
  { subst child2. cbn [mapClicks fst].
    destruct (selectCell_keeps_map b (fst (MapComponent.selectCell a child)))
      as [H1 H2].
    destruct (selectCell_keeps_map a child) as [H3 H4].
    split; congruence. }
  destruct Hready2 as [Hmap2 Hgroup2].
  split; [exact Hev|].
  subst out. unfold AppsContentComponent.onCoordinatesSelected. subst event.
  cbn [source destination fst snd AppsContentComponent.showWeatherTable
       AppsContentComponent.selectedLocations map AppsContentComponent.loc_lat
       AppsContentComponent.loc_lon AppsContentComponent.displayRoute].
  split; [reflexivity|]. split; [reflexivity|].
  set (routing := AppsContentComponent.cannedRoute _ _).
  destruct (displayRoute_returns (Some routing) child2) as (child3 & calls & Hdraw).
  destruct (@displayRoute_ready routing child2 child3 calls) as (layers & Hlayers & -> & ->);
    try solve [congruence | discriminate | exact Hdraw].
  subst routing. change (List.length (AppsContentComponent.cannedRoute _ _)) with 1%nat in Hlayers.
  rewrite cannedRoute_layers in Hlayers. apply Some_inj in Hlayers. subst layers.
  set (layers := _ ++ _) in *.
  pose proof (getBounds_covers layers) as Hcover.
  destruct (MapComponent.getBounds layers) as [fitted|] eqn:Hfit.
  2:{ exfalso. subst layers. discriminate Hcover. }
  eexists; eexists; exists (MapComponent.setRouteLayers (Some layers) child2);
    eexists; exists fitted.
  split; [reflexivity|].
  split.
  { unfold AppsContentComponent.onTimer. cbn [AppsContentComponent.mapComponent].
    rewrite Hchild. fold child2. rewrite Hdraw. reflexivity. }
  split; [reflexivity|].
  split; [exact Hsel2|].
  rewrite added_calls.
  2:{ intros c [<-|[]]. eexists; eexists; reflexivity. }
  split; [reflexivity|]. split; [reflexivity|]. split; [reflexivity|].
  split.
  { eexists. split; [reflexivity|]. reflexivity. }
  split.
  { rewrite app_comm_cons. apply last_last. }
  split.
  - apply (Hcover (MapComponent.sourceMarker (lat a, lon a))).
    + left. reflexivity.
    + left. reflexivity.
  - apply (Hcover (MapComponent.destinationMarker (lat b, lon b))).
    + right. left. reflexivity.
    + left. reflexivity.
Qed.

Lemma selection_draws_route_witness :
  emitted (snd (mapClicks [cell1; cell648] mountedState))
  = [mkSelected (Some cell1) (Some cell648)].
Proof.
  exact (proj1 (@selection_draws_route (fun _ => "?"%string) cell1 cell648
                  mountedState (appsWith (fst (mapClicks [cell1; cell648] mountedState)))
                  eq_refl ltac:(cbn; discriminate) ltac:(cbn; discriminate) eq_refl)).
Defined.

(** ** Where the waypoint markers go *)

Lemma seq_succ_map {A : Type} (f : nat -> A) (m : nat) :
  map f (seq 1 m) = map (fun k => f (S k)) (seq 0 m).
Proof. rewrite <- seq_shift, map_map. reflexivity. Qed.

Lemma marker_count_step (n i : nat) :
  (i < n - 1)%nat -> ((n - 1 - i + 4) / 5 = S ((n - 1 - (i + 5) + 4) / 5))%nat.
Proof.
  intros Hi. destruct (Nat.le_gt_cases (i + 5) (n - 1)) as [Hle|Hgt].
  - replace (n - 1 - i + 4)%nat with (n - 1 - (i + 5) + 4 + 1 * 5)%nat by lia.
    rewrite Nat.div_add by lia. lia.
  - replace (n - 1 - (i + 5))%nat with 0%nat by lia.
    replace (n - 1 - i + 4)%nat with (n - 1 - i - 1 + 1 * 5)%nat by lia.
    rewrite Nat.div_add by lia.
    rewrite (Nat.div_small (n - 1 - i - 1) 5) by lia. reflexivity.
Qed.

Lemma intermediateMarkers_positions (coordinates : list (Q * Q)) (d : Q * Q) :
  forall fuel i : nat,
    (List.length coordinates <= fuel + i)%nat ->
    MapComponent.intermediateMarkers fuel i coordinates
    = Some (map (fun k => MapComponent.waypointMarker (nth (i + 5 * k) coordinates d))
              (seq 0 ((List.length coordinates - 1 - i + 4) / 5))).
Proof.
  induction fuel as [|fuel IH]; intros i Hfuel.
  - replace (List.length coordinates - 1 - i)%nat with 0%nat by lia. reflexivity.
  - cbn [MapComponent.intermediateMarkers]. unfold MapComponent.LatLng in *.
    destruct (Nat.ltb_spec i (List.length coordinates - 1)) as [Hi|Hi].
    + rewrite (@marker_count_step _ _ Hi).
      rewrite (nth_error_nth' coordinates d) by lia.
      rewrite IH by lia. cbn [option_map seq map]. f_equal. f_equal.
      * f_equal. f_equal. lia.
      * rewrite seq_succ_map. apply map_ext. intros k. f_equal. f_equal. lia.
    + replace (List.length coordinates - 1 - i)%nat with 0%nat by lia. reflexivity.
Qed.

(** X29.  For a route of one segment with [n >= 1] waypoints on a ready
    map, [displayRoute] adds, in this order, the source marker at the first
    waypoint, the destination marker at the last, the polyline through all
    waypoints, and waypoint markers at the waypoints of index 1, 6, 11, ...
    below [n - 1]: [(n + 2) / 5] of them, never on the first or the last
    waypoint. *)
Theorem displayRoute_single_segment (rd : MapComponent.RoutingData)
    (wp : MapComponent.Waypoint) (wps : list MapComponent.Waypoint)
    (st st' : MapComponent.State) (calls : list MapComponent.LeafletCall) :
  MapComponent.leafletMap st <> None ->
  MapComponent.routeLayerGroup st <> None ->
  MapComponent.waypoints rd = Some (wp :: wps) ->
  MapComponent.displayRoute (Some [rd]) st = Some (st', calls) ->
  let coordinates := map latLngOf (wp :: wps) in
  let n := List.length (wp :: wps) in
  added calls
  = [MapComponent.sourceMarker (latLngOf wp);
     MapComponent.destinationMarker (latLngOf (last (wp :: wps) wp));
     MapComponent.Polyline coordinates 1
       (MapComponent.totalDistance rd) (MapComponent.secaDistance rd)]
    ++ map (fun k => MapComponent.waypointMarker
                       (nth (1 + 5 * k) coordinates (latLngOf wp)))
         (seq 0 ((n + 2) / 5))
  /\ (forall k : nat, (k < (n + 2) / 5)%nat -> (0 < 1 + 5 * k < n - 1)%nat).
Proof.
  intros Hmap Hgroup Hw Hrun coordinates n.
  destruct (@displayRoute_ready [rd] st st' calls Hmap Hgroup ltac:(discriminate) Hrun)
    as (layers & Hlayers & _ & ->).
  rewrite added_calls.
  2:{ intros c Hc. destruct (MapComponent.getBounds layers); [|destruct Hc].
      destruct Hc as [<-|[]]. eexists; eexists; reflexivity. }
  assert (Hcount : ((List.length coordinates - 1 - 1 + 4) / 5 = (n + 2) / 5)%nat).
  { subst coordinates n. rewrite length_map. cbn [List.length].
    destruct wps as [|w ws]; [reflexivity|]. cbn [List.length]. f_equal. lia. }
  split.
  - cbn [MapComponent.forEachSegment List.length] in Hlayers.
    unfold MapComponent.drawSegment in Hlayers. rewrite Hw in Hlayers.
    cbv zeta in Hlayers.
    change (map (fun w => (MapComponent.wp_lat w, MapComponent.wp_lon w)) (wp :: wps))
      with coordinates in Hlayers.
    unfold MapComponent.LatLng in *.
    rewrite (@intermediateMarkers_positions coordinates (latLngOf wp)) in Hlayers by lia.
    rewrite Hcount in Hlayers.
    assert (Hlast : nth_error coordinates (List.length coordinates - 1)
                    = Some (latLngOf (last (wp :: wps) wp))).
    { subst coordinates. rewrite length_map, nth_error_map.
      rewrite (@nth_error_last_index _ (wp :: wps) wp) by discriminate. reflexivity. }
    rewrite Hlast in Hlayers.
    cbn [Nat.eqb Nat.sub nth_error coordinates map option_map app] in Hlayers.
    apply Some_inj in Hlayers. subst layers. rewrite app_nil_r. reflexivity.
  - intros k Hk. split; [lia|].
    assert (Hn : (5 * ((n + 2) / 5) <= n + 2)%nat) by (apply Nat.Div0.mul_div_le).
    nia.
Qed.

Lemma displayRoute_single_segment_witness :
  added demoCalls
  = [MapComponent.sourceMarker (0, 0);
     MapComponent.destinationMarker (7, 70);
     MapComponent.Polyline
       [(0, 0); (1, 10); (2, 20); (3, 30); (4, 40); (5, 50); (6, 60); (7, 70)]
       1 1200 0;
     MapComponent.waypointMarker (1, 10);
     MapComponent.waypointMarker (6, 60)].
Proof.
  exact (proj1 (@displayRoute_single_segment demoSegment
                  (MapComponent.mkWaypoint 0 0)
                  (map (fun k => MapComponent.mkWaypoint (QNum.ofNat k) (10 * QNum.ofNat k))
                     (seq 1 7))
                  mountedState
                  (MapComponent.setRouteLayers (Some (added demoCalls)) mountedState)
                  demoCalls ltac:(cbn; discriminate) ltac:(cbn; discriminate)
                  eq_refl eq_refl)).
Defined.
